(** * FitTrack: workout session engine and timer scheduler

    A shallow embedding of [scripts/services/workout-service.js],
    [scripts/services/timer-service.js] and the part of
    [scripts/core/database.js] they rely on, with the properties of the
    specification stated and settled against that embedding.

    Conventions of the embedding:
    - JavaScript numbers that hold counts, indices, seconds and
      milliseconds are integers of [Z]; [NaN] and [undefined] appear only
      where the code tests for them (see [Js]).  Where the code formats
      and parses times, the rounding of numbers beyond [2^53] to doubles
      and their notation with an exponent are modelled as well.
    - Dates are milliseconds since the epoch.  An ISO string produced by
      [toISOString] and parsed back by [new Date] is the same instant, so
      the strings are not modelled.  A call reads the clock once: every
      [new Date()] and [Date.now()] inside it yields the [now] it is
      given.
    - An asynchronous method is a computation of the monad [M]: it reads and
      writes the persistent store and appends to the log of emitted
      events.  IndexedDB hands out structured clones: a record read from a
      store is a fresh copy, and a record written is copied into the
      store.  Values of Rocq have exactly this behaviour.
    - [console.log] and the [try { ... } catch (e) { log; throw e }]
      wrappers have no effect on results and are left out. *)

From Stdlib Require Import ZArith List String Ascii Lia Bool.
From stdpp Require Import base option list gmap strings fin_maps.

Local Open Scope Z_scope.

(** ** JavaScript values used by the services *)

Module Js.

(** A number-valued property that may be missing or hold [NaN].  The numbers
    are whole: a fraction such as [2.5] is not among them. *)
Inductive num : Type :=
| NaN
| Num (z : Z).

(** [undefined] is [None]. *)
Definition value : Type := option num.

(** Truthiness of a number-valued property: [undefined], [NaN] and [0] are
    falsy. *)
Definition truthy (v : value) : bool :=
  match v with
  | Some (Num z) => negb (z =? 0)
  | _ => false
  end.

(** [isNaN(v)]: [undefined] converts to [NaN]. *)
Definition isNaN (v : value) : bool :=
  match v with
  | Some (Num _) => false
  | _ => true
  end.

(** [v < k] for a numeric literal [k]; any comparison with [NaN] or
    [undefined] is false. *)
Definition lt (v : value) (k : Z) : bool :=
  match v with
  | Some (Num z) => z <? k
  | _ => false
  end.

(** [a || b] where [b] is a number. *)
Definition or_else (a : value) (b : Z) : Z :=
  match a with
  | Some (Num z) => if z =? 0 then b else z
  | _ => b
  end.

(** *** Integers as doubles

    A number is a double.  Every integer up to [2^53] in magnitude is one,
    and a sum, a product or a floored quotient of integers is exact when its
    operands and its exact result stay within that range.  Beyond it the
    result is the nearest double, a tie going to the even significand.  Only
    finite numbers are modelled: [Infinity] is left out. *)

(** [Number.MAX_SAFE_INTEGER] *)
Definition MAX_SAFE_INTEGER : Z := 2 ^ 53 - 1.

(** An integer of at most [2^53] in magnitude. *)
Definition fits (z : Z) : bool := Z.abs z <=? 2 ^ 53.

(** The integer nearest to [p / q], for [0 ≤ p] and [0 < q]; a tie goes to the
    even one. *)
Definition round_ratio (p q : Z) : Z :=
  let d := p / q in
  let r := p mod q in
  if 2 * r <? q then d
  else if q <? 2 * r then d + 1
  else if Z.even d then d else d + 1.

(** The double nearest to the integer [z]: [z] itself up to [2^53]; beyond,
    the significand is [z] scaled to 53 bits and rounded. *)
Definition to_double (z : Z) : Z :=
  if fits z then z
  else
    let e := Z.log2 (Z.abs z) - 52 in
    Z.sgn z * (round_ratio (Z.abs z) (2 ^ e) * 2 ^ e).

(** [Math.floor(a / b)] for integers [a] and [1 ≤ b ≤ 2^53].  The quotient is
    a double before [Math.floor] sees it.  For [a] up to [2^53] the double
    nearest to [a / b] lies within [a / b · 2^-53], which is less than
    [1 / b], of the quotient, so both have the same floor.  Beyond, the
    quotient is scaled to a significand of 53 bits and rounded. *)
Definition floor_div (a b : Z) : Z :=
  if fits a then a / b
  else
    let e := Z.log2 (Z.abs a / b) - 52 in
    if 0 <=? e
    then Z.sgn a * (round_ratio (Z.abs a) (b * 2 ^ e) * 2 ^ e)
    else (Z.sgn a * round_ratio (Z.abs a * 2 ^ (- e)) b) / 2 ^ (- e).

(** [l[i]] for an array [l]: [undefined] outside [0 .. length-1]. *)
Definition index {A : Type} (l : list A) (i : Z) : option A :=
  if i <? 0 then None else l !! Z.to_nat i.

(** [l[i] = x] for an index that holds an element. *)
Definition set_index {A : Type} (l : list A) (i : Z) (x : A) : list A :=
  if i <? 0 then l else <[Z.to_nat i := x]> l.

End Js.

(** ** Strings: number formatting, padding, splitting, [parseInt] *)

Module JsString.
Import Js.

(** The character of a decimal digit [0 ≤ d ≤ 9]. *)
Definition digit_char (d : Z) : ascii := ascii_of_nat (48 + Z.to_nat d).

(** The digit a character stands for, if it is one of ['0'] .. ['9']. *)
Definition digit_value (c : ascii) : option Z :=
  let n := Z.of_nat (nat_of_ascii c) in
  if (48 <=? n) && (n <=? 57) then Some (n - 48) else None.

(** The decimal digits of [n ≥ 0] in front of [acc], most significant
    first.  [fuel] bounds the number of digits. *)
Fixpoint digits_fuel (fuel : nat) (n : Z) (acc : string) : string :=
  match fuel with
  | O => acc
  | S f =>
      let acc' := String (digit_char (n mod 10)) acc in
      if n <? 10 then acc' else digits_fuel f (n / 10) acc'
  end.

(** A number of [b] bits has at most [b] decimal digits. *)
Definition digits (n : Z) : string :=
  digits_fuel (S (Z.to_nat (Z.log2 n))) n "".

(** [n.toString()] for an integer [n] up to [2^53] in magnitude: all its
    digits. *)
Definition toString (n : Z) : string :=
  if n <? 0 then String "-"%char (digits (- n)) else digits n.

(** [s.padStart(targetLength, c)] for a one-character pad [c]. *)
Definition padStart (targetLength : nat) (c : ascii) (s : string) : string :=
  string_of_list_ascii (repeat c (targetLength - String.length s)) +:+ s.

(** [s.split(c)] for a one-character separator [c]. *)
Fixpoint split (c : ascii) (s : string) : list string :=
  match s with
  | EmptyString => [EmptyString]
  | String x r =>
      if Ascii.eqb x c then EmptyString :: split c r
      else match split c r with
           | h :: t => String x h :: t
           | [] => [String x EmptyString]
           end
  end.

(** White space as [parseInt] and [trim] skip it (within ASCII). *)
Definition is_space (c : ascii) : bool :=
  let n := nat_of_ascii c in
  (n =? 32)%nat || ((9 <=? n)%nat && (n <=? 13)%nat).

(** A string of ASCII characters.  Beyond ASCII there is more white space
    (the no-break space, the byte order mark, the space separators and the
    line and paragraph separators), which [is_space] does not know. *)
Definition is_ascii (s : string) : bool :=
  forallb (λ c, (nat_of_ascii c <? 128)%nat) (list_ascii_of_string s).

Fixpoint trimStart (s : string) : string :=
  match s with
  | EmptyString => EmptyString
  | String c r => if is_space c then trimStart r else s
  end.

Definition reverse (s : string) : string :=
  string_of_list_ascii (rev (list_ascii_of_string s)).

(** [s.trim()] *)
Definition trim (s : string) : string :=
  reverse (trimStart (reverse (trimStart s))).

(** The longest prefix of decimal digits, read in base ten; [NaN] if it is
    empty.  [seen] tells whether a digit has been read. *)
Fixpoint parse_digits (s : string) (acc : Z) (seen : bool) : num :=
  match s with
  | EmptyString => if seen then Num acc else NaN
  | String c r =>
      match digit_value c with
      | Some d => parse_digits r (acc * 10 + d) true
      | None => if seen then Num acc else NaN
      end
  end.

Definition neg (x : num) : num :=
  match x with
  | NaN => NaN
  | Num z => Num (- z)
  end.

(** [x + y] and [x * y]: the exact result as a double. *)
Definition add (x y : num) : num :=
  match x, y with
  | Num a, Num b => Num (to_double (a + b))
  | _, _ => NaN
  end.

Definition mul (x y : num) : num :=
  match x, y with
  | Num a, Num b => Num (to_double (a * b))
  | _, _ => NaN
  end.

Definition as_double (x : num) : num :=
  match x with
  | NaN => NaN
  | Num z => Num (to_double z)
  end.

(** [parseInt(s, 10)]: the integer the digits denote, as a double. *)
Definition parseInt (s : string) : num :=
  as_double
    match trimStart s with
    | String "-"%char r => neg (parse_digits r 0 false)
    | String "+"%char r => parse_digits r 0 false
    | t => parse_digits t 0 false
    end.

(** *** Numbers beyond [2^53] as strings

    [Number.prototype.toString] writes the shortest decimal that reads back
    as the same double: [k] digits [s] and a position [n] with
    [s × 10^(n-k)] rounding to the number and [k] as small as possible; of
    two such decimals the nearer one, and of two equally near ones the one
    with [s] even.  Up to [10^21] the digits are followed by zeros, from
    [10^21] on the exponent is written out. *)

(** The decimal for the double [x > 2^53] of [n] digits, trying [k], [k + 1],
    ... digits, at most [n]. *)
Fixpoint shortest_fuel (fuel : nat) (k n x : Z) : Z :=
  match fuel with
  | O => x
  | S f =>
      let p := 10 ^ (n - k) in
      let s := x / p in
      let lo := s * p in
      let hi := lo + p in
      let ok_lo := to_double lo =? x in
      let ok_hi := to_double hi =? x in
      if ok_lo && ok_hi
      then if x - lo <? hi - x then lo
           else if hi - x <? x - lo then hi
           else if Z.even s then lo else hi
      else if ok_lo then lo
      else if ok_hi then hi
      else shortest_fuel f (k + 1) n x
  end.

Definition shortest (x : Z) : Z :=
  let n := String.length (digits x) in
  shortest_fuel n 1 (Z.of_nat n) x.

(** A string of digits without the zeros at its end. *)
Fixpoint strip_zeros (s : string) : string :=
  match s with
  | EmptyString => EmptyString
  | String c r =>
      match strip_zeros r with
      | EmptyString => if Ascii.eqb c "0"%char then EmptyString else String c EmptyString
      | r' => String c r'
      end
  end.

(** [d.ddde+n] for the decimal [v ≥ 10^21]. *)
Definition exponential (v : Z) : string :=
  let ds := digits v in
  let e := "e+" +:+ digits (Z.of_nat (String.length ds) - 1) in
  match strip_zeros ds with
  | EmptyString => ds
  | String d EmptyString => String d e
  | String d r => String d ("." +:+ r +:+ e)
  end.

Definition unsigned_toString (x : Z) : string :=
  if x <=? 2 ^ 53 then digits x
  else let v := shortest x in
       if v <? 10 ^ 21 then digits v else exponential v.

(** [x.toString()], and [x] inside a template literal, for any integer [x]
    that is a double. *)
Definition number_toString (x : Z) : string :=
  if x <? 0 then String "-"%char (unsigned_toString (- x)) else unsigned_toString x.

(** All characters are decimal digits. *)
Fixpoint all_digits (s : string) : bool :=
  match s with
  | EmptyString => true
  | String c r =>
      match digit_value c with
      | Some _ => all_digits r
      | None => false
      end
  end.

(** The number a string of digits denotes, continuing from [acc]. *)
Fixpoint dvalue (s : string) (acc : Z) : Z :=
  match s with
  | EmptyString => acc
  | String c r => dvalue r (acc * 10 + default 0 (digit_value c))
  end.

End JsString.

(** ** The persistent store ([scripts/core/database.js]) *)

Module Store.

(** Session status: the strings ['active'], ['paused'], ['completed']. *)
Inductive Status : Type := active | paused | completed.

#[global] Instance Status_eq_dec : EqDecision Status.
Proof. solve_decision. Defined.

(** A record of the [exercises] store, as [createExercise] writes it. *)
Record Exercise : Type := {
  ex_id : string;
  ex_name : string;
  ex_routineId : string;
  ex_sets : Z;
  ex_reps : Z;
  ex_weight : Z;
  ex_restTime : Z;
  ex_notes : string
}.

(** A record of the [routines] store; [getRoutine] of the service attaches
    the exercises. *)
Record Routine : Type := {
  r_id : string;
  r_name : string;
  r_description : string
}.

Record CompletedSet : Type := {
  setNumber : Z;
  reps : Z;
  weight : Z;
  completedAt : Z
}.

Record ExerciseProgress : Type := {
  exerciseId : string;
  name : string;
  targetSets : Z;
  targetReps : Z;
  targetWeight : Z;
  restTime : Z;
  completedSets : Z;
  sets : list CompletedSet
}.

(** A workout session.  [id], [date], [createdAt] and [updatedAt] are
    written by the database layer; [pausedAt] exists only while paused. *)
Record Workout : Type := {
  id : string;
  routineId : string;
  routineName : string;
  status : Status;
  currentExerciseIndex : Z;
  currentSet : Z;
  exercises : list ExerciseProgress;
  startTime : Z;
  endTime : option Z;
  duration : Z;
  pausedAt : option Z;
  date : option Z;
  createdAt : option Z;
  updatedAt : option Z
}.

(** The object stores.  [exercises] is kept in the order in which the
    [routineId] index enumerates it. *)
Record Database : Type := {
  routines : gmap string Routine;
  exerciseStore : list Exercise;
  workouts : gmap string Workout
}.

Definition with_workouts (d : Database) (ws : gmap string Workout) : Database :=
  {| routines := routines d; exerciseStore := exerciseStore d; workouts := ws |}.

(** [getRoutine(routineId)] *)
Definition getRoutine (d : Database) (routineId : string) : option Routine :=
  routines d !! routineId.

(** [getExercisesByRoutine(routineId)]: the records whose [routineId] index
    key is [routineId]. *)
Definition getExercisesByRoutine (d : Database) (rid : string) : list Exercise :=
  filter (λ e, ex_routineId e = rid) (exerciseStore d).

(** [getWorkout(workoutId)] *)
Definition getWorkout (d : Database) (workoutId : string) : option Workout :=
  workouts d !! workoutId.

Definition stamp_updated (w : Workout) (now : Z) : Workout :=
  {| id := id w; routineId := routineId w; routineName := routineName w;
     status := status w; currentExerciseIndex := currentExerciseIndex w;
     currentSet := currentSet w; exercises := exercises w;
     startTime := startTime w; endTime := endTime w; duration := duration w;
     pausedAt := pausedAt w; date := date w; createdAt := createdAt w;
     updatedAt := Some now |}.

(** [updateWorkout(workoutData)]: [update] stamps [updatedAt] and [put]s the
    record under its own [id], replacing or creating the entry. *)
Definition updateWorkout (d : Database) (w : Workout) (now : Z) : Database :=
  with_workouts d (<[id w := stamp_updated w now]> (workouts d)).

(** [createWorkout(workoutData)]: the copy that is stored gets the generated
    id, [date], [status: 'active'] and both timestamps; [add] is refused
    when the key is already present. *)
Definition createWorkout (d : Database) (w : Workout) (newId : string) (now : Z)
  : option Database :=
  match workouts d !! newId with
  | Some _ => None
  | None =>
      let stored :=
        {| id := newId; routineId := routineId w; routineName := routineName w;
           status := active; currentExerciseIndex := currentExerciseIndex w;
           currentSet := currentSet w; exercises := exercises w;
           startTime := startTime w; endTime := endTime w;
           duration := duration w; pausedAt := pausedAt w;
           date := Some now; createdAt := Some now; updatedAt := Some now |} in
      Some (with_workouts d (<[newId := stored]> (workouts d)))
  end.

End Store.

(** ** The workout session engine ([scripts/services/workout-service.js]) *)

Module WorkoutService.
Import Store.

(** The errors the service throws, named after their messages. *)
Inductive Error : Type :=
| RoutineNotFound              (* 'Routine not found' *)
| WorkoutNotFoundOrNotActive   (* 'Workout not found or not active' *)
| WorkoutNotFound              (* 'Workout not found' *)
| WorkoutNotFoundOrNotPaused   (* 'Workout not found or not paused' *)
| WorkoutOrExerciseNotFound    (* 'Workout or exercise not found' *)
| TypeError                    (* a property read on [undefined] *)
| ConstraintError.             (* [add] on a key that is present *)

Inductive Event : Type :=
| workoutStarted (w : Workout)
| setCompleted (workoutId : string) (exerciseIndex : Z) (setData : CompletedSet)
| workoutFinished (w : Workout)
| workoutPaused (w : Workout)
| workoutResumed (w : Workout)
| exerciseWeightUpdated (workoutId : string) (exerciseIndex : Z) (newWeight : Z).

(** What a method runs against: the store and the events emitted so far,
    oldest first. *)
Record World : Type := {
  db : Database;
  emitted : list Event
}.

Inductive result (A : Type) : Type :=
| Ok (a : A)
| Throw (e : Error).
Arguments Ok {A} a.
Arguments Throw {A} e.

(** An asynchronous method: the world it leaves behind and either its
    resolved value or the error it rejects with. *)
Definition M (A : Type) : Type := World → World * result A.

(** The resolved value, if there is one. *)
Definition resolved {A : Type} (r : result A) : option A :=
  match r with
  | Ok a => Some a
  | Throw _ => None
  end.

Definition ret {A : Type} (a : A) : M A := λ w, (w, Ok a).

Definition throw {A : Type} (e : Error) : M A := λ w, (w, Throw e).

Definition bind {A B : Type} (m : M A) (k : A → M B) : M B :=
  λ w, match m w with
       | (w', Ok a) => k a w'
       | (w', Throw e) => (w', Throw e)
       end.

Notation "'do' x <- m ; k" := (bind m (λ x, k))
  (at level 10, x name, m at level 100, k at level 200, only parsing).

(** [await this.database.getWorkout(workoutId)] *)
Definition dbGetWorkout (workoutId : string) : M (option Workout) :=
  λ w, (w, Ok (Store.getWorkout (db w) workoutId)).

(** [await this.database.updateWorkout(workout)].  [update] writes
    [updatedAt] into the object it is given, so the caller's object carries
    the stamp afterwards; the stamped object is returned. *)
Definition dbUpdateWorkout (workout : Workout) (now : Z) : M Workout :=
  λ w, ({| db := Store.updateWorkout (db w) workout now; emitted := emitted w |},
        Ok (stamp_updated workout now)).

(** [await this.database.createWorkout(workout)] *)
Definition dbCreateWorkout (workout : Workout) (newId : string) (now : Z) : M string :=
  λ w, match Store.createWorkout (db w) workout newId now with
       | Some d => ({| db := d; emitted := emitted w |}, Ok newId)
       | None => (w, Throw ConstraintError)
       end.

(** [this.emit(event, ...)] *)
Definition emit (e : Event) : M unit :=
  λ w, ({| db := db w; emitted := emitted w ++ [e] |}, Ok tt).

(** [getRoutine(routineId)] of the service: the routine record with its
    exercises attached. *)
Definition getRoutine (routineId : string) : M (option (Routine * list Exercise)) :=
  λ w, (w, Ok (match Store.getRoutine (db w) routineId with
               | Some r => Some (r, Store.getExercisesByRoutine (db w) routineId)
               | None => None
               end)).

(** *** Field updates of the session objects *)

Definition set_progress (w : Workout) (st : Status) (idx cur : Z)
    (exs : list ExerciseProgress) : Workout :=
  {| id := id w; routineId := routineId w; routineName := routineName w;
     status := st; currentExerciseIndex := idx; currentSet := cur;
     exercises := exs; startTime := startTime w; endTime := endTime w;
     duration := duration w; pausedAt := pausedAt w; date := date w;
     createdAt := createdAt w; updatedAt := updatedAt w |}.

Definition set_id (w : Workout) (k : string) : Workout :=
  {| id := k; routineId := routineId w; routineName := routineName w;
     status := status w; currentExerciseIndex := currentExerciseIndex w;
     currentSet := currentSet w; exercises := exercises w;
     startTime := startTime w; endTime := endTime w; duration := duration w;
     pausedAt := pausedAt w; date := date w; createdAt := createdAt w;
     updatedAt := updatedAt w |}.

Definition set_finished (w : Workout) (endT : Z) (dur : Z) : Workout :=
  {| id := id w; routineId := routineId w; routineName := routineName w;
     status := completed; currentExerciseIndex := currentExerciseIndex w;
     currentSet := currentSet w; exercises := exercises w;
     startTime := startTime w; endTime := Some endT; duration := dur;
     pausedAt := pausedAt w; date := date w; createdAt := createdAt w;
     updatedAt := updatedAt w |}.

Definition set_paused (w : Workout) (st : Status) (p : option Z) : Workout :=
  {| id := id w; routineId := routineId w; routineName := routineName w;
     status := st; currentExerciseIndex := currentExerciseIndex w;
     currentSet := currentSet w; exercises := exercises w;
     startTime := startTime w; endTime := endTime w; duration := duration w;
     pausedAt := p; date := date w; createdAt := createdAt w;
     updatedAt := updatedAt w |}.

(** [currentExercise.sets.push(completedSet); currentExercise.completedSets++] *)
Definition push_set (e : ExerciseProgress) (s : CompletedSet) : ExerciseProgress :=
  {| exerciseId := exerciseId e; name := name e; targetSets := targetSets e;
     targetReps := targetReps e; targetWeight := targetWeight e;
     restTime := restTime e; completedSets := completedSets e + 1;
     sets := sets e ++ [s] |}.

Definition set_targetWeight (e : ExerciseProgress) (wt : Z) : ExerciseProgress :=
  {| exerciseId := exerciseId e; name := name e; targetSets := targetSets e;
     targetReps := targetReps e; targetWeight := wt;
     restTime := restTime e; completedSets := completedSets e;
     sets := sets e |}.

(** The snapshot [startWorkout] takes of one exercise of the routine. *)
Definition snapshot (exercise : Exercise) : ExerciseProgress :=
  {| exerciseId := ex_id exercise; name := ex_name exercise;
     targetSets := ex_sets exercise; targetReps := ex_reps exercise;
     targetWeight := ex_weight exercise; restTime := ex_restTime exercise;
     completedSets := 0; sets := [] |}.

(** *** Sessions *)

(** [startWorkout(routineId)].  [newId] is the id the database generates and
    [now] the reading of the clock.  The object returned is the service's
    own, which has the id but none of the fields the database adds to its
    copy. *)
Definition startWorkout (routineId newId : string) (now : Z) : M Workout :=
  do routine <- getRoutine routineId ;
  match routine with
  | None => throw RoutineNotFound
  | Some (r, exs) =>
      let workout :=
        {| id := ""; routineId := routineId; routineName := r_name r;
           status := active; currentExerciseIndex := 0; currentSet := 1;
           exercises := map snapshot exs;
           startTime := now; endTime := None; duration := 0;
           pausedAt := None; date := None; createdAt := None;
           updatedAt := None |} in
      do workoutId <- dbCreateWorkout workout newId now ;
      let workout := set_id workout workoutId in
      do _ <- emit (workoutStarted workout) ;
      ret workout
  end.

(** [finishWorkout(workoutId)] *)
Definition finishWorkout (workoutId : string) (now : Z) : M Workout :=
  do workout <- dbGetWorkout workoutId ;
  match workout with
  | None => throw WorkoutNotFound
  | Some workout =>
      let endT := now in
      let dur := (endT - startTime workout) / 1000 in
      let workout := set_finished workout endT dur in
      do workout <- dbUpdateWorkout workout now ;
      do _ <- emit (workoutFinished workout) ;
      ret workout
  end.

(** The [setData] argument of [completeSet]. *)
Record SetData : Type := {
  sd_reps : Js.value;
  sd_weight : Js.value
}.

(** [completeSet(workoutId, setData)] *)
Definition completeSet (workoutId : string) (setData : SetData) (now : Z)
  : M Workout :=
  do workout <- dbGetWorkout workoutId ;
  match workout with
  | None => throw WorkoutNotFoundOrNotActive
  | Some workout =>
      if negb (bool_decide (status workout = active))
      then throw WorkoutNotFoundOrNotActive
      else
        let idx := currentExerciseIndex workout in
        match Js.index (exercises workout) idx with
        | None => throw TypeError
        | Some currentExercise =>
            let completedSet :=
              {| setNumber := completedSets currentExercise + 1;
                 reps := Js.or_else (sd_reps setData) (targetReps currentExercise);
                 weight := Js.or_else (sd_weight setData) (targetWeight currentExercise);
                 completedAt := now |} in
            let currentExercise := push_set currentExercise completedSet in
            let exs := Js.set_index (exercises workout) idx currentExercise in
            let done := targetSets currentExercise <=? completedSets currentExercise in
            if done then
              let workout := set_progress workout (status workout) (idx + 1) 1 exs in
              if Z.of_nat (length (exercises workout)) <=? currentExerciseIndex workout
              then
                do _ <- finishWorkout workoutId now ;
                ret workout
              else
                do workout <- dbUpdateWorkout workout now ;
                do _ <- emit (setCompleted workoutId
                             (currentExerciseIndex workout - 1) completedSet) ;
                ret workout
            else
              let workout :=
                set_progress workout (status workout) idx (currentSet workout + 1) exs in
              do workout <- dbUpdateWorkout workout now ;
              do _ <- emit (setCompleted workoutId
                           (currentExerciseIndex workout - 0) completedSet) ;
              ret workout
        end
  end.

(** [pauseWorkout(workoutId)] *)
Definition pauseWorkout (workoutId : string) (now : Z) : M Workout :=
  do workout <- dbGetWorkout workoutId ;
  match workout with
  | None => throw WorkoutNotFoundOrNotActive
  | Some workout =>
      if negb (bool_decide (status workout = active))
      then throw WorkoutNotFoundOrNotActive
      else
        let workout := set_paused workout paused (Some now) in
        do workout <- dbUpdateWorkout workout now ;
        do _ <- emit (workoutPaused workout) ;
        ret workout
  end.

(** [resumeWorkout(workoutId)] *)
Definition resumeWorkout (workoutId : string) (now : Z) : M Workout :=
  do workout <- dbGetWorkout workoutId ;
  match workout with
  | None => throw WorkoutNotFoundOrNotPaused
  | Some workout =>
      if negb (bool_decide (status workout = paused))
      then throw WorkoutNotFoundOrNotPaused
      else
        let workout := set_paused workout active None in
        do workout <- dbUpdateWorkout workout now ;
        do _ <- emit (workoutResumed workout) ;
        ret workout
  end.

(** [getCurrentExercise(workout)] for a session object. *)
Definition getCurrentExercise (workout : Workout) : option ExerciseProgress :=
  if Z.of_nat (length (exercises workout)) <=? currentExerciseIndex workout
  then None
  else Js.index (exercises workout) (currentExerciseIndex workout).

(** [updateExerciseWeight(workoutId, exerciseIndex, newWeight)] *)
Definition updateExerciseWeight (workoutId : string) (exerciseIndex newWeight : Z)
    (now : Z) : M Workout :=
  do workout <- dbGetWorkout workoutId ;
  match workout with
  | None => throw WorkoutOrExerciseNotFound
  | Some workout =>
      match Js.index (exercises workout) exerciseIndex with
      | None => throw WorkoutOrExerciseNotFound
      | Some e =>
          let exs := Js.set_index (exercises workout) exerciseIndex
                       (set_targetWeight e newWeight) in
          let workout :=
            set_progress workout (status workout) (currentExerciseIndex workout)
              (currentSet workout) exs in
          do workout <- dbUpdateWorkout workout now ;
          do _ <- emit (exerciseWeightUpdated workoutId exerciseIndex newWeight) ;
          ret workout
      end
  end.

(** *** Validation *)

(** The data of an exercise as a form hands it over; a property may be
    missing. *)
Record ExerciseData : Type := {
  ed_name : option string;
  ed_sets : Js.value;
  ed_reps : Js.value;
  ed_weight : Js.value;
  ed_restTime : Js.value
}.

(** The data of a routine; its [exercises], when present, are an array. *)
Record RoutineData : Type := {
  rd_name : option string;
  rd_exercises : option (list ExerciseData)
}.

(** A validator returns, or throws an [Error] with a message. *)
Inductive Validation : Type :=
| passes
| throws (message : string).

(** [!name || name.trim().length === 0] *)
Definition name_missing (name : option string) : bool :=
  match name with
  | None => true
  | Some n =>
      (String.length n =? 0)%nat || (String.length (JsString.trim n) =? 0)%nat
  end.

(** [validateExerciseData(exerciseData, context = 'Exercise')] *)
Definition validateExerciseData (exerciseData : ExerciseData) (context : string)
  : Validation :=
  if name_missing (ed_name exerciseData)
  then throws (context +:+ ": name is required")
  else if Js.truthy (ed_sets exerciseData)
          && (Js.isNaN (ed_sets exerciseData) || Js.lt (ed_sets exerciseData) 1)
  then throws (context +:+ ": sets must be a positive number")
  else if Js.truthy (ed_reps exerciseData)
          && (Js.isNaN (ed_reps exerciseData) || Js.lt (ed_reps exerciseData) 1)
  then throws (context +:+ ": reps must be a positive number")
  else if Js.truthy (ed_weight exerciseData)
          && (Js.isNaN (ed_weight exerciseData) || Js.lt (ed_weight exerciseData) 0)
  then throws (context +:+ ": weight must be a non-negative number")
  else if Js.truthy (ed_restTime exerciseData)
          && (Js.isNaN (ed_restTime exerciseData)
              || Js.lt (ed_restTime exerciseData) 0)
  then throws (context +:+ ": rest time must be a non-negative number")
  else passes.

(** The [forEach] of [validateRoutineData], from position [index] on: the
    first exercise that is refused ends it. *)
Fixpoint validate_each (exercises : list ExerciseData) (index : Z) : Validation :=
  match exercises with
  | [] => passes
  | exercise :: rest =>
      match validateExerciseData exercise
              ("Exercise " +:+ JsString.toString (index + 1)) with
      | throws m => throws m
      | passes => validate_each rest (index + 1)
      end
  end.

(** [validateRoutineData(routineData)] *)
Definition validateRoutineData (routineData : RoutineData) : Validation :=
  if name_missing (rd_name routineData)
  then throws "Routine name is required"
  else match rd_exercises routineData with
       | None => passes
       | Some exercises => validate_each exercises 0
       end.

(** *** Calls, reachable worlds and the shape of a session *)

(** What the data model asks of one exercise of a session. *)
Definition exercise_ok (e : ExerciseProgress) : Prop :=
  completedSets e ≤ targetSets e ∧ Z.of_nat (length (sets e)) = completedSets e.

(** What the data model asks of a session. *)
Definition session_ok (w : Workout) : Prop :=
  0 ≤ currentExerciseIndex w ≤ Z.of_nat (length (exercises w)) ∧
  Forall exercise_ok (exercises w).

#[global] Instance exercise_ok_dec e : Decision (exercise_ok e).
Proof. unfold exercise_ok. apply _. Defined.

#[global] Instance session_ok_dec w : Decision (session_ok w).
Proof. unfold session_ok. apply _. Defined.

(** A stored session has room left in the current exercise and in every later
    one. *)
Definition pending_ok (w : Workout) : Prop :=
  ∀ j e, currentExerciseIndex w ≤ j → Js.index (exercises w) j = Some e →
         completedSets e < targetSets e.

Definition stored_ok (w : Workout) : Prop := session_ok w ∧ pending_ok w.

(** The store as the engine keeps it: every exercise definition asks for at
    least one set (the data model of the routines), and every session is
    [stored_ok]. *)
Definition store_ok (d : Database) : Prop :=
  Forall (λ e, 1 ≤ ex_sets e) (exerciseStore d) ∧
  map_Forall (λ _ s, stored_ok s) (workouts d).

(** A call of the engine with its arguments and the reading of the clock. *)
Inductive Call : Type :=
| CallStart (routineId newId : string) (now : Z)
| CallCompleteSet (workoutId : string) (setData : SetData) (now : Z)
| CallPause (workoutId : string) (now : Z)
| CallResume (workoutId : string) (now : Z)
| CallFinish (workoutId : string) (now : Z)
| CallUpdateWeight (workoutId : string) (exerciseIndex newWeight : Z) (now : Z).

Definition run (c : Call) : M Workout :=
  match c with
  | CallStart r k now => startWorkout r k now
  | CallCompleteSet k sd now => completeSet k sd now
  | CallPause k now => pauseWorkout k now
  | CallResume k now => resumeWorkout k now
  | CallFinish k now => finishWorkout k now
  | CallUpdateWeight k i x now => updateExerciseWeight k i x now
  end.

(** The worlds the engine reaches from [w0], whatever the calls and whether
    they succeed or throw. *)
Inductive reachable (w0 : World) : World → Prop :=
| reach_refl : reachable w0 w0
| reach_call w c : reachable w0 w → reachable w0 (run c w).1.

End WorkoutService.

(** ** The timer scheduler ([scripts/services/timer-service.js]) *)

(** A JavaScript [Map] with string keys: entries stay in insertion order,
    and [set] on a key that is present keeps its place. *)
Module JsMap.

Fixpoint get {V : Type} (k : string) (m : list (string * V)) : option V :=
  match m with
  | [] => None
  | (k', v) :: r => if String.eqb k' k then Some v else get k r
  end.

Fixpoint set {V : Type} (k : string) (v : V) (m : list (string * V))
  : list (string * V) :=
  match m with
  | [] => [(k, v)]
  | (k', v') :: r =>
      if String.eqb k' k then (k', v) :: r else (k', v') :: set k v r
  end.

Fixpoint delete {V : Type} (k : string) (m : list (string * V))
  : list (string * V) :=
  match m with
  | [] => []
  | (k', v') :: r => if String.eqb k' k then r else (k', v') :: delete k r
  end.

Definition has {V : Type} (k : string) (m : list (string * V)) : bool :=
  match get k m with
  | Some _ => true
  | None => false
  end.

End JsMap.

Module TimerService.

Inductive TimerType : Type := countdown | stopwatch.

Inductive TimerStatus : Type := running | paused.

#[global] Instance TimerType_eq_dec : EqDecision TimerType.
Proof. solve_decision. Defined.

#[global] Instance TimerStatus_eq_dec : EqDecision TimerStatus.
Proof. solve_decision. Defined.

(** A timer object.  The first seven fields are the ones [startCountdown]
    and [startStopwatch] write; the others are present only when an option,
    [pause], [startMainThreadTimer] or a restored snapshot put them there. *)
Record Timer : Type := {
  id : string;
  type : TimerType;
  duration : Z;
  remaining : Z;
  elapsed : Z;
  status : TimerStatus;
  startTime : Z;
  pausedTime : option Z;
  intervalId : option nat;
  name : option string;
  autoNotify : option bool;
  vibrate : option bool;
  sound : option bool;
  realElapsed : option Z
}.

(** An [options] object: any of the properties of a timer may be present,
    and those that are win over the defaults when the object is spread
    last. *)
Record Options : Type := {
  o_id : option string;
  o_type : option TimerType;
  o_duration : option Z;
  o_remaining : option Z;
  o_elapsed : option Z;
  o_status : option TimerStatus;
  o_startTime : option Z;
  o_pausedTime : option Z;
  o_intervalId : option nat;
  o_name : option string;
  o_autoNotify : option bool;
  o_vibrate : option bool;
  o_sound : option bool;
  o_realElapsed : option Z
}.

(** [{}] *)
Definition no_options : Options :=
  {| o_id := None; o_type := None; o_duration := None; o_remaining := None;
     o_elapsed := None; o_status := None; o_startTime := None;
     o_pausedTime := None; o_intervalId := None; o_name := None;
     o_autoNotify := None; o_vibrate := None; o_sound := None;
     o_realElapsed := None |}.

Definition or_default {A : Type} (o : option A) (d : A) : A :=
  match o with
  | Some a => a
  | None => d
  end.

Definition or_keep {A : Type} (o d : option A) : option A :=
  match o with
  | Some a => Some a
  | None => d
  end.

(** [{ ...t, ...o }] *)
Definition spread (t : Timer) (o : Options) : Timer :=
  {| id := or_default (o_id o) (id t);
     type := or_default (o_type o) (type t);
     duration := or_default (o_duration o) (duration t);
     remaining := or_default (o_remaining o) (remaining t);
     elapsed := or_default (o_elapsed o) (elapsed t);
     status := or_default (o_status o) (status t);
     startTime := or_default (o_startTime o) (startTime t);
     pausedTime := or_keep (o_pausedTime o) (pausedTime t);
     intervalId := or_keep (o_intervalId o) (intervalId t);
     name := or_keep (o_name o) (name t);
     autoNotify := or_keep (o_autoNotify o) (autoNotify t);
     vibrate := or_keep (o_vibrate o) (vibrate t);
     sound := or_keep (o_sound o) (sound t);
     realElapsed := or_keep (o_realElapsed o) (realElapsed t) |}.

(** A timer object read as an options object: all its properties are
    present. *)
Definition as_options (t : Timer) : Options :=
  {| o_id := Some (id t); o_type := Some (type t);
     o_duration := Some (duration t); o_remaining := Some (remaining t);
     o_elapsed := Some (elapsed t); o_status := Some (status t);
     o_startTime := Some (startTime t); o_pausedTime := pausedTime t;
     o_intervalId := intervalId t; o_name := name t;
     o_autoNotify := autoNotify t; o_vibrate := vibrate t;
     o_sound := sound t; o_realElapsed := realElapsed t |}.

(** [{ ...o, id: k }] *)
Definition with_id (o : Options) (k : string) : Options :=
  {| o_id := Some k; o_type := o_type o; o_duration := o_duration o;
     o_remaining := o_remaining o; o_elapsed := o_elapsed o;
     o_status := o_status o; o_startTime := o_startTime o;
     o_pausedTime := o_pausedTime o; o_intervalId := o_intervalId o;
     o_name := o_name o; o_autoNotify := o_autoNotify o;
     o_vibrate := o_vibrate o; o_sound := o_sound o;
     o_realElapsed := o_realElapsed o |}.

(** Assignments to single properties of a timer object. *)
Definition set_counts (t : Timer) (rem el : Z) : Timer :=
  {| id := id t; type := type t; duration := duration t; remaining := rem;
     elapsed := el; status := status t; startTime := startTime t;
     pausedTime := pausedTime t; intervalId := intervalId t; name := name t;
     autoNotify := autoNotify t; vibrate := vibrate t; sound := sound t;
     realElapsed := realElapsed t |}.

Definition set_intervalId (t : Timer) (i : option nat) : Timer :=
  {| id := id t; type := type t; duration := duration t;
     remaining := remaining t; elapsed := elapsed t; status := status t;
     startTime := startTime t; pausedTime := pausedTime t; intervalId := i;
     name := name t; autoNotify := autoNotify t; vibrate := vibrate t;
     sound := sound t; realElapsed := realElapsed t |}.

Definition set_status (t : Timer) (st : TimerStatus) (start : Z)
    (p : option Z) : Timer :=
  {| id := id t; type := type t; duration := duration t;
     remaining := remaining t; elapsed := elapsed t; status := st;
     startTime := start; pausedTime := p; intervalId := intervalId t;
     name := name t; autoNotify := autoNotify t; vibrate := vibrate t;
     sound := sound t; realElapsed := realElapsed t |}.

(** *** Events and listeners *)

Inductive Event : Type :=
| tick (timerId : string) (remaining elapsed : Z)
| complete (timerId : string)
| paused_event (timerId : string)      (* 'paused' *)
| resumed (timerId : string)
| stopped (timerId : string)
| restHalfway (timerId : string) (remaining : Z)
| restCountdown (timerId : string) (remaining : Z)
| restComplete (timerId : string).

(** What the outside observes: the events emitted, and the calls to the
    haptic and audio collaborators. *)
Inductive Output : Type :=
| Emitted (e : Event)
| NavigatorVibrate (pattern : list Z)
| NotificationSound.

(** The listeners the service registers on itself, with what their closures
    captured.  They only emit and notify; callbacks registered from outside
    observe the same outputs and are not modelled. *)
Inductive Listener : Type :=
| OnRestTick (timerId : string) (halfTime : Z) (vibrate : bool)
| OnRestComplete (timerId : string) (vibrate sound : bool).

(** [finalCountdown] of [setupRestNotifications] *)
Definition finalCountdown : Z := 10.

Definition buzz (vib canVibrate : bool) (pattern : list Z) : list Output :=
  if vib && canVibrate then [NavigatorVibrate pattern] else [].

(** The body of a listener, run on an event of the name it was registered
    for.  [canVibrate] is ['vibrate' in navigator]. *)
Definition react (canVibrate : bool) (l : Listener) (e : Event) : list Output :=
  match l, e with
  | OnRestTick timerId halfTime vib, tick k rem _ =>
      if negb (String.eqb k timerId) then []
      else
        (if (rem =? halfTime) && (finalCountdown <? halfTime)
         then Emitted (restHalfway timerId rem) :: buzz vib canVibrate [100]
         else [])
        ++
        (if (rem <=? finalCountdown) && (0 <? rem)
         then Emitted (restCountdown timerId rem) :: buzz vib canVibrate [50]
         else [])
  | OnRestComplete timerId vib snd, complete k =>
      if negb (String.eqb k timerId) then []
      else
        Emitted (restComplete timerId)
        :: buzz vib canVibrate [200; 100; 200]
        ++ (if snd then [NotificationSound] else [])
  | _, _ => []
  end.

(** *** The worker script *)

(** A timer as the worker script holds it. *)
Record WorkerTimer : Type := {
  w_type : TimerType;
  w_duration : Z;
  w_remaining : Z;
  w_elapsed : Z;
  w_active : bool
}.

(** Messages posted to the worker. *)
Inductive Action : Type :=
| start (timerId : string) (type : TimerType) (duration : Z)
| pause_action (timerId : string)      (* action: 'pause' *)
| resume_action (timerId : string)     (* action: 'resume' *)
| stop_action (timerId : string).      (* action: 'stop' *)

(** Messages the worker posts back. *)
Inductive WorkerMessage : Type :=
| tick_message (timerId : string) (remaining elapsed : Z)
| complete_message (timerId : string).

(** The worker: its [timers] map, the [updateTimer] calls it has scheduled
    with [setTimeout] (all with the same delay, so they run in the order
    they were scheduled), and both message queues. *)
Record Worker : Type := {
  timers : list (string * WorkerTimer);
  scheduled : list string;
  inbox : list Action;
  outbox : list WorkerMessage
}.

Definition new_worker : Worker :=
  {| timers := []; scheduled := []; inbox := []; outbox := [] |}.

Definition w_set_counts (t : WorkerTimer) (rem el : Z) : WorkerTimer :=
  {| w_type := w_type t; w_duration := w_duration t; w_remaining := rem;
     w_elapsed := el; w_active := w_active t |}.

Definition w_set_active (t : WorkerTimer) (b : bool) : WorkerTimer :=
  {| w_type := w_type t; w_duration := w_duration t;
     w_remaining := w_remaining t; w_elapsed := w_elapsed t; w_active := b |}.

(** [updateTimer(timerId)] of the worker script. *)
Definition worker_updateTimer (timerId : string) (w : Worker) : Worker :=
  match JsMap.get timerId (timers w) with
  | None => w
  | Some timer =>
      match w_type timer with
      | countdown =>
          let timer := w_set_counts timer (w_remaining timer - 1) (w_elapsed timer) in
          let posted :=
            [tick_message timerId (w_remaining timer)
               (w_duration timer - w_remaining timer)] in
          if w_remaining timer <=? 0 then
            {| timers := JsMap.delete timerId (timers w);
               scheduled := scheduled w; inbox := inbox w;
               outbox := outbox w ++ posted ++ [complete_message timerId] |}
          else
            {| timers := JsMap.set timerId timer (timers w);
               scheduled := scheduled w ++ [timerId]; inbox := inbox w;
               outbox := outbox w ++ posted |}
      | stopwatch =>
          let timer := w_set_counts timer (w_remaining timer) (w_elapsed timer + 1) in
          {| timers := JsMap.set timerId timer (timers w);
             scheduled := scheduled w ++ [timerId]; inbox := inbox w;
             outbox := outbox w ++ [tick_message timerId 0 (w_elapsed timer)] |}
      end
  end.

Definition worker_with_timers (w : Worker) (ts : list (string * WorkerTimer))
  : Worker :=
  {| timers := ts; scheduled := scheduled w; inbox := inbox w;
     outbox := outbox w |}.

(** [self.onmessage] of the worker script. *)
Definition worker_onmessage (a : Action) (w : Worker) : Worker :=
  match a with
  | start timerId type duration =>
      let timer :=
        {| w_type := type; w_duration := duration;
           w_remaining := match type with countdown => duration | stopwatch => 0 end;
           w_elapsed := 0; w_active := true |} in
      worker_updateTimer timerId
        (worker_with_timers w (JsMap.set timerId timer (timers w)))
  | pause_action timerId =>
      match JsMap.get timerId (timers w) with
      | Some timer =>
          worker_with_timers w
            (JsMap.set timerId (w_set_active timer false) (timers w))
      | None => w
      end
  | resume_action timerId =>
      match JsMap.get timerId (timers w) with
      | Some timer =>
          worker_updateTimer timerId
            (worker_with_timers w
               (JsMap.set timerId (w_set_active timer true) (timers w)))
      | None => w
      end
  | stop_action timerId =>
      worker_with_timers w (JsMap.delete timerId (timers w))
  end.

(** *** The service *)

(** The service object and its surroundings: the listeners in the order
    they subscribed; [activeTimers], a map from ids to timer objects, the
    objects living in [heap] so that a callback which captured one keeps
    seeing it; the worker, if there is one; the callbacks scheduled with
    [setTimeout] on the main thread, each with the timer object it
    captured, in the order they will run; and the outputs so far. *)
Record Service : Type := {
  listeners : list Listener;
  activeTimers : list (string * nat);
  heap : list Timer;
  worker : option Worker;
  isWorkerSupported : bool;
  nextTimerId : Z;
  timeouts : list (nat * nat);
  nextTimeout : nat;
  canVibrate : bool;
  trace : list Output
}.

(** [new TimerService()].  [workerAvailable] says whether a [Worker] can be
    created. *)
Definition create (workerAvailable canVibrate : bool) : Service :=
  {| listeners := []; activeTimers := []; heap := [];
     worker := if workerAvailable then Some new_worker else None;
     isWorkerSupported := workerAvailable; nextTimerId := 1;
     timeouts := []; nextTimeout := 1%nat; canVibrate := canVibrate;
     trace := [] |}.

(** Updates of single fields of the service. *)
Definition set_trace (s : Service) (x : list Output) : Service :=
  {| listeners := listeners s; activeTimers := activeTimers s; heap := heap s;
     worker := worker s; isWorkerSupported := isWorkerSupported s;
     nextTimerId := nextTimerId s; timeouts := timeouts s;
     nextTimeout := nextTimeout s; canVibrate := canVibrate s; trace := x |}.

Definition set_listeners (s : Service) (x : list Listener) : Service :=
  {| listeners := x; activeTimers := activeTimers s; heap := heap s;
     worker := worker s; isWorkerSupported := isWorkerSupported s;
     nextTimerId := nextTimerId s; timeouts := timeouts s;
     nextTimeout := nextTimeout s; canVibrate := canVibrate s;
     trace := trace s |}.

Definition set_activeTimers (s : Service) (x : list (string * nat)) : Service :=
  {| listeners := listeners s; activeTimers := x; heap := heap s;
     worker := worker s; isWorkerSupported := isWorkerSupported s;
     nextTimerId := nextTimerId s; timeouts := timeouts s;
     nextTimeout := nextTimeout s; canVibrate := canVibrate s;
     trace := trace s |}.

Definition set_heap (s : Service) (x : list Timer) : Service :=
  {| listeners := listeners s; activeTimers := activeTimers s; heap := x;
     worker := worker s; isWorkerSupported := isWorkerSupported s;
     nextTimerId := nextTimerId s; timeouts := timeouts s;
     nextTimeout := nextTimeout s; canVibrate := canVibrate s;
     trace := trace s |}.

Definition set_worker (s : Service) (x : option Worker) (supported : bool)
  : Service :=
  {| listeners := listeners s; activeTimers := activeTimers s; heap := heap s;
     worker := x; isWorkerSupported := supported;
     nextTimerId := nextTimerId s; timeouts := timeouts s;
     nextTimeout := nextTimeout s; canVibrate := canVibrate s;
     trace := trace s |}.

Definition set_nextTimerId (s : Service) (x : Z) : Service :=
  {| listeners := listeners s; activeTimers := activeTimers s; heap := heap s;
     worker := worker s; isWorkerSupported := isWorkerSupported s;
     nextTimerId := x; timeouts := timeouts s;
     nextTimeout := nextTimeout s; canVibrate := canVibrate s;
     trace := trace s |}.

Definition set_timeouts (s : Service) (x : list (nat * nat)) (next : nat)
  : Service :=
  {| listeners := listeners s; activeTimers := activeTimers s; heap := heap s;
     worker := worker s; isWorkerSupported := isWorkerSupported s;
     nextTimerId := nextTimerId s; timeouts := x;
     nextTimeout := next; canVibrate := canVibrate s; trace := trace s |}.

(** [this.emit(event, ...args)]: the event, then what each listener does
    with it, in subscription order. *)
Definition emit (e : Event) (s : Service) : Service :=
  set_trace s
    (trace s ++ Emitted e :: flat_map (λ l, react (canVibrate s) l e) (listeners s)).

(** [this.on(event, callback)] for the listeners of the service. *)
Definition on (l : Listener) (s : Service) : Service :=
  set_listeners s (listeners s ++ [l]).

(** A timer object of [activeTimers]. *)
Definition lookup_timer (timerId : string) (s : Service) : option (nat * Timer) :=
  match JsMap.get timerId (activeTimers s) with
  | Some r => match heap s !! r with
              | Some t => Some (r, t)
              | None => None
              end
  | None => None
  end.

(** An assignment to the object at [r]. *)
Definition store (r : nat) (t : Timer) (s : Service) : Service :=
  set_heap s (<[r := t]> (heap s)).

(** [this.isWorkerSupported && this.worker] *)
Definition delegated (s : Service) : option Worker :=
  if isWorkerSupported s then worker s else None.

(** [this.worker.postMessage(a)] *)
Definition postMessage (a : Action) (s : Service) : Service :=
  match worker s with
  | Some w =>
      set_worker s
        (Some {| timers := timers w; scheduled := scheduled w;
                 inbox := inbox w ++ [a]; outbox := outbox w |})
        (isWorkerSupported s)
  | None => s
  end.

(** [clearTimeout(i)] *)
Definition clearTimeout (i : nat) (s : Service) : Service :=
  set_timeouts s (filter (λ p, p.1 ≠ i) (timeouts s)) (nextTimeout s).

(** [generateTimerId()] *)
Definition generateTimerId (now : Z) (s : Service) : Service * string :=
  (set_nextTimerId s (nextTimerId s + 1),
   "timer_" +:+ JsString.toString (nextTimerId s) +:+ "_" +:+ JsString.toString now).

(** [handleWorkerMessage(data)] *)
Definition handleWorkerMessage (m : WorkerMessage) (s : Service) : Service :=
  match m with
  | tick_message timerId rem el =>
      match lookup_timer timerId s with
      | None => s
      | Some (r, timer) =>
          emit (tick timerId rem el) (store r (set_counts timer rem el) s)
      end
  | complete_message timerId =>
      match lookup_timer timerId s with
      | None => s
      | Some _ =>
          let s := emit (complete timerId) s in
          set_activeTimers s (JsMap.delete timerId (activeTimers s))
      end
  end.

(** [fallbackToMainThread()] *)
Definition fallbackToMainThread (s : Service) : Service :=
  set_worker s None false.

(** [timer.intervalId = setTimeout(updateTimer, 1000)] for the timer object
    at [r]. *)
Definition schedule (r : nat) (s : Service) : Service :=
  match heap s !! r with
  | None => s
  | Some timer =>
      let i := nextTimeout s in
      store r (set_intervalId timer (Some i))
        (set_timeouts s (timeouts s ++ [(i, r)]) (S i))
  end.

(** [startMainThreadTimer(timer)] *)
Definition startMainThreadTimer (r : nat) (s : Service) : Service :=
  schedule r s.

(** The callback [updateTimer] of [startMainThreadTimer], for the timer
    object at [r], when its timeout fires. *)
Definition updateTimer (r : nat) (s : Service) : Service :=
  match heap s !! r with
  | None => s
  | Some timer =>
      if negb (JsMap.has (id timer) (activeTimers s))
         || negb (bool_decide (status timer = running))
      then s
      else
        match type timer with
        | countdown =>
            let rem := remaining timer - 1 in
            let timer := set_counts timer rem (duration timer - rem) in
            let s := store r timer s in
            let s := emit (tick (id timer) (remaining timer) (elapsed timer)) s in
            if remaining timer <=? 0 then
              let s := emit (complete (id timer)) s in
              set_activeTimers s (JsMap.delete (id timer) (activeTimers s))
            else schedule r s
        | stopwatch =>
            let timer := set_counts timer (remaining timer) (elapsed timer + 1) in
            let s := store r timer s in
            let s := emit (tick (id timer) 0 (elapsed timer)) s in
            schedule r s
        end
  end.

(** The part [startCountdown] and [startStopwatch] share: register the
    object and start ticking with the strategy in use. *)
Definition launch (timerId : string) (timer : Timer) (ty : TimerType)
    (d : Z) (s : Service) : Service :=
  let r := length (heap s) in
  let s := set_heap s (heap s ++ [timer]) in
  let s := set_activeTimers s (JsMap.set timerId r (activeTimers s)) in
  match delegated s with
  | Some _ => postMessage (start timerId ty d) s
  | None => startMainThreadTimer r s
  end.

(** [startCountdown(duration, options)] *)
Definition startCountdown (d : Z) (options : Options) (now : Z) (s : Service)
  : Service * string :=
  let '(s, timerId) := generateTimerId now s in
  let timer :=
    spread {| id := timerId; type := countdown; duration := d; remaining := d;
              elapsed := 0; status := running; startTime := now;
              pausedTime := None; intervalId := None; name := None;
              autoNotify := None; vibrate := None; sound := None;
              realElapsed := None |} options in
  (launch timerId timer countdown d s, timerId).

(** [startStopwatch(options)] *)
Definition startStopwatch (options : Options) (now : Z) (s : Service)
  : Service * string :=
  let '(s, timerId) := generateTimerId now s in
  let timer :=
    spread {| id := timerId; type := stopwatch; duration := 0; remaining := 0;
              elapsed := 0; status := running; startTime := now;
              pausedTime := None; intervalId := None; name := None;
              autoNotify := None; vibrate := None; sound := None;
              realElapsed := None |} options in
  (launch timerId timer stopwatch 0 s, timerId).

(** [pause(timerId)] *)
Definition pause (timerId : string) (now : Z) (s : Service) : Service * bool :=
  match lookup_timer timerId s with
  | None => (s, false)
  | Some (r, timer) =>
      if negb (bool_decide (status timer = running)) then (s, false)
      else
        let timer := set_status timer paused (startTime timer) (Some now) in
        let s := store r timer s in
        let s :=
          match delegated s with
          | Some _ => postMessage (pause_action timerId) s
          | None =>
              match intervalId timer with
              | Some (S i) =>
                  store r (set_intervalId timer None) (clearTimeout (S i) s)
              | _ => s
              end
          end in
        (emit (paused_event timerId) s, true)
  end.

(** [resume(timerId)] *)
Definition resume (timerId : string) (now : Z) (s : Service) : Service * bool :=
  match lookup_timer timerId s with
  | None => (s, false)
  | Some (r, timer) =>
      if negb (bool_decide (status timer = paused)) then (s, false)
      else
        let timer :=
          match pausedTime timer with
          | Some p =>
              if p =? 0 then set_status timer running (startTime timer) (Some p)
              else set_status timer running (startTime timer + (now - p)) None
          | None => set_status timer running (startTime timer) None
          end in
        let s := store r timer s in
        let s :=
          match delegated s with
          | Some _ => postMessage (resume_action timerId) s
          | None => startMainThreadTimer r s
          end in
        (emit (resumed timerId) s, true)
  end.

(** [stop(timerId)] *)
Definition stop (timerId : string) (s : Service) : Service * bool :=
  match lookup_timer timerId s with
  | None => (s, false)
  | Some (r, timer) =>
      let s :=
        match delegated s with
        | Some _ => postMessage (stop_action timerId) s
        | None =>
            match intervalId timer with
            | Some (S i) => clearTimeout (S i) s
            | _ => s
            end
        end in
      let s := set_activeTimers s (JsMap.delete timerId (activeTimers s)) in
      (emit (stopped timerId) s, true)
  end.

(** [stopAll()] *)
Definition stopAll (s : Service) : Service :=
  fold_left (λ s k, (stop k s).1) (map fst (activeTimers s)) s.

(** [getTimer(timerId)] *)
Definition getTimer (timerId : string) (s : Service) : option Timer :=
  snd <$> lookup_timer timerId s.

(** [getActiveTimers()] *)
Definition getActiveTimers (s : Service) : list Timer :=
  omap (λ p, heap s !! p.2) (activeTimers s).

(** [setupRestNotifications(timerId, duration, options)] *)
Definition setupRestNotifications (timerId : string) (d : Z) (options : Options)
    (s : Service) : Service :=
  let halfTime := d / 2 in
  let vib := or_default (o_vibrate options) false in
  let s := on (OnRestTick timerId halfTime vib) s in
  on (OnRestComplete timerId vib (or_default (o_sound options) false)) s.

(** [{ ...defaultOptions, ...options }] of [startRestTimer] *)
Definition rest_options (options : Options) : Options :=
  {| o_id := o_id options; o_type := o_type options;
     o_duration := o_duration options; o_remaining := o_remaining options;
     o_elapsed := o_elapsed options; o_status := o_status options;
     o_startTime := o_startTime options; o_pausedTime := o_pausedTime options;
     o_intervalId := o_intervalId options;
     o_name := or_keep (o_name options) (Some "Rest Timer");
     o_autoNotify := or_keep (o_autoNotify options) (Some true);
     o_vibrate := or_keep (o_vibrate options) (Some true);
     o_sound := or_keep (o_sound options) (Some false);
     o_realElapsed := o_realElapsed options |}.

(** [startRestTimer(duration, options)] *)
Definition startRestTimer (d : Z) (options : Options) (now : Z) (s : Service)
  : Service * string :=
  let timerOptions := rest_options options in
  let '(s, timerId) := startCountdown d timerOptions now s in
  if or_default (o_autoNotify timerOptions) false
  then (setupRestNotifications timerId d timerOptions s, timerId)
  else (s, timerId).

(** The snapshot [saveState] returns: for every active timer its properties
    and [realElapsed], and the instant the snapshot was taken. *)
Record State : Type := {
  saved : list (string * (Timer * Z));
  timestamp : Z
}.

(** [saveState()] *)
Definition saveState (now : Z) (s : Service) : State :=
  {| saved :=
       omap (λ p, match heap s !! p.2 with
                  | Some timer => Some (p.1, (timer, (now - startTime timer) / 1000))
                  | None => None
                  end) (activeTimers s);
     timestamp := now |}.

(** The body of the loop of [restoreState] for one entry. *)
Definition restore_entry (timeLapsed : Z) (now : Z) (s : Service)
    (entry : string * (Timer * Z)) : Service :=
  let '(timerId, (timerData, real)) := entry in
  if bool_decide (status timerData = running) then
    let adjustedElapsed := real + timeLapsed in
    let snapshot :=
      as_options
        {| id := id timerData; type := type timerData;
           duration := duration timerData; remaining := remaining timerData;
           elapsed := elapsed timerData; status := status timerData;
           startTime := startTime timerData; pausedTime := pausedTime timerData;
           intervalId := intervalId timerData; name := name timerData;
           autoNotify := autoNotify timerData; vibrate := vibrate timerData;
           sound := sound timerData; realElapsed := Some real |} in
    match type timerData with
    | countdown =>
        let rem := duration timerData - adjustedElapsed in
        if 0 <? rem
        then (startCountdown rem (with_id snapshot timerId) now s).1
        else emit (complete timerId) s
    | stopwatch =>
        let '(s, newTimerId) := startStopwatch snapshot now s in
        match lookup_timer newTimerId s with
        | Some (r, restoredTimer) =>
            store r (set_counts restoredTimer (remaining restoredTimer)
                       adjustedElapsed) s
        | None => s
        end
    end
  else s.

(** [restoreState(state)] *)
Definition restoreState (state : option State) (now : Z) (s : Service) : Service :=
  match state with
  | None => s
  | Some state =>
      let timeLapsed := (now - timestamp state) / 1000 in
      fold_left (restore_entry timeLapsed now) (saved state) s
  end.

(** *** Formatting and parsing times *)

Definition pad2 (n : Z) : string :=
  JsString.padStart 2 "0" (JsString.number_toString n).

(** [formatTime(seconds, includeHours = false)].  [%] is exact and takes the
    sign of the dividend, as [Z.rem] does; a remainder is below [3600], so
    [Math.floor] of its quotient is [/]. *)
Definition formatTime (seconds : Z) (includeHours : bool) : string :=
  let hours := Js.floor_div seconds 3600 in
  let minutes := Z.rem seconds 3600 / 60 in
  let secs := Z.rem seconds 60 in
  if includeHours || (0 <? hours)
  then pad2 hours +:+ ":" +:+ pad2 minutes +:+ ":" +:+ pad2 secs
  else pad2 minutes +:+ ":" +:+ pad2 secs.

(** [parseTime(timeString)] *)
Definition parseTime (timeString : string) : Js.num :=
  match map JsString.parseInt (JsString.split ":" timeString) with
  | [m; sec] => JsString.add (JsString.mul m (Js.Num 60)) sec
  | [h; m; sec] =>
      JsString.add
        (JsString.add (JsString.mul h (Js.Num 3600)) (JsString.mul m (Js.Num 60)))
        sec
  | _ => Js.Num 0
  end.

(** *** The event loop *)

(** One turn of the event loop, if anything is due: a message waiting for
    the worker, else a message waiting for the page, else the oldest
    callback the worker scheduled, else the oldest callback the page
    scheduled. *)
Definition main_step (s : Service) : option Service :=
  match timeouts s with
  | (_, r) :: rest => Some (updateTimer r (set_timeouts s rest (nextTimeout s)))
  | [] => None
  end.

Definition step (s : Service) : option Service :=
  match worker s with
  | None => main_step s
  | Some w =>
      match inbox w, outbox w, scheduled w with
      | a :: rest, _, _ =>
          Some (set_worker s
                  (Some (worker_onmessage a
                           {| timers := timers w; scheduled := scheduled w;
                              inbox := rest; outbox := outbox w |}))
                  (isWorkerSupported s))
      | [], m :: rest, _ =>
          Some (handleWorkerMessage m
                  (set_worker s
                     (Some {| timers := timers w; scheduled := scheduled w;
                              inbox := []; outbox := rest |})
                     (isWorkerSupported s)))
      | [], [], k :: rest =>
          Some (set_worker s
                  (Some (worker_updateTimer k
                           {| timers := timers w; scheduled := rest;
                              inbox := []; outbox := [] |}))
                  (isWorkerSupported s))
      | [], [], [] => main_step s
      end
  end.

(** At most [n] turns of the event loop. *)
Fixpoint run (n : nat) (s : Service) : Service :=
  match n with
  | O => s
  | S n' => match step s with
            | Some s' => run n' s'
            | None => s
            end
  end.

(** Nothing is due. *)
Definition idle (s : Service) : Prop := step s = None.

(** The events of an output trace. *)
Definition events (tr : list Output) : list Event :=
  omap (λ o, match o with Emitted e => Some e | _ => None end) tr.

(** *** What a countdown is expected to put out *)

(** The outputs of one [emit]: the event and the reactions of the
    listeners. *)
Definition emitted (cv : bool) (ls : list Listener) (e : Event) : list Output :=
  Emitted e :: flat_map (λ l, react cv l e) ls.

(** The outputs of a countdown of [d] seconds for timer [k] that has [n]
    seconds left: a tick for each of [n-1], ..., [0] seconds remaining, then
    [complete]. *)
Fixpoint countdown_outputs (cv : bool) (ls : list Listener) (k : string) (d : Z)
    (n : nat) : list Output :=
  match n with
  | O => emitted cv ls (complete k)
  | S m => emitted cv ls (tick k (Z.of_nat m) (d - Z.of_nat m))
           ++ countdown_outputs cv ls k d m
  end.

(** The same without listeners, as events. *)
Fixpoint countdown_events (k : string) (d : Z) (n : nat) : list Event :=
  match n with
  | O => [complete k]
  | S m => tick k (Z.of_nat m) (d - Z.of_nat m) :: countdown_events k d m
  end.


(** Nothing is scheduled and no message is under way. *)
Definition quiet (s : Service) : Prop :=
  timeouts s = [] ∧
  match worker s with
  | None => True
  | Some w =>
      isWorkerSupported s = true ∧ inbox w = [] ∧ outbox w = [] ∧ scheduled w = []
  end.

(** The worker right after [updateTimer] brought timer [k] down to [n]
    seconds. *)
Definition after_update (w : Worker) (k : string) (d : Z) (n : nat) : Prop :=
  inbox w = [] ∧
  outbox w = tick_message k (Z.of_nat n) (d - Z.of_nat n)
             :: match n with O => [complete_message k] | S _ => [] end ∧
  scheduled w = match n with O => [] | S _ => [k] end ∧
  match n with
  | O => True
  | S _ => ∃ wt, JsMap.get k (timers w) = Some wt ∧ w_type wt = countdown ∧
                 w_remaining wt = Z.of_nat n ∧ w_duration wt = d
  end.

(** Options that leave the properties a countdown is driven by to
    [startCountdown]. *)
Definition plain (o : Options) : Prop :=
  o_id o = None ∧ o_type o = None ∧ o_duration o = None ∧
  o_remaining o = None ∧ o_elapsed o = None ∧ o_status o = None.

End TimerService.

(** ** Concrete sessions used to exercise the engine *)

Module Scenario.
Import Store WorkoutService.

(** A routine of two exercises with two sets each. *)
Definition legs_day : Database :=
  {| routines := {[ "r1" := {| r_id := "r1"; r_name := "Legs"; r_description := "" |} ]};
     exerciseStore :=
       [ {| ex_id := "e1"; ex_name := "Squat"; ex_routineId := "r1"; ex_sets := 2;
            ex_reps := 10; ex_weight := 50; ex_restTime := 60; ex_notes := "" |};
         {| ex_id := "e2"; ex_name := "Lunge"; ex_routineId := "r1"; ex_sets := 2;
            ex_reps := 8; ex_weight := 20; ex_restTime := 45; ex_notes := "" |} ];
     workouts := ∅ |}.

Definition as_target : SetData := {| sd_reps := None; sd_weight := None |}.

(** A routine whose first exercise asks for no set. *)
Definition no_set_day : Database :=
  {| routines := {[ "r1" := {| r_id := "r1"; r_name := "Legs"; r_description := "" |} ]};
     exerciseStore :=
       [ {| ex_id := "e1"; ex_name := "Squat"; ex_routineId := "r1"; ex_sets := 0;
            ex_reps := 10; ex_weight := 50; ex_restTime := 60; ex_notes := "" |};
         {| ex_id := "e2"; ex_name := "Lunge"; ex_routineId := "r1"; ex_sets := 2;
            ex_reps := 8; ex_weight := 20; ex_restTime := 45; ex_notes := "" |} ];
     workouts := ∅ |}.

(** A session started from it, with one set recorded. *)
Definition one_set_done : World :=
  let w1 := (startWorkout "r1" "w1" 1000 {| db := no_set_day; emitted := [] |}).1 in
  (completeSet "w1" as_target 2000 w1).1.

(** A set reported with zero repetitions and zero weight. *)
Definition zero_set : SetData :=
  {| sd_reps := Some (Js.Num 0); sd_weight := Some (Js.Num 0) |}.

Definition started : World :=
  (startWorkout "r1" "w1" 1000 {| db := legs_day; emitted := [] |}).1.

(** A session finished once, four seconds after it started. *)
Definition finished_once : World :=
  let w1 := (startWorkout "r1" "w1" 1000 {| db := legs_day; emitted := [] |}).1 in
  (finishWorkout "w1" 5000 w1).1.

(** An exercise entered with zero sets and zero repetitions. *)
Definition zero_sets_exercise : ExerciseData :=
  {| ed_name := Some "Squat"; ed_sets := Some (Js.Num 0);
     ed_reps := Some (Js.Num 0); ed_weight := Some (Js.Num 20);
     ed_restTime := Some (Js.Num 60) |}.

End Scenario.

(** ** Concrete timers used to exercise the scheduler *)

Module TimerScenario.
Import TimerService.





(** A countdown of three seconds on a fresh scheduler, followed until its
    first tick has been emitted, and then paused. *)
Definition first_tick (workerAvailable : bool) : Service * string :=
  let '(s, k) := startCountdown 3 no_options 1700000000000
                   (create workerAvailable false) in
  (run (if workerAvailable then 2 else 1) s, k).

Definition paused_after_first_tick (workerAvailable : bool) : Service * bool :=
  let '(s, k) := first_tick workerAvailable in
  pause k 1700000001500 s.

Definition stopped_after_first_tick (workerAvailable : bool) : Service * bool :=
  let '(s, k) := first_tick workerAvailable in
  stop k s.

(** A countdown of 30 seconds started at second 1000 and saved at second
    1020, when 10 seconds remain. *)
Definition saved_at_10 (workerAvailable : bool) : State :=
  let '(s, k) := startCountdown 30 no_options 1000000
                   (create workerAvailable false) in
  saveState 1020000 (run (if workerAvailable then 41 else 20) s).

End TimerScenario.

(** ** The order in which a session advances, and [getWorkoutProgress] *)

Module SessionShape.
Import Store WorkoutService.

(** The session a call is about: the one it creates or the one it names. *)
Definition subject (c : Call) : string :=
  match c with
  | CallStart _ newId _ => newId
  | CallCompleteSet workoutId _ _ => workoutId
  | CallPause workoutId _ => workoutId
  | CallResume workoutId _ => workoutId
  | CallFinish workoutId _ => workoutId
  | CallUpdateWeight workoutId _ _ _ => workoutId
  end.

(** Every session is stored under its own [id]. *)
Definition keyed (d : Database) : Prop :=
  map_Forall (λ k s, id s = k) (workouts d).

(** The sets of an exercise carry the numbers 1, 2, ... in the order in which
    they were recorded. *)
Definition numbered (e : ExerciseProgress) : Prop :=
  ∀ (i : nat) c, sets e !! i = Some c → setNumber c = Z.of_nat i + 1.

(** A session that goes through its exercises in order: the exercises before
    the current one are complete, the current one has room left and
    [currentSet] is the number of its next set, and the later ones have not
    been begun.  It stands at an exercise unless it has none. *)
Definition in_order (w : Workout) : Prop :=
  (0 ≤ currentExerciseIndex w < Z.of_nat (length (exercises w))
   ∨ (currentExerciseIndex w = 0 ∧ exercises w = [])) ∧
  ∀ j e, Js.index (exercises w) j = Some e →
    numbered e ∧ 1 ≤ targetSets e ∧
    (j < currentExerciseIndex w → completedSets e = targetSets e) ∧
    (j = currentExerciseIndex w →
       completedSets e < targetSets e ∧ currentSet w = completedSets e + 1) ∧
    (currentExerciseIndex w < j → completedSets e = 0 ∧ sets e = []).

(** The world a call leaves when it stores [s'] under [wid] and emits [e]. *)
Definition stored_and_emitted (w : World) (wid : string) (s' : Workout) (e : Event)
  : World :=
  {| db := with_workouts (db w) (<[wid := s']> (workouts (db w)));
     emitted := emitted w ++ [e] |}.

(** The object [getWorkoutProgress] returns. *)
Record Progress : Type := {
  p_totalExercises : Z;
  p_completedExercises : Z;
  p_currentExercise : Z;
  p_totalSets : Z;
  p_completedSets : Z;
  p_percentageComplete : Z
}.

(** [getWorkoutProgress(workout)], for [null] or a session object.
    [percentage completedSets totalSets] stands for
    [Math.round((completedSets / totalSets) * 100)], which the code computes
    in double precision; its value is left open. *)
Definition getWorkoutProgress (percentage : Z → Z → Z) (workout : option Workout)
  : Progress :=
  match workout with
  | None =>
      {| p_totalExercises := 0; p_completedExercises := 0; p_currentExercise := 0;
         p_totalSets := 0; p_completedSets := 0; p_percentageComplete := 0 |}
  | Some workout =>
      let totalExercises := Z.of_nat (length (exercises workout)) in
      let completedExercises :=
        Z.of_nat (length (List.filter (λ ex, targetSets ex <=? completedSets ex)
                            (exercises workout))) in
      let totalSets :=
        fold_left (λ sum ex, sum + targetSets ex) (exercises workout) 0 in
      let completedSets :=
        fold_left (λ sum ex, sum + completedSets ex) (exercises workout) 0 in
      let percentageComplete :=
        if 0 <? totalSets then percentage completedSets totalSets else 0 in
      {| p_totalExercises := totalExercises;
         p_completedExercises := completedExercises;
         p_currentExercise := currentExerciseIndex workout + 1;
         p_totalSets := totalSets;
         p_completedSets := completedSets;
         p_percentageComplete := percentageComplete |}
  end.

End SessionShape.

(** ** Schedulers in use: requests, ids and what a stopwatch puts out *)

Module TimerShape.
Import TimerService.


(** What can happen to a scheduler: a call of its interface, with the reading
    of the clock where it takes one, an error of the worker, or a turn of the
    event loop. *)
Inductive Request : Type :=
| StartCountdown (d : Z) (o : Options) (now : Z)
| StartStopwatch (o : Options) (now : Z)
| StartRestTimer (d : Z) (o : Options) (now : Z)
| Pause (timerId : string) (now : Z)
| Resume (timerId : string) (now : Z)
| Stop (timerId : string)
| StopAll
| RestoreState (state : option State) (now : Z)
| WorkerError
| Turn.

Definition perform (q : Request) (s : Service) : Service :=
  match q with
  | StartCountdown d o now => (startCountdown d o now s).1
  | StartStopwatch o now => (startStopwatch o now s).1
  | StartRestTimer d o now => (startRestTimer d o now s).1
  | Pause k now => (pause k now s).1
  | Resume k now => (resume k now s).1
  | Stop k => (stop k s).1
  | StopAll => stopAll s
  | RestoreState state now => restoreState state now s
  | WorkerError => fallbackToMainThread s
  | Turn => default s (step s)
  end.

(** The schedulers reached from [s0]. *)
Inductive reaches (s0 : Service) : Service → Prop :=
| reaches_refl : reaches s0 s0
| reaches_perform s q : reaches s0 s → reaches s0 (perform q s).

(** An id that [generateTimerId] made while its counter was below [next]. *)
Definition issued_below (next : Z) (k : string) : Prop :=
  ∃ n t, 1 ≤ n < next ∧
         k = "timer_" +:+ JsString.toString n +:+ "_" +:+ JsString.toString t.

(** The active timers are in order: no id occurs twice, every id was made
    by [generateTimerId], and every timer object exists. *)
Definition well_kept (s : Service) : Prop :=
  1 ≤ nextTimerId s ∧
  NoDup (map fst (activeTimers s)) ∧
  Forall (λ p, issued_below (nextTimerId s) p.1 ∧ (p.2 < length (heap s))%nat)
    (activeTimers s).

(** [s'] has the timer objects and the id counter of [s], and its active
    timers, or all but one of them. *)
Definition shrinks (s s' : Service) : Prop :=
  length (heap s') = length (heap s) ∧ nextTimerId s' = nextTimerId s ∧
  (activeTimers s' = activeTimers s
   ∨ ∃ k, activeTimers s' = JsMap.delete k (activeTimers s)).

(** [s'] has one timer object more than [s], registered under the id made
    from the counter of [s]. *)
Definition grows (s s' : Service) : Prop :=
  length (heap s') = S (length (heap s)) ∧ nextTimerId s' = nextTimerId s + 1 ∧
  ∃ t, activeTimers s'
       = JsMap.set ("timer_" +:+ JsString.toString (nextTimerId s) +:+ "_"
                    +:+ JsString.toString t)
           (length (heap s)) (activeTimers s).

(** The timer object [resume] leaves at [now] for one paused at
    [pausedTime]. *)
Definition resumed_timer (t : Timer) (now : Z) : Timer :=
  match pausedTime t with
  | Some p =>
      if p =? 0 then set_status t running (startTime t) (Some p)
      else set_status t running (startTime t + (now - p)) None
  | None => set_status t running (startTime t) None
  end.




(** The timer an event is about. *)
Definition timer_of (e : Event) : string :=
  match e with
  | tick k _ _ | complete k | paused_event k | resumed k | stopped k
  | restHalfway k _ | restCountdown k _ | restComplete k => k
  end.

(** An output that is an event about timer [k]. *)
Definition about (k : string) (o : Output) : Prop :=
  match o with
  | Emitted e => timer_of e = k
  | _ => False
  end.

(** [s'] has put out what [s] had and then nothing about timer [k], which
    is not active in it. *)
Definition quiet_about (k : string) (s s' : Service) : Prop :=
  JsMap.get k (activeTimers s') = None ∧
  ∃ tr, trace s' = trace s ++ tr ∧ Forall (λ o, ¬ about k o) tr.

End TimerShape.

(** ** Durations as the session views show them *)

Module WorkoutFormat.

(** [formatWorkoutDuration(seconds)] of the workout service.  [%] is exact
    and takes the sign of the dividend, as [Z.rem] does; a remainder is below
    [3600], so [Math.floor] of its quotient is [/]. *)
Definition formatWorkoutDuration (seconds : Z) : string :=
  let hours := Js.floor_div seconds 3600 in
  let minutes := Z.rem seconds 3600 / 60 in
  let secs := Z.rem seconds 60 in
  if 0 <? hours
  then JsString.number_toString hours +:+ ":"
       +:+ JsString.padStart 2 "0" (JsString.number_toString minutes) +:+ ":"
       +:+ JsString.padStart 2 "0" (JsString.number_toString secs)
  else JsString.number_toString minutes +:+ ":"
       +:+ JsString.padStart 2 "0" (JsString.number_toString secs).

(** The number of colons of a string. *)
Definition colons (s : string) : nat :=
  length (List.filter (λ x, Ascii.eqb x ":") (list_ascii_of_string s)).

End WorkoutFormat.

(** ** Routines and exercise definitions
    ([createRoutine], [createExercise], [deleteRoutine]) *)

Module Routines.
Import Store WorkoutService.

(** *** The database layer ([scripts/core/database.js]) *)

(** The order of the [routineId] index of the [exercises] store: by
    [routineId], then by primary key. *)
Definition index_before (a b : Exercise) : bool :=
  String.ltb (ex_routineId a) (ex_routineId b)
  || (String.eqb (ex_routineId a) (ex_routineId b)
      && String.ltb (ex_id a) (ex_id b)).

Fixpoint index_insert (e : Exercise) (l : list Exercise) : list Exercise :=
  match l with
  | [] => [e]
  | x :: r => if index_before e x then e :: l else x :: index_insert e r
  end.

Definition with_exercises (d : Database) (l : list Exercise) : Database :=
  {| routines := routines d; exerciseStore := l; workouts := workouts d |}.

Definition with_routines (d : Database) (rs : gmap string Routine) : Database :=
  {| routines := rs; exerciseStore := exerciseStore d; workouts := workouts d |}.

(** [createExercise(exerciseData)] of the database: [add] is refused when
    the key is already present.  [exercise] carries the generated id. *)
Definition dbCreateExercise (d : Database) (exercise : Exercise) : option Database :=
  if existsb (λ x, String.eqb (ex_id x) (ex_id exercise)) (exerciseStore d)
  then None
  else Some (with_exercises d (index_insert exercise (exerciseStore d))).

(** [createRoutine(routineData)] of the database, likewise. *)
Definition dbCreateRoutine (d : Database) (routine : Routine) : option Database :=
  match routines d !! r_id routine with
  | Some _ => None
  | None => Some (with_routines d (<[r_id routine := routine]> (routines d)))
  end.

(** [delete('exercises', id)] *)
Definition delete_exercise (l : list Exercise) (exerciseId : string) : list Exercise :=
  List.filter (λ x, negb (String.eqb (ex_id x) exerciseId)) l.

(** [deleteRoutine(routineId)] of the database: one transaction that deletes
    the routine and then, one by one, the exercises the index gave for it. *)
Definition dbDeleteRoutine (d : Database) (routineId : string) : Database :=
  let exercises := getExercisesByRoutine d routineId in
  {| routines := delete routineId (routines d);
     exerciseStore := fold_left delete_exercise (map ex_id exercises)
                        (exerciseStore d);
     workouts := workouts d |}.

(** *** The service ([scripts/services/workout-service.js]) *)

(** The data of a new exercise as a form hands it over, once it has a
    name. *)
Record ExerciseInput : Type := {
  ei_name : string;
  ei_routineId : string;
  ei_sets : Js.value;
  ei_reps : Js.value;
  ei_weight : Js.value;
  ei_restTime : Js.value;
  ei_notes : option string
}.

(** The same data as the validator sees it. *)
Definition as_data (i : ExerciseInput) : ExerciseData :=
  {| ed_name := Some (ei_name i); ed_sets := ei_sets i; ed_reps := ei_reps i;
     ed_weight := ei_weight i; ed_restTime := ei_restTime i |}.

(** [{ ...exerciseData, routineId }] *)
Definition with_routine (i : ExerciseInput) (routineId : string) : ExerciseInput :=
  {| ei_name := ei_name i; ei_routineId := routineId; ei_sets := ei_sets i;
     ei_reps := ei_reps i; ei_weight := ei_weight i; ei_restTime := ei_restTime i;
     ei_notes := ei_notes i |}.

(** The data of a new routine. *)
Record RoutineInput : Type := {
  ri_name : string;
  ri_description : option string;
  ri_exercises : option (list ExerciseInput)
}.

Definition as_routine_data (i : RoutineInput) : RoutineData :=
  {| rd_name := Some (ri_name i);
     rd_exercises := option_map (map as_data) (ri_exercises i) |}.

(** The events of the routine methods. *)
Inductive Event : Type :=
| routineCreated (routine : Routine) (exercises : list Exercise)
| routineDeleted (routineId : string)
| exerciseCreated (exercise : Exercise).

(** The store and the events emitted so far, oldest first. *)
Record Catalog : Type := {
  c_db : Database;
  c_emitted : list Event
}.

(** [a || ''] *)
Definition or_empty (a : option string) : string :=
  match a with
  | Some s => s
  | None => ""
  end.

(** The record [createExercise] makes of the data, with the id the database
    gives it. *)
Definition new_exercise (exerciseData : ExerciseInput) (newId : string) : Exercise :=
  {| ex_id := newId;
     ex_name := ei_name exerciseData;
     ex_routineId := ei_routineId exerciseData;
     ex_sets := Js.or_else (ei_sets exerciseData) 1;
     ex_reps := Js.or_else (ei_reps exerciseData) 1;
     ex_weight := Js.or_else (ei_weight exerciseData) 0;
     ex_restTime := Js.or_else (ei_restTime exerciseData) 60;
     ex_notes := or_empty (ei_notes exerciseData) |}.

(** [createExercise(exerciseData)].  [newId] is the id the database
    generates. *)
Definition createExercise (exerciseData : ExerciseInput) (newId : string)
    (c : Catalog) : Catalog * result Exercise :=
  let exercise := new_exercise exerciseData newId in
  match dbCreateExercise (c_db c) exercise with
  | None => (c, Throw ConstraintError)
  | Some d =>
      ({| c_db := d; c_emitted := c_emitted c ++ [exerciseCreated exercise] |},
       Ok exercise)
  end.

(** The loop of [createRoutine] over the exercises that are left; [created]
    are the exercises pushed so far and [ids] the ids the database will
    generate, in order. *)
Fixpoint create_each (exercises : list ExerciseInput) (routineId : string)
    (ids : nat → string) (created : list Exercise) (c : Catalog)
  : Catalog * result (list Exercise) :=
  match exercises with
  | [] => (c, Ok created)
  | exerciseData :: rest =>
      match createExercise (with_routine exerciseData routineId) (ids O) c with
      | (c', Ok exercise) =>
          create_each rest routineId (λ n, ids (S n)) (created ++ [exercise]) c'
      | (c', Throw e) => (c', Throw e)
      end
  end.

(** [createRoutine(routineData)].  [newId] is the id generated for the
    routine and [ids] those generated for its exercises. *)
Definition createRoutine (routineData : RoutineInput) (newId : string)
    (ids : nat → string) (c : Catalog)
  : Catalog * result (Routine * list Exercise) :=
  let routine :=
    {| r_id := newId; r_name := ri_name routineData;
       r_description := or_empty (ri_description routineData) |} in
  match dbCreateRoutine (c_db c) routine with
  | None => (c, Throw ConstraintError)
  | Some d =>
      let c := {| c_db := d; c_emitted := c_emitted c |} in
      match create_each (default [] (ri_exercises routineData)) newId ids [] c with
      | (c', Ok exercises) =>
          ({| c_db := c_db c';
              c_emitted := c_emitted c' ++ [routineCreated routine exercises] |},
           Ok (routine, exercises))
      | (c', Throw e) => (c', Throw e)
      end
  end.

(** [deleteRoutine(routineId)] *)
Definition deleteRoutine (routineId : string) (c : Catalog) : Catalog :=
  {| c_db := dbDeleteRoutine (c_db c) routineId;
     c_emitted := c_emitted c ++ [routineDeleted routineId] |}.

(** *** Stores filled through the validated paths *)

(** The databases that come about from an empty one when routines and
    exercises are created as the forms do it, [validateRoutineData] or
    [validateExerciseData] first and [createRoutine] or [createExercise]
    after it has returned, routines are deleted, and sessions are run. *)
Inductive grown : Database → Prop :=
| grown_empty :
    grown {| routines := ∅; exerciseStore := []; workouts := ∅ |}
| grown_createRoutine d i newId ids log :
    grown d → validateRoutineData (as_routine_data i) = passes →
    grown (c_db (createRoutine i newId ids {| c_db := d; c_emitted := log |}).1)
| grown_createExercise d i newId context log :
    grown d → validateExerciseData (as_data i) context = passes →
    grown (c_db (createExercise i newId {| c_db := d; c_emitted := log |}).1)
| grown_deleteRoutine d routineId log :
    grown d →
    grown (c_db (deleteRoutine routineId {| c_db := d; c_emitted := log |}))
| grown_call d c log :
    grown d → grown (db (run c {| db := d; emitted := log |}).1).

End Routines.

(** ** Subscriptions ([on], [off] and [emit], the same in both services) *)

Module EventBus.

(** A callback, known by its identity, and [eventListeners], which maps the
    name of an event to the array of its callbacks. *)
Definition Callback : Type := nat.

Definition Listeners : Type := list (string * list Callback).

(** [on(event, callback)] *)
Definition on (event : string) (callback : Callback) (ls : Listeners) : Listeners :=
  let ls := if JsMap.has event ls then ls else JsMap.set event [] ls in
  match JsMap.get event ls with
  | Some l => JsMap.set event (l ++ [callback]) ls
  | None => ls
  end.

(** [l.splice(l.indexOf(callback), 1)] when [callback] is in [l]. *)
Fixpoint remove_first (callback : Callback) (l : list Callback) : list Callback :=
  match l with
  | [] => []
  | x :: r => if Nat.eqb x callback then r else x :: remove_first callback r
  end.

(** [off(event, callback)] *)
Definition off (event : string) (callback : Callback) (ls : Listeners) : Listeners :=
  match JsMap.get event ls with
  | Some l => JsMap.set event (remove_first callback l) ls
  | None => ls
  end.

(** [emit(event, ...args)]: the callbacks it calls, in the order of the
    calls.  Each call sits in its own [try], so a callback that throws does
    not keep the later ones from being called.  The callbacks are taken not
    to subscribe or unsubscribe while the event is being emitted. *)
Definition emit (event : string) (ls : Listeners) : list Callback :=
  match JsMap.get event ls with
  | Some l => l
  | None => []
  end.

End EventBus.

(** * Properties *)

(** ** Array indexing *)

Module JsFacts.
Import Js.

Lemma index_Some {A : Type} (l : list A) (i : Z) (x : A) :
  index l i = Some x → 0 ≤ i < Z.of_nat (length l).
Proof.
  unfold index. destruct (Z.ltb_spec i 0); [done|].
  intros H1%lookup_lt_Some. lia.
Qed.

Lemma index_ge {A : Type} (l : list A) (i : Z) :
  Z.of_nat (length l) ≤ i → index l i = None.
Proof.
  intros Hi. unfold index. destruct (Z.ltb_spec i 0); [done|].
  apply lookup_ge_None. lia.
Qed.

Lemma length_set_index {A : Type} (l : list A) (i : Z) (x : A) :
  length (set_index l i x) = length l.
Proof. unfold set_index. destruct (i <? 0); [done|]. apply length_insert. Qed.

Lemma index_set_index {A : Type} (l : list A) (i j : Z) (x : A) :
  index (set_index l i x) j =
  if decide (i = j) then (index l i ≫= λ _, Some x) else index l j.
Proof.
  unfold index, set_index.
  destruct (Z.ltb_spec i 0), (Z.ltb_spec j 0); case_decide; try lia; try done.
  - subst j. destruct (l !! Z.to_nat i) eqn:E.
    + simpl. apply list_lookup_insert_eq. by eapply lookup_lt_Some.
    + simpl. rewrite list_insert_ge; [done|]. by apply lookup_ge_None.
  - apply list_lookup_insert_ne. lia.
Qed.

End JsFacts.

(** ** The workout session engine *)

Module EngineFacts.
Import Store WorkoutService Scenario.

Ltac run_m :=
  unfold run, startWorkout, completeSet, finishWorkout, pauseWorkout,
    resumeWorkout, updateExerciseWeight, bind, ret, throw, emit, dbGetWorkout,
    dbUpdateWorkout, dbCreateWorkout, getRoutine, Store.getWorkout,
    Store.updateWorkout, Store.createWorkout, Store.getRoutine; simpl.

Lemma snapshot_stored_ok (d : Database) (rid k : string) (rn : string) (now : Z)
    (d1 d2 d3 : option Z) :
  Forall (λ e, 1 ≤ ex_sets e) (exerciseStore d) →
  stored_ok
    {| id := k; routineId := rid; routineName := rn; status := active;
       currentExerciseIndex := 0; currentSet := 1;
       exercises := map snapshot (getExercisesByRoutine d rid);
       startTime := now; endTime := None; duration := 0; pausedAt := None;
       date := d1; createdAt := d2; updatedAt := d3 |}.
Proof.
  intros Hex.
  assert (Hall : Forall (λ p, completedSets p = 0 ∧ sets p = [] ∧ 1 ≤ targetSets p)
                   (map snapshot (getExercisesByRoutine d rid))).
  { apply Forall_fmap, Forall_forall. intros e He. simpl.
    unfold getExercisesByRoutine in He. apply list_elem_of_filter in He as [_ He].
    rewrite Forall_forall in Hex. split; [done|split; [done|]]. by apply Hex. }
  split; [split|]; simpl.
  - lia.
  - eapply Forall_impl; [exact Hall|]. intros e (H1 & H2 & H3).
    unfold exercise_ok. rewrite H1, H2. simpl. lia.
  - intros j e _ Hj. unfold Js.index in Hj. destruct (j <? 0); [done|].
    rewrite Forall_lookup in Hall. apply Hall in Hj as (H1 & _ & H3). lia.
Qed.

Lemma push_set_ok (e : ExerciseProgress) (s : CompletedSet) :
  exercise_ok e → completedSets e < targetSets e → exercise_ok (push_set e s).
Proof.
  intros [H1 H2] H3. unfold exercise_ok. simpl. rewrite length_app. simpl. lia.
Qed.

Lemma Forall_set_index {A : Type} (P : A → Prop) (l : list A) (i : Z) (x : A) :
  Forall P l → P x → Forall P (Js.set_index l i x).
Proof.
  intros Hl Hx. unfold Js.set_index. destruct (i <? 0); [done|].
  by apply Forall_insert.
Qed.

(** The session object with one more set recorded, as [completeSet] holds it
    before it decides how to persist. *)
Lemma completeSet_local_ok (s : Workout) (e : ExerciseProgress) (c : CompletedSet)
    (idx' cur : Z) :
  stored_ok s →
  Js.index (exercises s) (currentExerciseIndex s) = Some e →
  currentExerciseIndex s ≤ idx' ≤ currentExerciseIndex s + 1 →
  session_ok (set_progress s (status s) idx' cur
                (Js.set_index (exercises s) (currentExerciseIndex s) (push_set e c))).
Proof.
  intros [[Hi Hall] Hp] He Hidx. split; simpl.
  - rewrite JsFacts.length_set_index. apply JsFacts.index_Some in He. lia.
  - apply Forall_set_index; [done|]. apply push_set_ok.
    + unfold Js.index in He. destruct (_ <? 0); [done|].
      rewrite Forall_lookup in Hall. by eapply Hall.
    + eapply Hp; [|done]. lia.
Qed.

Lemma completeSet_local_pending (s : Workout) (e : ExerciseProgress)
    (c : CompletedSet) (idx' cur : Z) :
  stored_ok s →
  Js.index (exercises s) (currentExerciseIndex s) = Some e →
  (idx' = currentExerciseIndex s ∧ completedSets e + 1 < targetSets e) ∨
  idx' = currentExerciseIndex s + 1 →
  pending_ok (set_progress s (status s) idx' cur
                (Js.set_index (exercises s) (currentExerciseIndex s) (push_set e c))).
Proof.
  intros [_ Hp] He Hidx j x Hj. simpl in *.
  rewrite JsFacts.index_set_index. case_decide as Hij.
  - rewrite He. simpl. intros [= <-]. simpl. lia.
  - intros Hx. eapply Hp; [|done]. lia.
Qed.

Lemma stamp_stored_ok (s : Workout) (now : Z) :
  stored_ok s → stored_ok (stamp_updated s now).
Proof. intros [[? ?] ?]. done. Qed.

(** Every call keeps the store in shape, and the session it returns is in
    shape as well. *)
Lemma run_store_ok (c : Call) (w : World) :
  store_ok (db w) →
  store_ok (db (run c w).1) ∧ ∀ s, (run c w).2 = Ok s → session_ok s.
Proof.
  intros [Hex Hws].
  destruct c as [rid newId now|workoutId sd now|workoutId now|workoutId now
                |workoutId now|workoutId exerciseIndex newWeight now]; run_m.
  - (* startWorkout *)
    destruct (routines (db w) !! rid) as [r|] eqn:Hr; simpl; [|done].
    destruct (workouts (db w) !! newId) eqn:Hk; simpl; [done|].
    pose proof (snapshot_stored_ok (db w) rid newId (r_name r) now) as Hs.
    split; [split; [done|]|].
    + apply map_Forall_insert_2; [|done]. by apply Hs.
    + intros s [= <-]. by apply (Hs None None None).
  - (* completeSet *)
    destruct (workouts (db w) !! workoutId) as [s|] eqn:Hs; simpl; [|done].
    assert (Hok : stored_ok s) by (by eapply Hws).
    case_bool_decide as Hst; simpl; [|done].
    destruct (Js.index (exercises s) (currentExerciseIndex s)) as [e|] eqn:He;
      simpl; [|done].
    destruct (Z.leb_spec (targetSets e) (completedSets e + 1)) as [Hd|Hd]; simpl.
    + rewrite JsFacts.length_set_index.
      destruct (Z.leb_spec (Z.of_nat (length (exercises s)))
                  (currentExerciseIndex s + 1)) as [Hl|Hl]; simpl.
      * rewrite Hs. simpl. split; [split; [done|]|].
        -- apply map_Forall_insert_2; [|done]. simpl.
           destruct Hok as [[? ?] ?]. done.
        -- intros ? [= <-]. apply completeSet_local_ok; [done..|lia].
      * split; [split; [done|]|].
        -- apply map_Forall_insert_2; [|done]. apply stamp_stored_ok. split.
           ++ apply completeSet_local_ok; [done..|lia].
           ++ apply completeSet_local_pending; auto.
        -- intros ? [= <-]. apply stamp_stored_ok.
           split; [apply completeSet_local_ok; [done..|lia]
                  |apply completeSet_local_pending; auto].
    + split; [split; [done|]|].
      * apply map_Forall_insert_2; [|done]. apply stamp_stored_ok. split.
        -- apply completeSet_local_ok; [done..|lia].
        -- apply completeSet_local_pending; auto.
      * intros ? [= <-]. apply stamp_stored_ok.
        split; [apply completeSet_local_ok; [done..|lia]
               |apply completeSet_local_pending; auto].
  - (* pauseWorkout *)
    destruct (workouts (db w) !! workoutId) as [s|] eqn:Hs; simpl; [|done].
    assert (Hok : stored_ok s) by (by eapply Hws).
    case_bool_decide as Hst; simpl; [|done].
    destruct Hok as [[? ?] ?].
    split; [split; [done|]|].
    + by apply map_Forall_insert_2.
    + by intros ? [= <-].
  - (* resumeWorkout *)
    destruct (workouts (db w) !! workoutId) as [s|] eqn:Hs; simpl; [|done].
    assert (Hok : stored_ok s) by (by eapply Hws).
    case_bool_decide as Hst; simpl; [|done].
    destruct Hok as [[? ?] ?].
    split; [split; [done|]|].
    + by apply map_Forall_insert_2.
    + by intros ? [= <-].
  - (* finishWorkout *)
    destruct (workouts (db w) !! workoutId) as [s|] eqn:Hs; simpl; [|done].
    assert (Hok : stored_ok s) by (by eapply Hws).
    destruct Hok as [[? ?] ?].
    split; [split; [done|]|].
    + by apply map_Forall_insert_2.
    + by intros ? [= <-].
  - (* updateExerciseWeight *)
    destruct (workouts (db w) !! workoutId) as [s|] eqn:Hs; simpl; [|done].
    assert (Hok : stored_ok s) by (by eapply Hws).
    destruct (Js.index (exercises s) exerciseIndex) as [e|] eqn:He; simpl; [|done].
    destruct Hok as [[Hi Hall] Hp].
    assert (He' : exercise_ok e).
    { unfold Js.index in He. destruct (_ <? 0); [done|].
      rewrite Forall_lookup in Hall. by eapply Hall. }
    assert (Hnew : stored_ok
              (stamp_updated
                 (set_progress s (status s) (currentExerciseIndex s) (currentSet s)
                    (Js.set_index (exercises s) exerciseIndex
                       (set_targetWeight e newWeight))) now)).
    { split; [split|]; simpl.
      - by rewrite JsFacts.length_set_index.
      - by apply Forall_set_index.
      - intros j x Hj. simpl. rewrite JsFacts.index_set_index. case_decide as Hij.
        + rewrite He. simpl. intros [= <-]. simpl. subst j. by eapply Hp.
        + by apply Hp. }
    split; [split; [done|]|].
    + by apply map_Forall_insert_2.
    + intros ? [= <-]. apply Hnew.
Qed.

(** C6.  Start from a store with no session whose exercise definitions all
    ask for at least one set.  In every world the engine reaches through
    [startWorkout], [completeSet], [pauseWorkout], [resumeWorkout],
    [finishWorkout] and [updateExerciseWeight], each stored session has
    [completedSets ≤ targetSets] and [len(sets) = completedSets] for every
    exercise and [0 ≤ currentExerciseIndex ≤ exercises.length]; the same
    holds of the session any further call returns. *)
Theorem session_invariant (w0 w : World) :
  workouts (db w0) = ∅ →
  Forall (λ e, 1 ≤ ex_sets e) (exerciseStore (db w0)) →
  reachable w0 w →
  (∀ k s, workouts (db w) !! k = Some s → session_ok s) ∧
  (∀ c s, (run c w).2 = Ok s → session_ok s).
Proof.
  intros Hempty Hex Hreach.
  assert (Hok : store_ok (db w)).
  { induction Hreach as [|w c _ IH].
    - split; [done|]. rewrite Hempty. apply map_Forall_empty.
    - by apply run_store_ok. }
  split.
  - intros k s Hs. destruct Hok as [_ Hws]. by apply (Hws k s).
  - intros c. by apply run_store_ok.
Qed.

Lemma session_invariant_witness :
  (∀ k s, workouts (db started) !! k = Some s → session_ok s) ∧
  (∀ c s, (run c started).2 = Ok s → session_ok s).
Proof.
  apply (session_invariant {| db := legs_day; emitted := [] |} started).
  - reflexivity.
  - simpl. repeat constructor; simpl; lia.
  - apply (reach_call _ _ (CallStart "r1" "w1" 1000)), reach_refl.
Defined.

(** Without the condition on the exercise definitions the invariant fails.
    When the first exercise asks for no set, the first set recorded is one
    more than the target: [completeSet] counts the set before it compares,
    and stores the session with [completedSets = 1] and [targetSets = 0]. *)
Lemma session_without_sets_overshoots :
  workouts (db {| db := no_set_day; emitted := [] |}) = ∅ ∧
  reachable {| db := no_set_day; emitted := [] |} one_set_done ∧
  (map (λ e, (completedSets e, targetSets e)) <$>
     (exercises <$> workouts (db one_set_done) !! "w1")) = Some [(1, 0); (0, 2)] ∧
  ¬ (∀ k s, workouts (db one_set_done) !! k = Some s → session_ok s) ∧
  ¬ (∀ w0 w, workouts (db w0) = ∅ → reachable w0 w →
             ∀ k s, workouts (db w) !! k = Some s → session_ok s).
Proof.
  assert (Hreach : reachable {| db := no_set_day; emitted := [] |} one_set_done).
  { apply (reach_call _ _ (CallCompleteSet "w1" as_target 2000)).
    apply (reach_call _ _ (CallStart "r1" "w1" 1000)). apply reach_refl. }
  assert (Hbad : ¬ (∀ k s, workouts (db one_set_done) !! k = Some s → session_ok s)).
  { intros Hall.
    assert (Hs : ∃ s e l, workouts (db one_set_done) !! "w1" = Some s ∧
                          exercises s = e :: l ∧
                          completedSets e = 1 ∧ targetSets e = 0)
      by (vm_compute; eexists _, _, _; repeat split).
    destruct Hs as (s & e & l & Hs & He & Hc & Ht).
    destruct (Hall _ _ Hs) as [_ Hex]. rewrite He in Hex.
    apply Forall_cons in Hex as [[Hle _] _]. lia. }
  split; [reflexivity|]. split; [exact Hreach|].
  split; [vm_compute; reflexivity|]. split; [exact Hbad|].
  intros Hall. apply Hbad. by apply (Hall {| db := no_set_day; emitted := [] |}).
Qed.

(** *** The last set of a workout *)

(** What [startWorkout] stores and returns. *)
Lemma startWorkout_spec (d : Database) (log : list Event) (rid wid : string)
    (r : Routine) (now : Z) :
  routines d !! rid = Some r → workouts d !! wid = None →
  ∃ ret stored,
    (startWorkout rid wid now {| db := d; emitted := log |}).2 = Ok ret ∧
    workouts (db (startWorkout rid wid now {| db := d; emitted := log |}).1) !! wid
      = Some stored ∧
    id stored = wid ∧ status stored = active ∧ currentExerciseIndex stored = 0 ∧
    exercises stored = map snapshot (getExercisesByRoutine d rid) ∧
    startTime stored = now ∧ duration stored = 0 ∧
    exercises ret = exercises stored ∧ status ret = active.
Proof.
  intros Hr Hfresh. run_m. rewrite Hr. simpl. rewrite Hfresh. simpl.
  eexists _, _. split; [reflexivity|]. split; [apply lookup_insert_eq|]. done.
Qed.

(** What [completeSet] returns and stores on an active session with a
    current exercise [e].  The session returned has the set appended, and
    when the set completes the exercise its index is one further and
    [currentSet] is 1.  That session is also what is stored, except when the
    index has run past the last exercise: then the store receives what
    [finishWorkout] makes of the session it reads back, which has neither
    the appended set nor the new index. *)
Lemma completeSet_spec (w : World) (wid : string) (s : Workout)
    (e : ExerciseProgress) (sd : SetData) (now : Z) :
  workouts (db w) !! wid = Some s → status s = active → id s = wid →
  Js.index (exercises s) (currentExerciseIndex s) = Some e →
  let c := {| setNumber := completedSets e + 1;
              reps := Js.or_else (sd_reps sd) (targetReps e);
              weight := Js.or_else (sd_weight sd) (targetWeight e);
              completedAt := now |} in
  let advance := targetSets e <=? completedSets e + 1 in
  let last := advance && (Z.of_nat (length (exercises s))
                          <=? currentExerciseIndex s + 1) in
  ∃ ret stored,
    (completeSet wid sd now w).2 = Ok ret ∧
    workouts (db (completeSet wid sd now w).1) !! wid = Some stored ∧
    id ret = wid ∧ status ret = active ∧ startTime ret = startTime s ∧
    duration ret = duration s ∧
    exercises ret = Js.set_index (exercises s) (currentExerciseIndex s) (push_set e c) ∧
    currentExerciseIndex ret
      = (if advance then currentExerciseIndex s + 1 else currentExerciseIndex s) ∧
    currentSet ret = (if advance then 1 else currentSet s + 1) ∧
    if last
    then (finishWorkout wid now w).2 = Ok stored ∧
         status stored = completed ∧ exercises stored = exercises s ∧
         currentExerciseIndex stored = currentExerciseIndex s ∧
         duration stored = (now - startTime s) / 1000 ∧ endTime stored = Some now
    else stored = ret.
Proof.
  intros Hs Hst Hid He c advance last. subst last advance.
  run_m. rewrite Hs. simpl. rewrite Hst. simpl. rewrite He. simpl. fold c.
  destruct (targetSets e <=? completedSets e + 1); simpl.
  - rewrite JsFacts.length_set_index.
    destruct (Z.of_nat (length (exercises s)) <=? currentExerciseIndex s + 1); simpl.
    + rewrite Hs. simpl. eexists _, _. split; [reflexivity|].
      rewrite Hid. split; [apply lookup_insert_eq|]. done.
    + eexists _, _. split; [reflexivity|].
      rewrite Hid. split; [apply lookup_insert_eq|]. done.
  - eexists _, _. split; [reflexivity|].
    rewrite Hid. split; [apply lookup_insert_eq|]. done.
Qed.

(** C1.  A routine of two exercises with two sets each, a session started
    from it, and [completeSet] called four times.  The fourth call does
    invoke the finish transition, but [finishWorkout] reads the session back
    from the store, where the fourth set was never written, and
    [completeSet] returns its own object, which [finishWorkout] never
    touched.  So the session returned still has [status = active] and
    [duration = 0] (its current exercise is none), while the stored session
    is [completed] with [duration ≥ 0] but stands at exercise index 1 with
    one set of two recorded, and its current exercise is not none. *)
Theorem full_workout_drops_last_set (d : Database) (rid wid : string) (r : Routine)
    (e1 e2 : Exercise) (sd1 sd2 sd3 sd4 : SetData) (t0 t1 t2 t3 t4 : Z)
    (log : list Event) :
  routines d !! rid = Some r →
  getExercisesByRoutine d rid = [e1; e2] →
  ex_sets e1 = 2 → ex_sets e2 = 2 →
  workouts d !! wid = None →
  t0 ≤ t4 →
  let w1 := (startWorkout rid wid t0 {| db := d; emitted := log |}).1 in
  let w2 := (completeSet wid sd1 t1 w1).1 in
  let w3 := (completeSet wid sd2 t2 w2).1 in
  let w4 := (completeSet wid sd3 t3 w3).1 in
  let r4 := completeSet wid sd4 t4 w4 in
  ∃ ret stored,
    r4.2 = Ok ret ∧ workouts (db r4.1) !! wid = Some stored ∧
    status ret = active ∧ duration ret = 0 ∧ getCurrentExercise ret = None ∧
    completedSets <$> exercises ret = [2; 2] ∧
    status stored = completed ∧ 0 ≤ duration stored ∧
    currentExerciseIndex stored = 1 ∧
    completedSets <$> exercises stored = [2; 1] ∧
    getCurrentExercise stored = exercises stored !! 1%nat ∧
    getCurrentExercise stored ≠ None.
Proof.
  intros Hr Hex H1 H2 Hfresh Ht w1 w2 w3 w4 r4.
  destruct (startWorkout_spec d log rid wid r t0 Hr Hfresh)
    as (ret0 & s0 & _ & Hs0 & Hid0 & Hst0 & Hi0 & Hx0 & Ht0 & Hd0 & _).
  rewrite Hex in Hx0. simpl in Hx0. fold w1 in Hs0. clearbody w1.
  (* first set of the first exercise *)
  edestruct (λ e, completeSet_spec w1 wid s0 e sd1 t1 Hs0 Hst0 Hid0)
    as (ret1 & s1 & _ & Hs1 & Hid1 & Hst1 & Ht1 & Hd1 & Hx1 & Hi1 & _ & Hsame1);
    [by rewrite Hi0, Hx0|].
  fold w2 in Hs1. clearbody w2.
  rewrite Hi0, Hx0 in Hx1. rewrite Hi0 in Hi1.
  rewrite Hi0, Hx0 in Hsame1. simpl in Hx1, Hi1, Hsame1.
  rewrite H1 in Hi1, Hsame1. simpl in Hi1, Hsame1. subst s1.
  (* second set of the first exercise *)
  edestruct (λ e, completeSet_spec w2 wid ret1 e sd2 t2 Hs1 Hst1 Hid1)
    as (ret2 & s2 & _ & Hs2 & Hid2 & Hst2 & Ht2 & Hd2 & Hx2 & Hi2 & _ & Hsame2);
    [by rewrite Hi1, Hx1|].
  fold w3 in Hs2. clearbody w3.
  rewrite Hi1, Hx1 in Hx2. rewrite Hi1 in Hi2.
  rewrite Hi1, Hx1 in Hsame2. simpl in Hx2, Hi2, Hsame2.
  rewrite H1 in Hi2, Hsame2. simpl in Hi2, Hsame2. subst s2.
  (* first set of the second exercise *)
  edestruct (λ e, completeSet_spec w3 wid ret2 e sd3 t3 Hs2 Hst2 Hid2)
    as (ret3 & s3 & _ & Hs3 & Hid3 & Hst3 & Ht3 & Hd3 & Hx3 & Hi3 & _ & Hsame3);
    [by rewrite Hi2, Hx2|].
  fold w4 in Hs3. clearbody w4.
  rewrite Hi2, Hx2 in Hx3. rewrite Hi2 in Hi3.
  rewrite Hi2, Hx2 in Hsame3. simpl in Hx3, Hi3, Hsame3.
  rewrite H2 in Hi3, Hsame3. simpl in Hi3, Hsame3. subst s3.
  (* second set of the second exercise: the last of the workout *)
  edestruct (λ e, completeSet_spec w4 wid ret3 e sd4 t4 Hs3 Hst3 Hid3)
    as (ret4 & s4 & Hret & Hs4 & Hid4 & Hst4 & Ht4 & Hd4 & Hx4 & Hi4 & _ & Hlast);
    [by rewrite Hi3, Hx3|].
  fold r4 in Hret, Hs4. clearbody r4.
  rewrite Hi3, Hx3 in Hx4. rewrite Hi3 in Hi4.
  rewrite Hi3, Hx3 in Hlast. simpl in Hx4, Hi4, Hlast.
  rewrite H2 in Hi4, Hlast. simpl in Hi4, Hlast.
  destruct Hlast as (_ & Hc & Hxs & His & Hds & _).
  exists ret4, s4. split; [done|]. split; [done|]. split; [done|].
  unfold getCurrentExercise. rewrite Hx4, Hi4, Hxs, His, Hd4, Hds. simpl.
  repeat split; try done; [congruence|].
  rewrite Ht3, Ht2, Ht1, Ht0. apply Z.div_pos; lia.
Qed.

Lemma full_workout_drops_last_set_witness :
  let w1 := (startWorkout "r1" "w1" 1000 {| db := legs_day; emitted := [] |}).1 in
  let w2 := (completeSet "w1" as_target 2000 w1).1 in
  let w3 := (completeSet "w1" as_target 3000 w2).1 in
  let w4 := (completeSet "w1" as_target 4000 w3).1 in
  let r4 := completeSet "w1" as_target 5500 w4 in
  ∃ ret stored,
    r4.2 = Ok ret ∧ workouts (db r4.1) !! "w1" = Some stored ∧
    status ret = active ∧ duration ret = 0 ∧ getCurrentExercise ret = None ∧
    completedSets <$> exercises ret = [2; 2] ∧
    status stored = completed ∧ 0 ≤ duration stored ∧
    currentExerciseIndex stored = 1 ∧
    completedSets <$> exercises stored = [2; 1] ∧
    getCurrentExercise stored = exercises stored !! 1%nat ∧
    getCurrentExercise stored ≠ None.
Proof.
  apply (full_workout_drops_last_set legs_day "r1" "w1"
           {| r_id := "r1"; r_name := "Legs"; r_description := "" |}
           {| ex_id := "e1"; ex_name := "Squat"; ex_routineId := "r1"; ex_sets := 2;
              ex_reps := 10; ex_weight := 50; ex_restTime := 60; ex_notes := "" |}
           {| ex_id := "e2"; ex_name := "Lunge"; ex_routineId := "r1"; ex_sets := 2;
              ex_reps := 8; ex_weight := 20; ex_restTime := 45; ex_notes := "" |}
           as_target as_target as_target as_target 1000 2000 3000 4000 5500 []);
    try reflexivity; lia.
Defined.

(** *** Completed sessions *)

(** C2, as the code has it.  On a session whose status is [completed],
    [completeSet], [pauseWorkout] and [resumeWorkout] throw and leave the
    store and the event log as they were.  [finishWorkout] and
    [updateExerciseWeight] do not look at the status: on any stored session,
    completed or not, [finishWorkout] succeeds and stores [endTime = now]
    and [duration = floor((now - startTime) / 1000)] over the earlier
    values, and [updateExerciseWeight] rewrites the target weight at any
    index that holds an exercise. *)
Theorem completed_session_calls (w : World) (wid : string) (s : Workout) (now : Z) :
  workouts (db w) !! wid = Some s → id s = wid →
  (status s = completed →
   (∀ sd, completeSet wid sd now w = (w, Throw WorkoutNotFoundOrNotActive)) ∧
   pauseWorkout wid now w = (w, Throw WorkoutNotFoundOrNotActive) ∧
   resumeWorkout wid now w = (w, Throw WorkoutNotFoundOrNotPaused)) ∧
  (∃ s', (finishWorkout wid now w).2 = Ok s' ∧
         workouts (db (finishWorkout wid now w).1) !! wid = Some s' ∧
         status s' = completed ∧ endTime s' = Some now ∧
         duration s' = (now - startTime s) / 1000 ∧
         exercises s' = exercises s) ∧
  (∀ i x e, Js.index (exercises s) i = Some e →
     ∃ s', (updateExerciseWeight wid i x now w).2 = Ok s' ∧
           workouts (db (updateExerciseWeight wid i x now w).1) !! wid = Some s' ∧
           status s' = status s ∧
           Js.index (exercises s') i = Some (set_targetWeight e x)).
Proof.
  intros Hs Hid. split; [|split].
  - intros Hst. repeat split.
    + intros sd. run_m. rewrite Hs. simpl. by rewrite Hst.
    + run_m. rewrite Hs. simpl. by rewrite Hst.
    + run_m. rewrite Hs. simpl. by rewrite Hst.
  - run_m. rewrite Hs. simpl. eexists. split; [reflexivity|].
    rewrite Hid. split; [apply lookup_insert_eq|]. done.
  - intros i x e He. run_m. rewrite Hs. simpl. rewrite He. simpl.
    eexists. split; [reflexivity|].
    rewrite Hid. split; [apply lookup_insert_eq|]. simpl. split; [done|].
    rewrite JsFacts.index_set_index. rewrite decide_True by done. by rewrite He.
Qed.

Lemma completed_session_calls_witness :
  (duration <$> workouts (db finished_once) !! "w1") = Some 4 ∧
  (∀ sd, completeSet "w1" sd 9000 finished_once
         = (finished_once, Throw WorkoutNotFoundOrNotActive)) ∧
  ∃ s', (finishWorkout "w1" 9000 finished_once).2 = Ok s' ∧
        workouts (db (finishWorkout "w1" 9000 finished_once).1) !! "w1" = Some s' ∧
        status s' = completed ∧ endTime s' = Some 9000 ∧ duration s' = 8.
Proof.
  split; [reflexivity|].
  destruct (workouts (db finished_once) !! "w1") as [s|] eqn:Hs;
    [|vm_compute in Hs; discriminate].
  assert (Hst : status s = completed)
    by (vm_compute in Hs; injection Hs as <-; reflexivity).
  assert (Hid : id s = "w1")
    by (vm_compute in Hs; injection Hs as <-; reflexivity).
  assert (Hstart : startTime s = 1000)
    by (vm_compute in Hs; injection Hs as <-; reflexivity).
  destruct (completed_session_calls finished_once "w1" s 9000 Hs Hid)
    as (Hguard & (s' & H1 & H2 & H3 & H4 & H5 & _) & _).
  split; [apply Hguard, Hst|].
  exists s'. rewrite Hstart in H5. done.
Defined.

(** [finishWorkout] and [updateExerciseWeight] do not fail on a completed
    session: both succeed, the first re-stamps [endTime] and [duration], the
    second changes the stored target weight. *)
Lemma completed_session_is_mutated :
  (status <$> workouts (db finished_once) !! "w1") = Some completed ∧
  (duration <$> workouts (db finished_once) !! "w1") = Some 4 ∧
  (duration <$> resolved (finishWorkout "w1" 9000 finished_once).2) = Some 8 ∧
  (duration <$> workouts (db (finishWorkout "w1" 9000 finished_once).1) !! "w1")
    = Some 8 ∧
  (status <$> resolved (updateExerciseWeight "w1" 0 75 9000 finished_once).2)
    = Some completed ∧
  (map targetWeight <$>
     (exercises <$> workouts (db finished_once) !! "w1")) = Some [50; 20] ∧
  (map targetWeight <$>
     (exercises <$>
        workouts (db (updateExerciseWeight "w1" 0 75 9000 finished_once).1) !! "w1"))
    = Some [75; 20].
Proof. vm_compute. repeat split. Qed.

(** *** Supplied values that are falsy *)

(** C10.  On an active session, [completeSet] appends a set whose [reps] are
    the exercise's [targetReps] whenever the supplied [reps] are falsy, which
    [0] is, as are [NaN] and a missing value; likewise for [weight] and
    [targetWeight].  The session returned holds the appended set; so does the
    stored one unless the set was the last of the workout. *)
Theorem completeSet_falsy_falls_back (w : World) (wid : string) (s : Workout)
    (e : ExerciseProgress) (sd : SetData) (now : Z) :
  workouts (db w) !! wid = Some s → status s = active → id s = wid →
  Js.index (exercises s) (currentExerciseIndex s) = Some e →
  ∃ ret e' c,
    (completeSet wid sd now w).2 = Ok ret ∧
    Js.index (exercises ret) (currentExerciseIndex s) = Some e' ∧
    sets e' = sets e ++ [c] ∧
    (Js.truthy (sd_reps sd) = false → reps c = targetReps e) ∧
    (Js.truthy (sd_weight sd) = false → weight c = targetWeight e) ∧
    (sd_reps sd = Some (Js.Num 0) → reps c = targetReps e) ∧
    (sd_weight sd = Some (Js.Num 0) → weight c = targetWeight e) ∧
    (getCurrentExercise ret ≠ None →
     exercises <$> workouts (db (completeSet wid sd now w).1) !! wid
       = Some (exercises ret)).
Proof.
  intros Hs Hst Hid He.
  assert (Hfalsy : ∀ v t, Js.truthy v = false → Js.or_else v t = t).
  { intros [[|z]|] t; simpl; try done. by destruct (z =? 0). }
  set (c := {| setNumber := completedSets e + 1;
               reps := Js.or_else (sd_reps sd) (targetReps e);
               weight := Js.or_else (sd_weight sd) (targetWeight e);
               completedAt := now |}).
  assert (Hidx : Js.index (Js.set_index (exercises s) (currentExerciseIndex s)
                             (push_set e c)) (currentExerciseIndex s)
                 = Some (push_set e c)).
  { rewrite JsFacts.index_set_index, decide_True by done. by rewrite He. }
  run_m. rewrite Hs. simpl. rewrite Hst. simpl. rewrite He. simpl.
  fold c.
  assert (Hzero : ∀ v t, v = Some (Js.Num 0) → Js.or_else v t = t)
    by (by intros v t ->).
  destruct (targetSets e <=? completedSets e + 1); simpl.
  - rewrite JsFacts.length_set_index.
    destruct (Z.leb_spec (Z.of_nat (length (exercises s)))
                (currentExerciseIndex s + 1)) as [Hl|Hl]; simpl.
    + rewrite Hs. simpl. eexists _, (push_set e c), c.
      split; [reflexivity|]. simpl.
      repeat split; try done; try (by intros; apply Hfalsy);
        try (by intros; apply Hzero).
      unfold getCurrentExercise. simpl. rewrite JsFacts.length_set_index.
      destruct (Z.leb_spec (Z.of_nat (length (exercises s)))
                  (currentExerciseIndex s + 1)); [done|lia].
    + eexists _, (push_set e c), c.
      split; [reflexivity|]. simpl.
      repeat split; try done; try (by intros; apply Hfalsy);
        try (by intros; apply Hzero).
      intros _. by rewrite Hid, lookup_insert_eq.
  - eexists _, (push_set e c), c.
    split; [reflexivity|]. simpl.
    repeat split; try done; try (by intros; apply Hfalsy);
      try (by intros; apply Hzero).
    intros _. by rewrite Hid, lookup_insert_eq.
Qed.

Lemma completeSet_falsy_falls_back_witness :
  ∃ ret e' c,
    (completeSet "w1" zero_set 2000 started).2 = Ok ret ∧
    Js.index (exercises ret) 0 = Some e' ∧
    sets e' = [c] ∧ reps c = 10 ∧ weight c = 50.
Proof.
  destruct (workouts (db started) !! "w1") as [s|] eqn:Hs;
    [|vm_compute in Hs; discriminate].
  pose proof Hs as Hs'. vm_compute in Hs'. injection Hs' as Hs'.
  destruct (completeSet_falsy_falls_back started "w1" s
              (snapshot {| ex_id := "e1"; ex_name := "Squat"; ex_routineId := "r1";
                           ex_sets := 2; ex_reps := 10; ex_weight := 50;
                           ex_restTime := 60; ex_notes := "" |})
              zero_set 2000 Hs)
    as (ret & e' & c & H1 & H2 & H3 & _ & _ & H4 & H5 & _);
    [by subst s..|].
  exists ret, e', c. subst s. simpl in *.
  split; [done|]. split; [done|]. split; [done|].
  split; [by apply H4|by apply H5].
Defined.

End EngineFacts.

(** ** Validation *)

Module ValidationFacts.
Import Js WorkoutService Scenario.

(** What the validator of exercises does refuse: a name that is missing,
    empty or blank, and numbers below zero for sets, repetitions, weight and
    rest time. *)
Lemma validateExerciseData_rejects (e : ExerciseData) (context : string) :
  name_missing (ed_name e) = true ∨
  (∃ z, ed_sets e = Some (Num z) ∧ z < 0) ∨
  (∃ z, ed_reps e = Some (Num z) ∧ z < 0) ∨
  (∃ z, ed_weight e = Some (Num z) ∧ z < 0) ∨
  (∃ z, ed_restTime e = Some (Num z) ∧ z < 0) →
  ∃ message, validateExerciseData e context = throws message.
Proof.
  assert (Hneg : ∀ v z k, v = Some (Num z) → z < 0 → 0 ≤ k →
                   truthy v && (isNaN v || lt v k) = true).
  { intros v z k -> Hz Hk. simpl.
    destruct (Z.eqb_spec z 0); [lia|]. destruct (Z.ltb_spec z k); [done|lia]. }
  intros H. unfold validateExerciseData.
  destruct (name_missing (ed_name e)); [by eexists|].
  destruct H as [?|H]; [done|].
  destruct (truthy (ed_sets e) && _) eqn:H1; [by eexists|].
  destruct H as [(z & Hz & ?)|H]; [by rewrite (Hneg _ z 1 Hz) in H1 by lia|].
  destruct (truthy (ed_reps e) && _) eqn:H2; [by eexists|].
  destruct H as [(z & Hz & ?)|H]; [by rewrite (Hneg _ z 1 Hz) in H2 by lia|].
  destruct (truthy (ed_weight e) && _) eqn:H3; [by eexists|].
  destruct H as [(z & Hz & ?)|H]; [by rewrite (Hneg _ z 0 Hz) in H3 by lia|].
  destruct (truthy (ed_restTime e) && _) eqn:H4; [by eexists|].
  destruct H as (z & Hz & ?). by rewrite (Hneg _ z 0 Hz) in H4 by lia.
Qed.

Lemma validateRoutineData_rejects_missing_name (r : RoutineData) :
  name_missing (rd_name r) = true →
  validateRoutineData r = throws "Routine name is required".
Proof. intros H. unfold validateRoutineData. by rewrite H. Qed.

Example name_missing_examples :
  name_missing None = true ∧ name_missing (Some "") = true ∧
  name_missing (Some "   ") = true ∧ name_missing (Some " Squat ") = false.
Proof. vm_compute. repeat split. Qed.

(** C7.  Zero sets and zero repetitions pass the validators.  The test for
    each number is guarded by the number's own truthiness, and [0] is falsy:
    the comparison with 1 behind the guard, and the message that sets "must
    be a positive number", are never reached. *)
Theorem validators_accept_zero_sets_and_reps :
  validateExerciseData zero_sets_exercise "Exercise" = passes ∧
  validateRoutineData
    {| rd_name := Some "Legs"; rd_exercises := Some [zero_sets_exercise] |} = passes.
Proof. vm_compute. done. Qed.

(** Whatever else the data holds, zero is never refused. *)
Lemma validateExerciseData_ignores_zero (e : ExerciseData) (context : string) :
  name_missing (ed_name e) = false →
  ed_sets e = Some (Num 0) → ed_reps e = Some (Num 0) →
  truthy (ed_weight e) && (isNaN (ed_weight e) || lt (ed_weight e) 0) = false →
  truthy (ed_restTime e) && (isNaN (ed_restTime e) || lt (ed_restTime e) 0) = false →
  validateExerciseData e context = passes.
Proof.
  intros Hn Hs Hr Hw Ht. unfold validateExerciseData.
  by rewrite Hn, Hs, Hr, Hw, Ht.
Qed.

End ValidationFacts.

(** ** The timer scheduler *)

Module TimerFacts.
Import TimerService TimerScenario.

Local Arguments run : simpl never.

Lemma run_S (n : nat) (s : Service) :
  run (S n) s = match step s with Some s' => run n s' | None => s end.
Proof. reflexivity. Qed.

Lemma run_O (s : Service) : run 0 s = s.
Proof. reflexivity. Qed.

(** Reading a key of a [Map] right after setting it. *)
Lemma get_set_eq {V : Type} (k : string) (v : V) (m : list (string * V)) :
  JsMap.get k (JsMap.set k v m) = Some v.
Proof.
  induction m as [|[k' v'] m IH]; simpl.
  - by rewrite String.eqb_refl.
  - destruct (String.eqb k' k) eqn:E; simpl; rewrite E; done.
Qed.

(** **** The cooperative strategy *)

(** A running countdown with [n + 1] seconds left whose callback is the only
    one scheduled: [n + 1] turns of the event loop put out its ticks and
    [complete], remove it from the active timers and leave nothing due. *)
Lemma main_countdown_run (n : nat) (s : Service) (r i : nat) (t : Timer) :
  worker s = None →
  heap s !! r = Some t →
  type t = countdown → status t = running →
  remaining t = Z.of_nat (S n) →
  JsMap.get (id t) (activeTimers s) = Some r →
  timeouts s = [(i, r)] →
  idle (run (S n) s) ∧
  trace (run (S n) s)
    = trace s ++ countdown_outputs (canVibrate s) (listeners s) (id t)
                   (duration t) (S n) ∧
  activeTimers (run (S n) s) = JsMap.delete (id t) (activeTimers s) ∧
  listeners (run (S n) s) = listeners s.
Proof.
  revert s i t. induction n as [|n IH]; intros s i t Hw Hr Hty Hst Hrem Hget Hto.
  - rewrite !run_S. unfold step at 1 2 3 4. rewrite Hw. unfold main_step.
    rewrite Hto. cbv beta iota. rewrite !run_O.
    unfold updateTimer. simpl. rewrite Hr. unfold JsMap.has. rewrite Hget. simpl.
    rewrite Hst. simpl. rewrite Hty. simpl. rewrite Hrem. simpl.
    unfold idle, step, main_step. simpl. rewrite Hw. simpl.
    repeat split; try done.
    rewrite <- app_assoc. done.
  - rewrite !(run_S (S n)). unfold step at 1 2 3 4. rewrite Hw. unfold main_step.
    rewrite Hto. cbv beta iota.
    unfold updateTimer. simpl heap. rewrite Hr. unfold JsMap.has. simpl activeTimers.
    rewrite Hget. rewrite Hst. simpl. rewrite Hty. rewrite Hrem.
    replace (Z.of_nat (S (S n)) - 1) with (Z.of_nat (S n)) by lia.
    destruct (Z.leb_spec (Z.of_nat (S n)) 0) as [?|_]; [lia|].
    unfold schedule. simpl.
    assert (Hlt : (r < length (heap s))%nat) by (by eapply lookup_lt_Some).
    rewrite list_lookup_insert_eq by done.
    match goal with |- context [run (S n) ?s1] => set (s1' := s1) end.
    specialize (IH s1' (nextTimeout s)
      (set_intervalId (set_counts t (Z.of_nat (S n)) (duration t - Z.of_nat (S n)))
         (Some (nextTimeout s)))).
    destruct IH as (H1 & H2 & H3 & H4); try done.
    { subst s1'. simpl. rewrite list_lookup_insert_eq; [done|].
      by rewrite length_insert. }
    split; [done|]. rewrite H2, H3, H4. subst s1'. simpl.
    rewrite <- !app_assoc. done.
Qed.

(** **** The delegated strategy *)

(** [updateTimer] of the worker on a countdown with [n + 1] seconds left. *)
Lemma worker_updateTimer_after (w : Worker) (wt : WorkerTimer) (k : string) (n : nat) :
  JsMap.get k (timers w) = Some wt → w_type wt = countdown →
  w_remaining wt = Z.of_nat (S n) →
  inbox w = [] → outbox w = [] → scheduled w = [] →
  after_update (worker_updateTimer k w) k (w_duration wt) n.
Proof.
  intros Hget Hty Hrem Hin Hout Hsch. unfold worker_updateTimer.
  rewrite Hget, Hty. simpl. rewrite Hrem, Hout, Hsch, Hin.
  replace (Z.of_nat (S n) - 1) with (Z.of_nat n) by lia.
  destruct n as [|n].
  - simpl. done.
  - destruct (Z.leb_spec (Z.of_nat (S n)) 0) as [?|_]; [lia|].
    repeat split; try done. simpl.
    eexists. rewrite get_set_eq. done.
Qed.

(** The same for the worker, from the moment its [updateTimer] has brought
    the timer down to [n] seconds and posted the tick: each tick costs one
    turn to relay the message and one for the next [updateTimer]. *)
Lemma worker_countdown_run (n : nat) (s : Service) (w : Worker) (k : string)
    (d : Z) (r : nat) (t : Timer) :
  worker s = Some w → after_update w k d n →
  JsMap.get k (activeTimers s) = Some r → heap s !! r = Some t →
  timeouts s = [] →
  idle (run (2 * n + 2) s) ∧
  trace (run (2 * n + 2) s)
    = trace s ++ countdown_outputs (canVibrate s) (listeners s) k d (S n) ∧
  activeTimers (run (2 * n + 2) s) = JsMap.delete k (activeTimers s) ∧
  listeners (run (2 * n + 2) s) = listeners s.
Proof.
  revert s w r t. induction n as [|n IH];
    intros s w r t Hw (Hin & Hout & Hsch & Hwt) Hget Hr Hto.
  - change (2 * 0 + 2)%nat with 2%nat.
    assert (Hlt : (r < length (heap s))%nat) by (by eapply lookup_lt_Some).
    rewrite !run_S. unfold step at 1 2 3 4. rewrite Hw, Hin, Hout. cbv beta iota.
    unfold handleWorkerMessage at 1 2 3 4, lookup_timer. simpl.
    rewrite Hget, Hr. simpl.
    rewrite !run_S. unfold step at 1 2 3 4. simpl. unfold lookup_timer. simpl.
    rewrite Hget. rewrite list_lookup_insert_eq by done. simpl.
    rewrite !run_O. unfold idle, step, main_step. simpl. rewrite Hsch, Hto.
    repeat split; try done. rewrite <- !app_assoc. done.
  - replace (2 * S n + 2)%nat with (S (S (2 * n + 2))) by lia.
    destruct Hwt as (wt & Hwget & Hwty & Hwrem & Hwd).
    assert (Hlt : (r < length (heap s))%nat) by (by eapply lookup_lt_Some).
    remember (2 * n + 2)%nat as m eqn:Hm.
    rewrite !(run_S (S m)). unfold step at 1 2 3 4. rewrite Hw, Hin, Hout.
    cbv beta iota.
    unfold handleWorkerMessage at 1 2 3 4, lookup_timer. simpl.
    rewrite Hget, Hr. simpl.
    rewrite !(run_S m). unfold step at 1 2 3 4. simpl. rewrite Hsch.
    match goal with
    | |- context [run m ?s1] => set (s1' := s1)
    end.
    subst m.
    match goal with
    | s1' := set_worker _ (Some ?w1) _ |- _ =>
        specialize (IH s1' w1 r
          (set_counts t (Z.of_nat (S n)) (d - Z.of_nat (S n))))
    end.
    destruct IH as (H1 & H2 & H3 & H4); try done.
    { rewrite <- Hwd. apply worker_updateTimer_after; try done. }
    { subst s1'. simpl. by rewrite list_lookup_insert_eq. }
    split; [done|]. rewrite H2, H3, H4. subst s1'. simpl.
    rewrite <- !app_assoc. done.
Qed.


(** **** A countdown from start to completion *)

(** From a quiet scheduler, [startCountdown] of [n + 1] seconds followed by
    the subscription of [extra] listeners runs to completion, under
    whichever strategy the scheduler has: the outputs are those of the [n + 1]
    ticks and of [complete], and the timer is gone. *)
Lemma countdown_runs_with (s0 : Service) (n : nat) (o : Options) (now : Z)
    (extra : list Listener) :
  quiet s0 → plain o →
  let d := Z.of_nat (S n) in
  let s1 := (startCountdown d o now s0).1 in
  let k := (startCountdown d o now s0).2 in
  let s := set_listeners s1 (listeners s1 ++ extra) in
  ∃ m, idle (run m s) ∧
       trace (run m s)
         = trace s0 ++ countdown_outputs (canVibrate s0) (listeners s0 ++ extra)
                         k d (S n) ∧
       activeTimers (run m s) = JsMap.delete k (JsMap.set k (length (heap s0))
                                                  (activeTimers s0)).
Proof.
  intros [Hto Hq] (Ho1 & Ho2 & Ho3 & Ho4 & Ho5 & Ho6) d s1 k s.
  subst s s1 k. unfold startCountdown, generateTimerId, launch, delegated.
  simpl. destruct (worker s0) as [w|] eqn:Hw.
  - destruct Hq as (Hsup & Hin & Hout & Hsch). rewrite Hsup.
    unfold postMessage. simpl. rewrite Hw. simpl.
    set (k := "timer_" +:+ JsString.toString (nextTimerId s0) +:+ "_"
              +:+ JsString.toString now).
    exists (S (2 * n + 2)).
    remember (2 * n + 2)%nat as m eqn:Hm.
    rewrite !(run_S m). unfold step at 1 2 3. simpl. rewrite Hin. simpl.
    match goal with
    | |- context [run m ?s1] => set (s1' := s1)
    end.
    subst m.
    match goal with
    | s1' := set_worker _ (Some ?w1) _ |- _ =>
        pose proof (worker_countdown_run n s1' w1 k d (length (heap s0))) as Hrun
    end.
    edestruct Hrun as (H1 & H2 & H3 & H4); try done.
    { pose proof (worker_updateTimer_after
        (worker_with_timers
           {| timers := timers w; scheduled := scheduled w; inbox := [];
              outbox := outbox w |}
           (JsMap.set k {| w_type := countdown; w_duration := d; w_remaining := d;
                           w_elapsed := 0; w_active := true |} (timers w)))
        {| w_type := countdown; w_duration := d; w_remaining := d;
           w_elapsed := 0; w_active := true |} k n) as Hupd.
      simpl in Hupd. apply Hupd; try done. apply get_set_eq. }
    { subst s1'. simpl. apply get_set_eq. }
    { subst s1'. simpl. apply list_lookup_middle. done. }
  - set (k := "timer_" +:+ JsString.toString (nextTimerId s0) +:+ "_"
              +:+ JsString.toString now).
    assert (Hdel : (if isWorkerSupported s0 then @None Worker else None) = None)
      by (by destruct (isWorkerSupported s0)).
    rewrite Hdel. unfold startMainThreadTimer, schedule. simpl.
    rewrite list_lookup_middle by done. simpl.
    exists (S n).
    match goal with
    | |- context [run (S n) ?s1] => set (s1' := s1)
    end.
    match goal with
    | s1' := set_listeners (store _ ?t1 _) _ |- _ =>
        pose proof (main_countdown_run n s1' (length (heap s0)) (nextTimeout s0) t1)
          as Hrun
    end.
    simpl in Hrun. rewrite Ho1, Ho2, Ho3, Ho4, Ho6 in Hrun. simpl in Hrun.
    destruct Hrun as (H1 & H2 & H3 & H4); try done.
    { apply list_lookup_insert_eq. rewrite length_app. simpl. lia. }
    { apply get_set_eq. }
    { by rewrite Hto. }
Qed.


Lemma delete_set_fresh {V : Type} (k : string) (v : V) :
  JsMap.delete k (JsMap.set k v []) = [].
Proof. simpl. by rewrite String.eqb_refl. Qed.


Lemma events_countdown_outputs (cv : bool) (k : string) (d : Z) (n : nat) :
  events (countdown_outputs cv [] k d n) = countdown_events k d n.
Proof. induction n as [|n IH]; simpl; [done|]. by rewrite <- IH. Qed.

(** The events of a countdown, spelled out: ticks whose [remaining] runs
    through [n-1], ..., [1], [0], then one [complete]. *)
Lemma countdown_events_shape (k : string) (d : Z) (n : nat) :
  countdown_events k d n
  = map (λ j, tick k (Z.of_nat j) (d - Z.of_nat j)) (rev (seq 0 n)) ++ [complete k].
Proof.
  induction n as [|n IH]; [done|].
  rewrite seq_S, rev_app_distr. simpl. by rewrite IH.
Qed.

(** X28.  For every [N ≥ 1], a countdown of [N] seconds started on a fresh
    scheduler and left alone puts out [N] ticks with [remaining] going from
    [N - 1] down to [0] and then [complete], once, under the delegated
    strategy ([workerAvailable = true]) and under the cooperative one alike;
    then nothing is due and no timer is left. *)
Lemma countdown_ticks_both_strategies (workerAvailable cv : bool) (n : nat)
    (o : Options) (now : Z) :
  plain o →
  let s := (startCountdown (Z.of_nat (S n)) o now (create workerAvailable cv)).1 in
  let k := (startCountdown (Z.of_nat (S n)) o now (create workerAvailable cv)).2 in
  ∃ m, idle (run m s) ∧
       events (trace (run m s))
         = map (λ j, tick k (Z.of_nat j) (Z.of_nat (S n) - Z.of_nat j))
             (rev (seq 0 (S n))) ++ [complete k] ∧
       activeTimers (run m s) = [].
Proof.
  intros Ho s k.
  destruct (countdown_runs_with (create workerAvailable cv) n o now [])
    as (m & H1 & H2 & H3); [|done|].
  { split; [done|]. by destruct workerAvailable. }
  exists m. fold k in H2, H3.
  assert (Hs : set_listeners
                 (startCountdown (Z.of_nat (S n)) o now (create workerAvailable cv)).1
                 (listeners
                    (startCountdown (Z.of_nat (S n)) o now
                       (create workerAvailable cv)).1 ++ []) = s).
  { subst s. unfold startCountdown, generateTimerId, launch, delegated,
      postMessage, startMainThreadTimer, schedule. simpl.
    by destruct workerAvailable. }
  rewrite Hs in H1, H2, H3. split; [done|]. split.
  - rewrite H2. simpl trace. simpl listeners. simpl canVibrate.
    rewrite app_nil_l, events_countdown_outputs. apply countdown_events_shape.
  - rewrite H3. apply delete_set_fresh.
Qed.


(** *** Pausing and stopping *)

(** C3.  Under the delegated strategy a paused timer keeps ticking.  The
    countdown of three seconds is paused after its first tick: [pause]
    returns [true] and the timer's status is [paused], yet the worker, whose
    [updateTimer] never reads the [active] flag that ['pause'] clears,
    goes on, and the scheduler relays [tick] with 1 and 0 seconds remaining
    and [complete] and drops the timer. *)
Theorem paused_timer_ticks_when_delegated :
  let k := (first_tick true).2 in
  let s := (paused_after_first_tick true).1 in
  (paused_after_first_tick true).2 = true ∧
  (status <$> getTimer k s) = Some paused ∧
  events (trace s) = [tick k 2 1; paused_event k] ∧
  events (trace (run 10 s))
    = [tick k 2 1; paused_event k; tick k 1 2; tick k 0 3; complete k] ∧
  getTimer k (run 10 s) = None.
Proof. vm_compute. repeat split. Qed.

(** The cooperative strategy does what the specification asks: after
    [pause] nothing is due and nothing more is emitted. *)
Lemma paused_timer_silent_when_cooperative :
  let k := (first_tick false).2 in
  let s := (paused_after_first_tick false).1 in
  (paused_after_first_tick false).2 = true ∧
  (status <$> getTimer k s) = Some paused ∧
  idle s ∧
  events (trace (run 10 s)) = [tick k 2 1; paused_event k].
Proof. vm_compute. repeat split. Qed.

(** A stopped timer is silent under both strategies. *)
Lemma stopped_timer_silent (workerAvailable : bool) :
  let k := (first_tick workerAvailable).2 in
  let s := (stopped_after_first_tick workerAvailable).1 in
  (stopped_after_first_tick workerAvailable).2 = true ∧
  getTimer k s = None ∧
  events (trace (run 10 s)) = [tick k 2 1; stopped k].
Proof. destruct workerAvailable; vm_compute; repeat split. Qed.

(** *** Starting a countdown *)

(** C5, as the code has it.  [startCountdown] checks nothing: whatever the
    duration [d], it registers a timer under the id it returns.  The timer
    is a countdown that is running with [remaining = d] unless [options]
    carries those properties itself, in which case they prevail. *)
Theorem startCountdown_any_duration (d : Z) (o : Options) (now : Z) (s : Service) :
  let s' := (startCountdown d o now s).1 in
  let k := (startCountdown d o now s).2 in
  ∃ t, getTimer k s' = Some t ∧
       type t = or_default (o_type o) countdown ∧
       duration t = or_default (o_duration o) d ∧
       remaining t = or_default (o_remaining o) d ∧
       status t = or_default (o_status o) running ∧
       id t = or_default (o_id o) k ∧
       startTime t = or_default (o_startTime o) now.
Proof.
  unfold startCountdown, generateTimerId, launch, getTimer, lookup_timer. simpl.
  set (k := "timer_" +:+ JsString.toString (nextTimerId s) +:+ "_"
            +:+ JsString.toString now).
  unfold delegated. simpl.
  destruct (if isWorkerSupported s then worker s else None) as [w|] eqn:Hd.
  - unfold postMessage. simpl.
    destruct (worker s); simpl; rewrite get_set_eq, list_lookup_middle by done;
      simpl; eexists; split; done.
  - unfold startMainThreadTimer, schedule. simpl.
    rewrite list_lookup_middle by done. simpl. rewrite get_set_eq.
    rewrite list_lookup_insert_eq by (rewrite length_app; simpl; lia).
    simpl. eexists; split; done.
Qed.

(** No duration is refused: with 0 and with -5 seconds a timer is created
    and an id returned, and the countdown then ticks once, below zero. *)
Lemma startCountdown_accepts_nonpositive :
  let r0 := startCountdown 0 no_options 1700000000000 (create false false) in
  let r5 := startCountdown (-5) no_options 1700000000000 (create true false) in
  r0.2 = "timer_1_1700000000000" ∧
  (remaining <$> getTimer r0.2 r0.1) = Some 0 ∧
  (status <$> getTimer r0.2 r0.1) = Some running ∧
  events (trace (run 10 r0.1)) = [tick r0.2 (-1) 1; complete r0.2] ∧
  (remaining <$> getTimer r5.2 r5.1) = Some (-5) ∧
  events (trace (run 10 r5.1)) = [tick r5.2 (-6) 1; complete r5.2].
Proof. vm_compute. repeat split. Qed.

(** *** Rest timers *)




(** *** Suspension *)

(** A running countdown whose time ran out while the page was suspended:
    [complete] is emitted at once and no timer is created. *)
Lemma restore_expired (s : Service) (k : string) (t : Timer) (real lapsed now : Z) :
  status t = running → type t = countdown →
  duration t - (real + lapsed) ≤ 0 →
  restore_entry lapsed now s (k, (t, real)) = emit (complete k) s.
Proof.
  intros Hst Hty Hrem. unfold restore_entry. rewrite Hst, Hty. simpl.
  destruct (Z.ltb_spec 0 (duration t - (real + lapsed))); [lia|done].
Qed.

(** The scenario of the specification: saved with 10 of 30 seconds left,
    restored 15 seconds later. *)
Lemma restore_after_15_completes (workerAvailable : bool) :
  let s := restoreState (Some (saved_at_10 workerAvailable)) 1035000
             (create workerAvailable false) in
  trace s = [Emitted (complete "timer_1_1000000")] ∧ activeTimers s = [] ∧ idle s.
Proof. destruct workerAvailable; vm_compute; repeat split. Qed.

(** C4.  A running countdown with time left at restoration: [restoreState]
    computes [remaining = duration - (realElapsed + timeLapsed)] and passes
    it to [startCountdown], but the snapshot, spread over the new timer as
    its options, puts the saved [remaining], [duration], [elapsed] and
    [startTime] back, and the old id into the [id] property.  The timer
    registered under the new id is the saved one, not one with the computed
    time left. *)
Theorem restore_recreates_saved_timer (s : Service) (k : string) (t : Timer)
    (real lapsed now : Z) :
  status t = running → type t = countdown →
  0 < duration t - (real + lapsed) →
  let s' := restore_entry lapsed now s (k, (t, real)) in
  let k' := (generateTimerId now s).2 in
  ∃ t', getTimer k' s' = Some t' ∧
        remaining t' = remaining t ∧ duration t' = duration t ∧
        elapsed t' = elapsed t ∧ startTime t' = startTime t ∧ id t' = k.
Proof.
  intros Hst Hty Hrem s' k'. subst s' k'. unfold restore_entry.
  rewrite Hst, Hty.
  destruct (Z.ltb_spec 0 (duration t - (real + lapsed))) as [_|?]; [|lia].
  rewrite bool_decide_eq_true_2 by done.
  unfold getTimer, lookup_timer, startCountdown, generateTimerId, launch,
    delegated, postMessage, startMainThreadTimer, schedule. simpl.
  destruct (isWorkerSupported s), (worker s); simpl;
    rewrite ?get_set_eq; rewrite ?list_lookup_middle by done; simpl;
    rewrite ?get_set_eq;
    rewrite ?list_lookup_insert_eq by (rewrite length_app; simpl; lia); simpl;
    eexists; (split; [reflexivity|]); done.
Qed.

Lemma restore_recreates_saved_timer_witness :
  ∃ t', getTimer "timer_1_1025000"
          (restoreState (Some (saved_at_10 false)) 1025000 (create false false))
        = Some t' ∧
        remaining t' = 10 ∧ duration t' = 30 ∧ elapsed t' = 20 ∧
        startTime t' = 1000000 ∧ id t' = "timer_1_1000000".
Proof.
  pose proof (restore_recreates_saved_timer (create false false) "timer_1_1000000"
    {| id := "timer_1_1000000"; type := countdown; duration := 30;
       remaining := 10; elapsed := 20; status := running; startTime := 1000000;
       pausedTime := None; intervalId := Some 21%nat; name := None;
       autoNotify := None; vibrate := None; sound := None; realElapsed := None |}
    20 5 1025000 eq_refl eq_refl) as H.
  simpl in H. apply H. lia.
Defined.

(** On the restored scheduler of the witness the time left is 5 seconds, the
    timer says 10, and under the cooperative strategy it never ticks: its
    callback looks for the old id among the active timers.  Under the
    delegated strategy the worker was given the 5 seconds and the ticks
    arrive, under the new id. *)
Lemma restored_timer_after_5 :
  let s := restoreState (Some (saved_at_10 false)) 1025000 (create false false) in
  let s' := restoreState (Some (saved_at_10 true)) 1025000 (create true false) in
  (remaining <$> getTimer "timer_1_1025000" s) = Some 10 ∧
  trace (run 50 s) = [] ∧
  (remaining <$> getTimer "timer_1_1025000" (run 50 s)) = Some 10 ∧
  (remaining <$> getTimer "timer_1_1025000" s') = Some 10 ∧
  events (trace (run 50 s'))
    = countdown_events "timer_1_1025000" 5 5.
Proof. vm_compute. repeat split. Qed.

End TimerFacts.

(** ** Formatting and parsing times *)

Module TimeFormatFacts.
Import Js JsString TimerService.

Lemma append_cons (c : ascii) (a b : string) :
  String c a +:+ b = String c (a +:+ b).
Proof. reflexivity. Qed.

Lemma append_nil_l (b : string) : "" +:+ b = b.
Proof. reflexivity. Qed.

Lemma append_assoc (a b c : string) : (a +:+ b) +:+ c = a +:+ (b +:+ c).
Proof.
  induction a as [|x a IH]; [done|]. rewrite !append_cons. by rewrite IH.
Qed.

Lemma digit_value_char (d : Z) : 0 ≤ d ≤ 9 → digit_value (digit_char d) = Some d.
Proof.
  intros Hd.
  assert (d = 0 ∨ d = 1 ∨ d = 2 ∨ d = 3 ∨ d = 4 ∨ d = 5 ∨ d = 6 ∨ d = 7 ∨ d = 8
          ∨ d = 9) as Hc by lia.
  repeat (destruct Hc as [->|Hc]; [reflexivity|]). by subst.
Qed.

Lemma digits_fuel_app (f : nat) (n : Z) (acc : string) :
  digits_fuel f n acc = digits_fuel f n "" +:+ acc.
Proof.
  revert n acc. induction f as [|f IH]; intros n acc; simpl; [done|].
  destruct (n <? 10); [done|].
  rewrite (IH _ (String _ acc)), (IH _ (String _ "")).
  by rewrite append_assoc.
Qed.

Lemma all_digits_app (a b : string) :
  all_digits (a +:+ b) = all_digits a && all_digits b.
Proof.
  induction a as [|c a IH]; [done|]. rewrite append_cons. simpl.
  by destruct (digit_value c).
Qed.

Lemma dvalue_app (a b : string) (acc : Z) :
  dvalue (a +:+ b) acc = dvalue b (dvalue a acc).
Proof.
  revert acc. induction a as [|c a IH]; intros acc; [done|].
  rewrite append_cons. simpl. apply IH.
Qed.

(** The digits [digits_fuel] writes are digits, at least one, and denote the
    number, as long as the fuel covers the binary length. *)
Lemma digits_fuel_spec (f : nat) (n : Z) :
  0 ≤ n < 2 ^ (Z.of_nat f + 1) →
  all_digits (digits_fuel (S f) n "") = true ∧
  digits_fuel (S f) n "" ≠ "" ∧
  dvalue (digits_fuel (S f) n "") 0 = n.
Proof.
  revert n. induction f as [|f IH]; intros n Hn.
  - change (2 ^ (Z.of_nat 0 + 1)) with 2 in Hn.
    cbn [digits_fuel]. destruct (Z.ltb_spec n 10) as [_|?]; [|lia].
    rewrite Z.mod_small by lia.
    cbn [all_digits dvalue]. rewrite digit_value_char by lia. done.
  - cbn [digits_fuel]. destruct (Z.ltb_spec n 10) as [Hlt|Hge].
    + rewrite Z.mod_small by lia.
      cbn [all_digits dvalue]. rewrite digit_value_char by lia. done.
    + change (if n / 10 <? 10 then _ else _) with
        (digits_fuel (S f) (n / 10) (String (digit_char (n mod 10)) "")).
      rewrite digits_fuel_app.
      destruct (IH (n / 10)) as (H1 & H2 & H3).
      { split; [apply Z.div_pos; lia|].
        apply Z.div_lt_upper_bound; [lia|].
        replace (Z.of_nat (S f) + 1) with (Z.succ (Z.of_nat f + 1)) in Hn by lia.
        rewrite Z.pow_succ_r in Hn by lia. lia. }
      assert (Hd : 0 ≤ n mod 10 ≤ 9) by (pose proof (Z.mod_pos_bound n 10); lia).
      rewrite all_digits_app, dvalue_app, H1, H3.
      cbn [all_digits dvalue]. rewrite digit_value_char by done.
      split; [done|]. split.
      * destruct (digits_fuel (S f) (n / 10) ""); [done|].
        by rewrite append_cons.
      * change (default 0 (Some (n mod 10))) with (n mod 10).
        pose proof (Z.div_mod n 10). lia.
Qed.

Lemma digits_spec (n : Z) :
  0 ≤ n →
  all_digits (digits n) = true ∧ digits n ≠ "" ∧ dvalue (digits n) 0 = n.
Proof.
  intros Hn. unfold digits. apply digits_fuel_spec.
  split; [done|]. rewrite Z2Nat.id by apply Z.log2_nonneg.
  destruct (Z.eq_dec n 0) as [->|]; [done|].
  pose proof (Z.log2_spec n). replace (Z.log2 n + 1) with (Z.succ (Z.log2 n)) by lia.
  lia.
Qed.


Lemma parse_digits_all (s : string) (acc : Z) (seen : bool) :
  all_digits s = true → s ≠ "" ∨ seen = true →
  parse_digits s acc seen = Num (dvalue s acc).
Proof.
  revert acc seen. induction s as [|c r IH]; intros acc seen Hall Hne.
  - destruct Hne as [?| ->]; done.
  - cbn [all_digits parse_digits dvalue] in *.
    destruct (digit_value c) as [d|]; [|done].
    apply IH; [done|by right].
Qed.

(** A digit is neither white space, nor a sign, nor a colon. *)
Lemma parseInt_digit_first (c : ascii) (r : string) :
  digit_value c ≠ None →
  parseInt (String c r) = as_double (parse_digits (String c r) 0 false).
Proof.
  destruct c as [[] [] [] [] [] [] [] []]; intros H; try reflexivity;
    exfalso; apply H; reflexivity.
Qed.

Lemma digit_not_colon (c : ascii) :
  digit_value c ≠ None → Ascii.eqb c ":" = false.
Proof.
  destruct c as [[] [] [] [] [] [] [] []]; intros H; try reflexivity;
    exfalso; apply H; reflexivity.
Qed.

(** Up to [2^53] nothing is rounded. *)
Lemma to_double_exact (z : Z) : Z.abs z ≤ 2 ^ 53 → to_double z = z.
Proof.
  intros Hz. unfold to_double, fits.
  by destruct (Z.leb_spec (Z.abs z) (2 ^ 53)); [|lia].
Qed.

Lemma floor_div_exact (a b : Z) : Z.abs a ≤ 2 ^ 53 → floor_div a b = a / b.
Proof.
  intros Ha. unfold floor_div, fits.
  by destruct (Z.leb_spec (Z.abs a) (2 ^ 53)); [|lia].
Qed.

Lemma number_toString_exact (n : Z) :
  0 ≤ n ≤ 2 ^ 53 → number_toString n = digits n.
Proof.
  intros Hn. unfold number_toString, unsigned_toString.
  destruct (Z.ltb_spec n 0); [lia|].
  by destruct (Z.leb_spec n (2 ^ 53)); [|lia].
Qed.

Lemma parseInt_digits (s : string) :
  all_digits s = true → s ≠ "" → parseInt s = Num (to_double (dvalue s 0)).
Proof.
  intros Hall Hne. destruct s as [|c r]; [done|].
  rewrite parseInt_digit_first.
  - by rewrite parse_digits_all; [|done|left].
  - cbn [all_digits] in Hall. by destruct (digit_value c).
Qed.

Lemma split_digits (a : string) : all_digits a = true → split ":" a = [a].
Proof.
  induction a as [|c a IH]; intros Hall; [done|].
  cbn [all_digits split] in *. destruct (digit_value c) eqn:Hc; [|done].
  rewrite digit_not_colon by congruence. by rewrite IH.
Qed.

Lemma split_digits_colon (a b : string) :
  all_digits a = true → split ":" (a +:+ String ":" b) = a :: split ":" b.
Proof.
  induction a as [|c a IH]; intros Hall; [done|].
  rewrite append_cons. cbn [all_digits split] in *.
  destruct (digit_value c) eqn:Hc; [|done].
  rewrite digit_not_colon by congruence. by rewrite IH.
Qed.

(** A number padded to two places is a string of digits that denotes it. *)
Lemma pad2_spec (n : Z) :
  0 ≤ n ≤ 2 ^ 53 →
  all_digits (pad2 n) = true ∧ pad2 n ≠ "" ∧ dvalue (pad2 n) 0 = n.
Proof.
  intros Hn. unfold pad2. rewrite number_toString_exact by done.
  destruct (digits_spec n (proj1 Hn)) as (H1 & H2 & H3).
  destruct (digits n) as [|c [|c' r]]; [done| |].
  - unfold padStart. cbn [String.length Nat.sub repeat string_of_list_ascii].
    rewrite append_cons, append_nil_l. cbn [all_digits dvalue] in *.
    change (digit_value "0") with (Some 0). cbn [default]. done.
  - unfold padStart. cbn [String.length Nat.sub repeat string_of_list_ascii].
    by rewrite append_nil_l.
Qed.

Lemma parseInt_pad2 (n : Z) : 0 ≤ n ≤ 2 ^ 53 → parseInt (pad2 n) = Num n.
Proof.
  intros Hn. destruct (pad2_spec n Hn) as (H1 & H2 & H3).
  rewrite parseInt_digits, H3 by done. rewrite to_double_exact; [done|lia].
Qed.

(** Hours, minutes and seconds that add up to at most [2^53] are added up
    without rounding. *)
Lemma hms_exact (h m x : Z) :
  0 ≤ h → 0 ≤ m → 0 ≤ x → h * 3600 + m * 60 + x ≤ 2 ^ 53 →
  add (add (mul (Num h) (Num 3600)) (mul (Num m) (Num 60))) (Num x)
  = Num (h * 3600 + m * 60 + x).
Proof.
  intros Hh Hm Hx Hle. cbn [mul add].
  rewrite (to_double_exact (h * 3600)), (to_double_exact (m * 60)) by lia.
  rewrite (to_double_exact (h * 3600 + m * 60)) by lia.
  rewrite to_double_exact by lia. done.
Qed.

Lemma ms_exact (m x : Z) :
  0 ≤ m → 0 ≤ x → m * 60 + x ≤ 2 ^ 53 →
  add (mul (Num m) (Num 60)) (Num x) = Num (m * 60 + x).
Proof.
  intros Hm Hx Hle. cbn [mul add].
  rewrite (to_double_exact (m * 60)) by lia.
  rewrite to_double_exact by lia. done.
Qed.

(** C8.  [parseTime] undoes [formatTime] on every number of seconds from 0
    to [Number.MAX_SAFE_INTEGER]: on those below one hour, which
    [formatTime(s)] writes as [MM:SS], and, with [includeHours = true], on
    all of them; and also on those of an hour or more that [formatTime(s)]
    writes as [HH:MM:SS] by itself. *)
Theorem parseTime_formatTime (s : Z) :
  0 ≤ s ≤ MAX_SAFE_INTEGER →
  (s / 3600 = 0 → formatTime s false = pad2 (s / 60) +:+ ":" +:+ pad2 (s mod 60) ∧
                  parseTime (formatTime s false) = Num s) ∧
  parseTime (formatTime s true) = Num s ∧
  ∀ includeHours, parseTime (formatTime s includeHours) = Num s.
Proof.
  unfold MAX_SAFE_INTEGER. intros Hs.
  assert (Hfd : floor_div s 3600 = s / 3600) by (apply floor_div_exact; lia).
  pose proof (Z.div_mod s 3600) as Hdm. pose proof (Z.div_mod (s mod 3600) 60) as Hdm'.
  pose proof (Z.mod_pos_bound s 3600) as Hb1. pose proof (Z.mod_pos_bound s 60) as Hb2.
  pose proof (Z.mod_pos_bound (s mod 3600) 60) as Hb3.
  assert (Hmm : s mod 60 = (s mod 3600) mod 60).
  { symmetry. apply Z.mod_mod_divide. by exists 60. }
  assert (Hh : 0 ≤ s / 3600 ≤ 2 ^ 53).
  { split; [apply Z.div_pos; lia|]. apply Z.div_le_upper_bound; lia. }
  assert (Hr1 : Z.rem s 3600 = s mod 3600) by (apply Z.rem_mod_nonneg; lia).
  assert (Hr2 : Z.rem s 60 = s mod 60) by (apply Z.rem_mod_nonneg; lia).
  assert (Hm : 0 ≤ s mod 3600 / 60 ≤ 2 ^ 53).
  { split; [apply Z.div_pos; lia|]. apply Z.div_le_upper_bound; lia. }
  assert (Hsec : 0 ≤ s mod 60 ≤ 2 ^ 53) by lia.
  assert (Hlong : parseTime (pad2 (s / 3600) +:+ ":" +:+ pad2 (s mod 3600 / 60)
                               +:+ ":" +:+ pad2 (s mod 60)) = Num s).
  { unfold parseTime.
    destruct (pad2_spec _ Hh) as (A1 & _), (pad2_spec _ Hm) as (B1 & _),
      (pad2_spec _ Hsec) as (C1 & _).
    rewrite !(append_cons ":" ""), !append_nil_l.
    rewrite !split_digits_colon, split_digits by done.
    cbn [map]. rewrite !parseInt_pad2 by done.
    rewrite hms_exact by lia. f_equal. lia. }
  assert (Hshort : s / 3600 = 0 →
            parseTime (pad2 (s mod 3600 / 60) +:+ ":" +:+ pad2 (s mod 60)) = Num s).
  { intros H0. unfold parseTime.
    destruct (pad2_spec _ Hm) as (B1 & _), (pad2_spec _ Hsec) as (C1 & _).
    rewrite !(append_cons ":" ""), !append_nil_l.
    rewrite !split_digits_colon, split_digits by done.
    cbn [map]. rewrite !parseInt_pad2 by done.
    rewrite ms_exact by lia. f_equal. lia. }
  assert (Hall : ∀ b, parseTime (formatTime s b) = Num s).
  { intros b. unfold formatTime. rewrite Hfd, Hr1, Hr2.
    destruct (b || (0 <? s / 3600)) eqn:Hb; [done|].
    apply Hshort. apply orb_false_iff in Hb as [_ Hb].
    apply Z.ltb_ge in Hb. lia. }
  split; [|split; [apply Hall|apply Hall]].
  intros H0. split; [|apply Hall].
  unfold formatTime. rewrite Hfd, Hr1, Hr2, H0. cbn [orb Z.ltb Z.compare].
  f_equal. f_equal. rewrite Z.mod_small; [done|]. lia.
Qed.

Lemma parseTime_formatTime_witness :
  (formatTime 754 false = "12:34" ∧ parseTime (formatTime 754 false) = Num 754) ∧
  parseTime (formatTime 754 true) = Num 754.
Proof.
  destruct (parseTime_formatTime 754) as (H1 & H2 & _);
    [unfold MAX_SAFE_INTEGER; lia|].
  split; [|exact H2]. destruct H1 as [H1 H1']; [reflexivity|].
  split; [reflexivity|exact H1'].
Defined.

(** Beyond the safe integers [parseTime] does not undo [formatTime] on every
    number of seconds.  [3600 · 2^72] is a double; its hours, [2^72], are
    written with an exponent, of which [parseInt] reads the digit before the
    point. *)
Lemma formatTime_exponent_is_not_read_back :
  to_double (3600 * 2 ^ 72) = 3600 * 2 ^ 72 ∧
  formatTime (3600 * 2 ^ 72) true = "4.722366482869645e+21:00:00" ∧
  parseTime (formatTime (3600 * 2 ^ 72) true) = Num 14400 ∧
  ¬ (∀ s, 0 ≤ s → parseTime (formatTime s true) = Num s).
Proof.
  assert (H : parseTime (formatTime (3600 * 2 ^ 72) true) = Num 14400)
    by (vm_compute; reflexivity).
  split; [vm_compute; reflexivity|]. split; [vm_compute; reflexivity|].
  split; [exact H|]. intros Hall.
  specialize (Hall (3600 * 2 ^ 72) ltac:(lia)). rewrite H in Hall. discriminate Hall.
Qed.

(** What the strings look like. *)
Example formatTime_examples :
  formatTime 754 false = "12:34" ∧ formatTime 754 true = "00:12:34" ∧
  formatTime 3725 false = "01:02:05" ∧ formatTime 360000 true = "100:00:00" ∧
  formatTime 0 false = "00:00" ∧
  parseTime "12:34" = Num 754 ∧ parseTime "abc" = Num 0 ∧
  parseTime "1:xx" = NaN.
Proof. vm_compute. repeat split. Qed.

(** Numbers beyond [2^53] as the engine writes them. *)
Example number_toString_examples :
  number_toString (2 ^ 53) = "9007199254740992" ∧
  number_toString (2 ^ 60) = "1152921504606847000" ∧
  number_toString (10 ^ 21) = "1e+21" ∧
  number_toString (2 ^ 72) = "4.722366482869645e+21" ∧
  number_toString (- 2 ^ 72) = "-4.722366482869645e+21" ∧
  number_toString (to_double 123456789012345678901) = "123456789012345680000" ∧
  to_double (2 ^ 53 + 1) = 2 ^ 53 ∧ to_double (2 ^ 53 + 3) = 2 ^ 53 + 4 ∧
  floor_div (2 ^ 60) 3600 = 320255973501901 ∧
  parseInt "9007199254740993" = Num 9007199254740992.
Proof. vm_compute. repeat split. Qed.

End TimeFormatFacts.

(** ** Sessions: what the calls keep and what they leave alone *)

Module SessionFacts.
Import Store WorkoutService Scenario SessionShape.

Ltac call_m :=
  unfold run, startWorkout, completeSet, finishWorkout, pauseWorkout,
    resumeWorkout, updateExerciseWeight, bind, ret, throw, emit, dbGetWorkout,
    dbUpdateWorkout, dbCreateWorkout, getRoutine, Store.getWorkout,
    Store.updateWorkout, Store.createWorkout, Store.getRoutine; simpl.

(** X1.  A call of the engine that rejects has written nothing and emitted
    nothing: the world after it is the world before it. *)
Theorem rejected_call_changes_nothing (c : Call) (w : World) (e : Error) :
  (run c w).2 = Throw e → (run c w).1 = w.
Proof.
  destruct c as [rid newId now|workoutId sd now|workoutId now|workoutId now
                |workoutId now|workoutId exerciseIndex newWeight now]; call_m.
  - destruct (routines (db w) !! rid) as [r|]; simpl; [|done].
    destruct (workouts (db w) !! newId); simpl; done.
  - destruct (workouts (db w) !! workoutId) as [s|] eqn:Hs; simpl; [|done].
    case_bool_decide; simpl; [|done].
    destruct (Js.index (exercises s) (currentExerciseIndex s)); simpl; [|done].
    destruct (targetSets _ <=? _); simpl; [|done].
    destruct (_ <=? _); simpl; [|done].
    rewrite Hs. simpl. done.
  - destruct (workouts (db w) !! workoutId) as [s|]; simpl; [|done].
    case_bool_decide; simpl; done.
  - destruct (workouts (db w) !! workoutId) as [s|]; simpl; [|done].
    case_bool_decide; simpl; done.
  - destruct (workouts (db w) !! workoutId) as [s|]; simpl; done.
  - destruct (workouts (db w) !! workoutId) as [s|]; simpl; [|done].
    destruct (Js.index (exercises s) exerciseIndex); simpl; done.
Qed.

Lemma rejected_call_changes_nothing_witness :
  (run (CallCompleteSet "w1" as_target 9000) finished_once).1 = finished_once.
Proof.
  apply (rejected_call_changes_nothing _ _ WorkoutNotFoundOrNotActive).
  vm_compute. reflexivity.
Defined.

(** *** Sessions do not interfere *)

(** Every call keeps the sessions under their own ids. *)
Lemma run_keyed (c : Call) (w : World) : keyed (db w) → keyed (db (run c w).1).
Proof.
  intros Hk.
  destruct c as [rid newId now|workoutId sd now|workoutId now|workoutId now
                |workoutId now|workoutId exerciseIndex newWeight now]; call_m.
  - destruct (routines (db w) !! rid) as [r|]; simpl; [|done].
    destruct (workouts (db w) !! newId); simpl; [done|].
    by apply map_Forall_insert_2.
  - destruct (workouts (db w) !! workoutId) as [s|] eqn:Hs; simpl; [|done].
    case_bool_decide; simpl; [|done].
    destruct (Js.index (exercises s) (currentExerciseIndex s)); simpl; [|done].
    destruct (targetSets _ <=? _); simpl.
    + destruct (_ <=? _); simpl.
      * rewrite Hs. simpl. by apply map_Forall_insert_2.
      * by apply map_Forall_insert_2.
    + by apply map_Forall_insert_2.
  - destruct (workouts (db w) !! workoutId) as [s|]; simpl; [|done].
    case_bool_decide; simpl; [|done]. by apply map_Forall_insert_2.
  - destruct (workouts (db w) !! workoutId) as [s|]; simpl; [|done].
    case_bool_decide; simpl; [|done]. by apply map_Forall_insert_2.
  - destruct (workouts (db w) !! workoutId) as [s|]; simpl; [|done].
    by apply map_Forall_insert_2.
  - destruct (workouts (db w) !! workoutId) as [s|]; simpl; [|done].
    destruct (Js.index (exercises s) exerciseIndex); simpl; [|done].
    by apply map_Forall_insert_2.
Qed.

Lemma reachable_keyed (w0 w : World) :
  workouts (db w0) = ∅ → reachable w0 w → keyed (db w).
Proof.
  intros Hempty Hreach. induction Hreach as [|w c _ IH].
  - unfold keyed. rewrite Hempty. apply map_Forall_empty.
  - by apply run_keyed.
Qed.

(** The routines and the exercise definitions are never written by the
    session calls. *)
Lemma run_routines (c : Call) (w : World) :
  routines (db (run c w).1) = routines (db w) ∧
  exerciseStore (db (run c w).1) = exerciseStore (db w).
Proof.
  destruct c as [rid newId now|workoutId sd now|workoutId now|workoutId now
                |workoutId now|workoutId exerciseIndex newWeight now]; call_m.
  - destruct (routines (db w) !! rid) as [r|]; simpl; [|done].
    destruct (workouts (db w) !! newId); simpl; done.
  - destruct (workouts (db w) !! workoutId) as [s|] eqn:Hs; simpl; [|done].
    case_bool_decide; simpl; [|done].
    destruct (Js.index (exercises s) (currentExerciseIndex s)); simpl; [|done].
    destruct (targetSets _ <=? _); simpl; [|done].
    destruct (_ <=? _); simpl; [|done].
    rewrite Hs. simpl. done.
  - destruct (workouts (db w) !! workoutId) as [s|]; simpl; [|done].
    case_bool_decide; simpl; done.
  - destruct (workouts (db w) !! workoutId) as [s|]; simpl; [|done].
    case_bool_decide; simpl; done.
  - destruct (workouts (db w) !! workoutId) as [s|]; simpl; done.
  - destruct (workouts (db w) !! workoutId) as [s|]; simpl; [|done].
    destruct (Js.index (exercises s) exerciseIndex); simpl; done.
Qed.

(** What a call does to the sessions other than its subject: nothing. *)
Lemma run_other (c : Call) (w : World) (k : string) :
  keyed (db w) → k ≠ subject c →
  workouts (db (run c w).1) !! k = workouts (db w) !! k.
Proof.
  intros Hk Hne.
  destruct c as [rid newId now|workoutId sd now|workoutId now|workoutId now
                |workoutId now|workoutId exerciseIndex newWeight now];
    simpl in Hne; call_m.
  - destruct (routines (db w) !! rid) as [r|]; simpl; [|done].
    destruct (workouts (db w) !! newId); simpl; [done|].
    by rewrite lookup_insert_ne.
  - destruct (workouts (db w) !! workoutId) as [s|] eqn:Hs; simpl; [|done].
    pose proof (Hk _ _ Hs) as Hid. simpl in Hid.
    case_bool_decide; simpl; [|done].
    destruct (Js.index (exercises s) (currentExerciseIndex s)); simpl; [|done].
    destruct (targetSets _ <=? _); simpl.
    + destruct (_ <=? _); simpl.
      * rewrite Hs. simpl. rewrite lookup_insert_ne; [done|congruence].
      * rewrite lookup_insert_ne; [done|congruence].
    + rewrite lookup_insert_ne; [done|congruence].
  - destruct (workouts (db w) !! workoutId) as [s|] eqn:Hs; simpl; [|done].
    pose proof (Hk _ _ Hs) as Hid. simpl in Hid.
    case_bool_decide; simpl; [|done]. rewrite lookup_insert_ne; [done|congruence].
  - destruct (workouts (db w) !! workoutId) as [s|] eqn:Hs; simpl; [|done].
    pose proof (Hk _ _ Hs) as Hid. simpl in Hid.
    case_bool_decide; simpl; [|done]. rewrite lookup_insert_ne; [done|congruence].
  - destruct (workouts (db w) !! workoutId) as [s|] eqn:Hs; simpl; [|done].
    pose proof (Hk _ _ Hs) as Hid. simpl in Hid.
    rewrite lookup_insert_ne; [done|congruence].
  - destruct (workouts (db w) !! workoutId) as [s|] eqn:Hs; simpl; [|done].
    pose proof (Hk _ _ Hs) as Hid. simpl in Hid.
    destruct (Js.index (exercises s) exerciseIndex); simpl; [|done].
    rewrite lookup_insert_ne; [done|congruence].
Qed.

(** A session that is stored stays stored. *)
Lemma run_keeps (c : Call) (w : World) (k : string) :
  keyed (db w) → is_Some (workouts (db w) !! k) →
  is_Some (workouts (db (run c w).1) !! k).
Proof.
  intros Hk Hsome. destruct (decide (k = subject c)) as [->|Hne].
  - destruct c as [rid newId now|workoutId sd now|workoutId now|workoutId now
                  |workoutId now|workoutId exerciseIndex newWeight now];
      simpl in Hsome |- *; call_m.
    + destruct (routines (db w) !! rid) as [r|]; simpl; [|done].
      destruct (workouts (db w) !! newId) eqn:E; simpl; [done|].
      rewrite lookup_insert_eq. done.
    + destruct (workouts (db w) !! workoutId) as [s|] eqn:Hs; simpl; [|done].
      pose proof (Hk _ _ Hs) as Hid. simpl in Hid.
      case_bool_decide; simpl; [|by rewrite Hs].
      destruct (Js.index (exercises s) (currentExerciseIndex s)); simpl;
        [|by rewrite Hs].
      destruct (targetSets _ <=? _); simpl.
      * destruct (_ <=? _); simpl.
        -- rewrite Hs. simpl. rewrite Hid, lookup_insert_eq. done.
        -- rewrite Hid, lookup_insert_eq. done.
      * rewrite Hid, lookup_insert_eq. done.
    + destruct (workouts (db w) !! workoutId) as [s|] eqn:Hs; simpl; [|done].
      pose proof (Hk _ _ Hs) as Hid. simpl in Hid.
      case_bool_decide; simpl; [|by rewrite Hs].
      rewrite Hid, lookup_insert_eq. done.
    + destruct (workouts (db w) !! workoutId) as [s|] eqn:Hs; simpl; [|done].
      pose proof (Hk _ _ Hs) as Hid. simpl in Hid.
      case_bool_decide; simpl; [|by rewrite Hs].
      rewrite Hid, lookup_insert_eq. done.
    + destruct (workouts (db w) !! workoutId) as [s|] eqn:Hs; simpl; [|done].
      pose proof (Hk _ _ Hs) as Hid. simpl in Hid.
      rewrite Hid, lookup_insert_eq. done.
    + destruct (workouts (db w) !! workoutId) as [s|] eqn:Hs; simpl; [|done].
      pose proof (Hk _ _ Hs) as Hid. simpl in Hid.
      destruct (Js.index (exercises s) exerciseIndex); simpl; [|by rewrite Hs].
      rewrite Hid, lookup_insert_eq. done.
  - by rewrite run_other.
Qed.

(** X2.  Sessions do not interfere.  In any world reached from a store
    without sessions, a call reads and writes only the session it is about:
    every other session is stored afterwards exactly as before, no stored
    session disappears, and the routines and exercise definitions are left
    alone. *)
Theorem calls_touch_one_session (w0 w : World) (c : Call) :
  workouts (db w0) = ∅ → reachable w0 w →
  (∀ k, k ≠ subject c → workouts (db (run c w).1) !! k = workouts (db w) !! k) ∧
  (∀ k, is_Some (workouts (db w) !! k) → is_Some (workouts (db (run c w).1) !! k)) ∧
  (∀ k s, workouts (db (run c w).1) !! k = Some s → id s = k) ∧
  routines (db (run c w).1) = routines (db w) ∧
  exerciseStore (db (run c w).1) = exerciseStore (db w).
Proof.
  intros Hempty Hreach.
  pose proof (reachable_keyed _ _ Hempty Hreach) as Hk.
  split; [|split; [|split]].
  - intros k Hne. by apply run_other.
  - intros k. by apply run_keeps.
  - intros k s Hs. by apply (run_keyed c w Hk k s).
  - apply run_routines.
Qed.

Lemma calls_touch_one_session_witness :
  let w := (run (CallPause "w1" 2000) started).1 in
  (∀ k, k ≠ "w1" → workouts (db w) !! k = workouts (db started) !! k) ∧
  (∀ k, is_Some (workouts (db started) !! k) → is_Some (workouts (db w) !! k)) ∧
  (∀ k s, workouts (db w) !! k = Some s → id s = k) ∧
  routines (db w) = routines (db started) ∧
  exerciseStore (db w) = exerciseStore (db started).
Proof.
  apply (calls_touch_one_session {| db := legs_day; emitted := [] |} started
           (CallPause "w1" 2000)).
  - reflexivity.
  - apply (reach_call _ _ (CallStart "r1" "w1" 1000)), reach_refl.
Defined.


(** *** Sessions advance in order *)

Lemma in_order_ext (s s' : Workout) :
  currentExerciseIndex s' = currentExerciseIndex s →
  currentSet s' = currentSet s → exercises s' = exercises s →
  in_order s → in_order s'.
Proof. unfold in_order. intros -> -> ->. done. Qed.

Lemma in_order_start (d : Database) (rid k rn : string) (now : Z)
    (d1 d2 d3 : option Z) :
  Forall (λ e, 1 ≤ ex_sets e) (exerciseStore d) →
  in_order
    {| id := k; routineId := rid; routineName := rn; status := active;
       currentExerciseIndex := 0; currentSet := 1;
       exercises := map snapshot (getExercisesByRoutine d rid);
       startTime := now; endTime := None; duration := 0; pausedAt := None;
       date := d1; createdAt := d2; updatedAt := d3 |}.
Proof.
  intros Hex.
  assert (Hall : Forall (λ p, completedSets p = 0 ∧ sets p = [] ∧ 1 ≤ targetSets p)
                   (map snapshot (getExercisesByRoutine d rid))).
  { apply Forall_fmap, Forall_forall. intros e He. simpl.
    unfold getExercisesByRoutine in He. apply list_elem_of_filter in He as [_ He].
    rewrite Forall_forall in Hex. split; [done|split; [done|]]. by apply Hex. }
  split; simpl.
  - destruct (map snapshot (getExercisesByRoutine d rid)); [by right|].
    left. simpl. lia.
  - intros j e Hj. pose proof (JsFacts.index_Some _ _ _ Hj) as Hb.
    unfold Js.index in Hj. destruct (j <? 0); [done|].
    rewrite Forall_lookup in Hall. apply Hall in Hj as (H1 & H2 & H3).
    split; [|split; [done|split; [lia|split; [lia|done]]]].
    intros i c. rewrite H2. done.
Qed.

(** The session object of [completeSet] after the set has been recorded,
    when it does not run past the last exercise. *)
Lemma in_order_push (s : Workout) (e : ExerciseProgress) (c : CompletedSet) :
  in_order s → exercise_ok e →
  Js.index (exercises s) (currentExerciseIndex s) = Some e →
  setNumber c = completedSets e + 1 →
  let advance := targetSets e <=? completedSets e + 1 in
  (advance = true → currentExerciseIndex s + 1 < Z.of_nat (length (exercises s))) →
  in_order
    (set_progress s (status s)
       (if advance then currentExerciseIndex s + 1 else currentExerciseIndex s)
       (if advance then 1 else currentSet s + 1)
       (Js.set_index (exercises s) (currentExerciseIndex s) (push_set e c))).
Proof.
  intros [Hpos Hall] [Hle Hlen] He Hc advance Hadv.
  pose proof (JsFacts.index_Some _ _ _ He) as Hb.
  destruct (Hall _ _ He) as (Hnum & Hone & _ & Hcur & _).
  destruct (Hcur eq_refl) as [Hroom Hset].
  split; simpl.
  - left. rewrite JsFacts.length_set_index. destruct advance; [|lia].
    specialize (Hadv eq_refl). lia.
  - intros j x. rewrite JsFacts.index_set_index. case_decide as Hij.
    + rewrite He. simpl. intros [= <-]. subst j. simpl.
      split; [|split; [done|]].
      * unfold numbered. simpl. intros i c'.
        destruct (decide (i < length (sets e))%nat) as [Hi|Hi].
        -- rewrite lookup_app_l by done. apply Hnum.
        -- rewrite lookup_app_r by lia.
           destruct (i - length (sets e))%nat eqn:Hd; simpl; [|done].
           intros [= <-]. lia.
      * subst advance.
        destruct (Z.leb_spec (targetSets e) (completedSets e + 1)); repeat split; lia.
    + intros Hx. destruct (Hall _ _ Hx) as (Hn & H1 & Hb4 & Hc4 & Ha4).
      split; [done|split; [done|]]. subst advance.
      destruct (Z.leb_spec (targetSets e) (completedSets e + 1)).
      * split; [intros; apply Hb4; lia|]. split.
        -- intros ->. destruct Ha4 as [H0 _]; [lia|]. lia.
        -- intros. apply Ha4. lia.
      * split; [done|]. split; [intros; lia|done].
Qed.

Lemma in_order_weight (s : Workout) (e : ExerciseProgress) (i x : Z) :
  in_order s → Js.index (exercises s) i = Some e →
  in_order
    (set_progress s (status s) (currentExerciseIndex s) (currentSet s)
       (Js.set_index (exercises s) i (set_targetWeight e x))).
Proof.
  intros [Hpos Hall] He. split; simpl.
  - rewrite JsFacts.length_set_index. destruct Hpos as [?|[? Hnil]]; [by left|].
    rewrite Hnil in He. unfold Js.index in He. destruct (i <? 0); done.
  - intros j y. rewrite JsFacts.index_set_index. case_decide as Hij.
    + rewrite He. simpl. intros [= <-]. subst j. by apply (Hall i e).
    + apply Hall.
Qed.

(** Every call keeps the stored sessions in order. *)
Lemma run_in_order (c : Call) (w : World) :
  store_ok (db w) → map_Forall (λ _ s, in_order s) (workouts (db w)) →
  map_Forall (λ _ s, in_order s) (workouts (db (run c w).1)).
Proof.
  intros [Hex Hws] Hin.
  destruct c as [rid newId now|workoutId sd now|workoutId now|workoutId now
                |workoutId now|workoutId exerciseIndex newWeight now]; call_m.
  - destruct (routines (db w) !! rid) as [r|]; simpl; [|done].
    destruct (workouts (db w) !! newId); simpl; [done|].
    apply map_Forall_insert_2; [|done]. by apply in_order_start.
  - destruct (workouts (db w) !! workoutId) as [s|] eqn:Hs; simpl; [|done].
    assert (Hok : stored_ok s) by (by eapply Hws).
    assert (Hio : in_order s) by (by eapply Hin).
    case_bool_decide as Hst; simpl; [|done].
    destruct (Js.index (exercises s) (currentExerciseIndex s)) as [e|] eqn:He;
      simpl; [|done].
    assert (Heok : exercise_ok e).
    { destruct Hok as [[_ Hall] _]. unfold Js.index in He.
      destruct (_ <? 0); [done|]. rewrite Forall_lookup in Hall. by eapply Hall. }
    pose proof (in_order_push s e
                  {| setNumber := completedSets e + 1;
                     reps := Js.or_else (sd_reps sd) (targetReps e);
                     weight := Js.or_else (sd_weight sd) (targetWeight e);
                     completedAt := now |} Hio Heok He eq_refl) as Hpush.
    simpl in Hpush.
    destruct (targetSets e <=? completedSets e + 1); simpl.
    + rewrite JsFacts.length_set_index.
      destruct (Z.leb_spec (Z.of_nat (length (exercises s)))
                  (currentExerciseIndex s + 1)) as [Hl|Hl]; simpl.
      * rewrite Hs. simpl. apply map_Forall_insert_2; [|done].
        by apply (in_order_ext s).
      * apply map_Forall_insert_2; [|done].
        eapply in_order_ext; [..|apply Hpush]; done.
    + apply map_Forall_insert_2; [|done].
      eapply in_order_ext; [..|apply Hpush]; done.
  - destruct (workouts (db w) !! workoutId) as [s|] eqn:Hs; simpl; [|done].
    case_bool_decide; simpl; [|done]. apply map_Forall_insert_2; [|done].
    apply (in_order_ext s); [done..|]. by eapply Hin.
  - destruct (workouts (db w) !! workoutId) as [s|] eqn:Hs; simpl; [|done].
    case_bool_decide; simpl; [|done]. apply map_Forall_insert_2; [|done].
    apply (in_order_ext s); [done..|]. by eapply Hin.
  - destruct (workouts (db w) !! workoutId) as [s|] eqn:Hs; simpl; [|done].
    apply map_Forall_insert_2; [|done].
    apply (in_order_ext s); [done..|]. by eapply Hin.
  - destruct (workouts (db w) !! workoutId) as [s|] eqn:Hs; simpl; [|done].
    destruct (Js.index (exercises s) exerciseIndex) as [e|] eqn:He; simpl; [|done].
    apply map_Forall_insert_2; [|done].
    eapply in_order_ext; [..|apply (in_order_weight s e exerciseIndex newWeight)];
      [done..| |done]. by eapply Hin.
Qed.

Lemma reachable_in_order (w0 w : World) :
  workouts (db w0) = ∅ →
  Forall (λ e, 1 ≤ ex_sets e) (exerciseStore (db w0)) →
  reachable w0 w →
  store_ok (db w) ∧ map_Forall (λ _ s, in_order s) (workouts (db w)).
Proof.
  intros Hempty Hex Hreach. induction Hreach as [|w c _ [IH1 IH2]].
  - split; [split; [done|]|]; rewrite Hempty; apply map_Forall_empty.
  - split; [by apply EngineFacts.run_store_ok|by apply run_in_order].
Qed.

(** X3.  Sessions advance in order.  Start from a store without sessions
    whose exercise definitions all ask for at least one set.  In every world
    the engine reaches, a stored session stands at an exercise (unless its
    routine had none); the exercises before it have all their sets, the
    current one has room left and [currentSet] is the number of its next
    set, the later ones have no set; and the sets of every exercise are
    numbered 1, 2, ... in the order they were recorded. *)
Theorem sessions_advance_in_order (w0 w : World) (k : string) (s : Workout) :
  workouts (db w0) = ∅ →
  Forall (λ e, 1 ≤ ex_sets e) (exerciseStore (db w0)) →
  reachable w0 w →
  workouts (db w) !! k = Some s →
  in_order s ∧
  (exercises s ≠ [] →
   ∃ e, getCurrentExercise s = Some e ∧ completedSets e < targetSets e ∧
        currentSet s = Z.of_nat (length (sets e)) + 1).
Proof.
  intros Hempty Hex Hreach Hs.
  destruct (reachable_in_order _ _ Hempty Hex Hreach) as [[_ Hok] Hin].
  pose proof (Hin _ _ Hs) as Hio. simpl in Hio. split; [done|].
  intros Hne. destruct Hio as [[Hpos|[_ Hnil]] Hall]; [|done].
  unfold getCurrentExercise.
  destruct (Z.leb_spec (Z.of_nat (length (exercises s))) (currentExerciseIndex s));
    [lia|].
  destruct (Js.index (exercises s) (currentExerciseIndex s)) as [e|] eqn:He.
  - exists e. destruct (Hall _ _ He) as (_ & _ & _ & Hcur & _).
    destruct (Hcur eq_refl) as [Hroom Hset].
    destruct (Hok _ _ Hs) as [[_ Hf] _]. unfold Js.index in He.
    destruct (_ <? 0); [done|]. rewrite Forall_lookup in Hf.
    destruct (Hf _ _ He) as [_ Hlen]. split; [done|split; [done|lia]].
  - unfold Js.index in He. destruct (Z.ltb_spec (currentExerciseIndex s) 0); [lia|].
    apply lookup_ge_None in He. lia.
Qed.

Lemma sessions_advance_in_order_witness :
  ∃ s, workouts (db (completeSet "w1" as_target 2000 started).1) !! "w1" = Some s ∧
       in_order s ∧
       (exercises s ≠ [] →
        ∃ e, getCurrentExercise s = Some e ∧ completedSets e < targetSets e ∧
             currentSet s = Z.of_nat (length (sets e)) + 1).
Proof.
  assert (H : ∃ s, workouts (db (completeSet "w1" as_target 2000 started).1) !! "w1"
                   = Some s) by (vm_compute; eauto).
  destruct H as [s Hs]. exists s. split; [done|].
  apply (sessions_advance_in_order {| db := legs_day; emitted := [] |}
           (completeSet "w1" as_target 2000 started).1 "w1" s).
  - reflexivity.
  - simpl. repeat constructor; simpl; lia.
  - apply (reach_call _ _ (CallCompleteSet "w1" as_target 2000)),
      (reach_call _ _ (CallStart "r1" "w1" 1000)), reach_refl.
  - done.
Defined.


(** *** Progress of a stored session *)

Lemma fold_sum_shift {A : Type} (f : A → Z) (l : list A) (a : Z) :
  fold_left (λ sum x, sum + f x) l a = a + fold_left (λ sum x, sum + f x) l 0.
Proof.
  revert a. induction l as [|x l IH]; intros a; simpl; [lia|].
  rewrite (IH (a + f x)), (IH (0 + f x)). lia.
Qed.

Lemma fold_sum_le {A : Type} (f g : A → Z) (l : list A) :
  Forall (λ x, f x ≤ g x) l →
  fold_left (λ sum x, sum + f x) l 0 ≤ fold_left (λ sum x, sum + g x) l 0.
Proof.
  induction 1 as [|x l Hx _ IH]; simpl; [lia|].
  rewrite (fold_sum_shift f l (0 + f x)), (fold_sum_shift g l (0 + g x)). lia.
Qed.

Lemma fold_sum_lt {A : Type} (f g : A → Z) (l : list A) (i : nat) (y : A) :
  Forall (λ x, f x ≤ g x) l → l !! i = Some y → f y < g y →
  fold_left (λ sum x, sum + f x) l 0 < fold_left (λ sum x, sum + g x) l 0.
Proof.
  intros Hall. revert i. induction Hall as [|x l Hx Hall IH]; intros i Hi Hy; [done|].
  simpl. rewrite (fold_sum_shift f l (0 + f x)), (fold_sum_shift g l (0 + g x)).
  destruct i as [|i]; simpl in Hi.
  - injection Hi as ->. pose proof (fold_sum_le f g l Hall). lia.
  - specialize (IH i Hi Hy). lia.
Qed.

Lemma fold_sum_sets (l : list ExerciseProgress) :
  Forall exercise_ok l →
  fold_left (λ sum ex, sum + completedSets ex) l 0
  = Z.of_nat (length (flat_map sets l)).
Proof.
  induction 1 as [|x l [_ Hx] _ IH]; simpl; [done|].
  rewrite fold_sum_shift, IH, length_app. lia.
Qed.

Lemma filter_prefix {A : Type} (P : A → bool) (l : list A) (n : nat) :
  (∀ j x, l !! j = Some x → P x = true ↔ (j < n)%nat) → (n ≤ length l)%nat →
  length (List.filter P l) = n.
Proof.
  revert n. induction l as [|a l IH]; intros n Hp Hn; simpl in *; [lia|].
  destruct n as [|n].
  - destruct (P a) eqn:Ha; [apply (Hp 0%nat a eq_refl) in Ha; lia|].
    apply (IH 0%nat); [|lia]. intros j x Hj.
    specialize (Hp (S j) x Hj). split; [intros Hx; apply Hp in Hx|]; lia.
  - destruct (P a) eqn:Ha.
    + simpl. f_equal. apply IH; [|lia]. intros j x Hj.
      specialize (Hp (S j) x Hj). rewrite Hp. lia.
    + assert (P a = true) by (apply (Hp 0%nat a eq_refl); lia). congruence.
Qed.

(** X4.  What [getWorkoutProgress] reports of a stored session, in any world
    the engine reaches from a store without sessions whose exercise
    definitions ask for at least one set each: [completedExercises] is
    [currentExerciseIndex], so [currentExercise] is one more;
    [completedSets] is the number of sets recorded; and when the session has
    exercises, [completedSets] is below [totalSets] and [completedExercises]
    below [totalExercises], whatever the status of the session. *)
Theorem progress_of_stored_session (percentage : Z → Z → Z) (w0 w : World)
    (k : string) (s : Workout) :
  workouts (db w0) = ∅ →
  Forall (λ e, 1 ≤ ex_sets e) (exerciseStore (db w0)) →
  reachable w0 w →
  workouts (db w) !! k = Some s →
  let p := getWorkoutProgress percentage (Some s) in
  p_totalExercises p = Z.of_nat (length (exercises s)) ∧
  p_completedExercises p = currentExerciseIndex s ∧
  p_currentExercise p = p_completedExercises p + 1 ∧
  p_completedSets p = Z.of_nat (length (flat_map sets (exercises s))) ∧
  (exercises s ≠ [] →
   p_completedSets p < p_totalSets p ∧ p_completedExercises p < p_totalExercises p).
Proof.
  intros Hempty Hex Hreach Hs.
  destruct (reachable_in_order _ _ Hempty Hex Hreach) as [[_ Hok] Hin].
  pose proof (Hin _ _ Hs) as [Hpos Hall]. destruct (Hok _ _ Hs) as [[_ Hf] _].
  assert (Hcount :
    Z.of_nat (length (List.filter (λ ex, targetSets ex <=? completedSets ex)
                        (exercises s))) = currentExerciseIndex s).
  { rewrite (filter_prefix _ _ (Z.to_nat (currentExerciseIndex s))).
    - destruct Hpos as [?|[-> _]]; lia.
    - intros j x Hj.
      assert (Hx : Js.index (exercises s) (Z.of_nat j) = Some x).
      { unfold Js.index. destruct (Z.ltb_spec (Z.of_nat j) 0); [lia|].
        by rewrite Nat2Z.id. }
      destruct (Hall _ _ Hx) as (_ & H1 & Hb & Hc & Ha).
      assert (Hcs : completedSets x ≤ targetSets x).
      { rewrite Forall_lookup in Hf. by destruct (Hf _ _ Hj). }
      rewrite Z.leb_le. split.
      + intros Hle.
        destruct (Z.lt_trichotomy (Z.of_nat j) (currentExerciseIndex s))
          as [?|[Heq|Hgt]]; [lia| |].
        * destruct (Hc Heq). lia.
        * destruct (Ha Hgt). lia.
      + intros Hlt. rewrite Hb; lia.
    - destruct Hpos as [?|[-> _]]; lia. }
  simpl. rewrite Hcount. split; [done|split; [done|split; [done|]]].
  split; [by apply fold_sum_sets|].
  intros Hne. destruct Hpos as [Hpos|[_ Hnil]]; [|done]. split; [|lia].
  assert (Hcur : ∃ e, exercises s !! Z.to_nat (currentExerciseIndex s) = Some e).
  { apply lookup_lt_is_Some. lia. }
  destruct Hcur as [e He].
  assert (Hx : Js.index (exercises s) (currentExerciseIndex s) = Some e).
  { unfold Js.index. destruct (Z.ltb_spec (currentExerciseIndex s) 0); [lia|done]. }
  destruct (Hall _ _ Hx) as (_ & _ & _ & Hc & _). destruct (Hc eq_refl) as [Hroom _].
  eapply fold_sum_lt; [|exact He|exact Hroom].
  eapply Forall_impl; [exact Hf|]. by intros x [? _].
Qed.

Lemma progress_of_stored_session_witness :
  ∃ s, workouts (db (completeSet "w1" as_target 2000 started).1) !! "w1" = Some s ∧
       let p := getWorkoutProgress (λ _ _, 0) (Some s) in
       p_totalExercises p = Z.of_nat (length (exercises s)) ∧
       p_completedExercises p = currentExerciseIndex s ∧
       p_currentExercise p = p_completedExercises p + 1 ∧
       p_completedSets p = Z.of_nat (length (flat_map sets (exercises s))) ∧
       (exercises s ≠ [] →
        p_completedSets p < p_totalSets p ∧
        p_completedExercises p < p_totalExercises p).
Proof.
  assert (H : ∃ s, workouts (db (completeSet "w1" as_target 2000 started).1) !! "w1"
                   = Some s) by (vm_compute; eauto).
  destruct H as [s Hs]. exists s. split; [done|].
  apply (progress_of_stored_session (λ _ _, 0) {| db := legs_day; emitted := [] |}
           (completeSet "w1" as_target 2000 started).1 "w1" s).
  - reflexivity.
  - simpl. repeat constructor; simpl; lia.
  - apply (reach_call _ _ (CallCompleteSet "w1" as_target 2000)),
      (reach_call _ _ (CallStart "r1" "w1" 1000)), reach_refl.
  - done.
Defined.


(** *** Pausing and resuming *)

Lemma pauseWorkout_spec (w : World) (wid : string) (s : Workout) (now : Z) :
  workouts (db w) !! wid = Some s → id s = wid → status s = active →
  let p := stamp_updated (set_paused s paused (Some now)) now in
  pauseWorkout wid now w = (stored_and_emitted w wid p (workoutPaused p), Ok p).
Proof.
  intros Hs Hid Hst. call_m. rewrite Hs. simpl. rewrite Hst. simpl.
  unfold stored_and_emitted. rewrite Hid. reflexivity.
Qed.

Lemma resumeWorkout_spec (w : World) (wid : string) (s : Workout) (now : Z) :
  workouts (db w) !! wid = Some s → id s = wid → status s = paused →
  let p := stamp_updated (set_paused s active None) now in
  resumeWorkout wid now w = (stored_and_emitted w wid p (workoutResumed p), Ok p).
Proof.
  intros Hs Hid Hst. call_m. rewrite Hs. simpl. rewrite Hst. simpl.
  unfold stored_and_emitted. rewrite Hid. reflexivity.
Qed.

Lemma finishWorkout_spec (w : World) (wid : string) (s : Workout) (now : Z) :
  workouts (db w) !! wid = Some s → id s = wid →
  let p := stamp_updated (set_finished s now ((now - startTime s) / 1000)) now in
  finishWorkout wid now w = (stored_and_emitted w wid p (workoutFinished p), Ok p).
Proof.
  intros Hs Hid. call_m. rewrite Hs. simpl.
  unfold stored_and_emitted. rewrite Hid. reflexivity.
Qed.

Lemma lookup_stored (w : World) (wid : string) (s' : Workout) (e : Event) :
  workouts (db (stored_and_emitted w wid s' e)) !! wid = Some s'.
Proof. unfold stored_and_emitted. simpl. apply lookup_insert_eq. Qed.

(** X5.  Pausing and resuming an active session.  While it is paused,
    [pauseWorkout] and [completeSet] reject and change nothing.
    [resumeWorkout] stores the session as it was before the pause, apart
    from the update stamp and [pausedAt], which is gone; a second
    [resumeWorkout] rejects.  The start time is never moved, so the
    duration [finishWorkout] computes afterwards counts the time spent
    paused. *)
Theorem pause_does_not_stop_the_clock (w : World) (wid : string) (s : Workout)
    (t1 t2 t3 : Z) :
  workouts (db w) !! wid = Some s → id s = wid → status s = active →
  let w1 := (pauseWorkout wid t1 w).1 in
  let w2 := (resumeWorkout wid t2 w1).1 in
  workouts (db w1) !! wid = Some (stamp_updated (set_paused s paused (Some t1)) t1) ∧
  pauseWorkout wid t2 w1 = (w1, Throw WorkoutNotFoundOrNotActive) ∧
  (∀ sd, completeSet wid sd t2 w1 = (w1, Throw WorkoutNotFoundOrNotActive)) ∧
  workouts (db w2) !! wid = Some (stamp_updated (set_paused s active None) t2) ∧
  resumeWorkout wid t3 w2 = (w2, Throw WorkoutNotFoundOrNotPaused) ∧
  ∃ f, (finishWorkout wid t3 w2).2 = Ok f ∧
       workouts (db (finishWorkout wid t3 w2).1) !! wid = Some f ∧
       status f = completed ∧ duration f = (t3 - startTime s) / 1000.
Proof.
  intros Hs Hid Hst w1 w2. subst w2 w1.
  rewrite (pauseWorkout_spec w wid s t1 Hs Hid Hst). cbn [fst snd].
  set (p := stamp_updated (set_paused s paused (Some t1)) t1).
  set (w1 := stored_and_emitted w wid p (workoutPaused p)).
  assert (Hp : workouts (db w1) !! wid = Some p) by apply lookup_stored.
  rewrite (resumeWorkout_spec w1 wid p t2 Hp Hid eq_refl). cbn [fst snd].
  set (q := stamp_updated (set_paused p active None) t2).
  set (w2 := stored_and_emitted w1 wid q (workoutResumed q)).
  assert (Hq : workouts (db w2) !! wid = Some q) by apply lookup_stored.
  split; [done|]. split; [|split; [|split; [|split]]].
  - unfold pauseWorkout, bind, dbGetWorkout, Store.getWorkout, throw.
    rewrite Hp. reflexivity.
  - intros sd. unfold completeSet, bind, dbGetWorkout, Store.getWorkout, throw.
    rewrite Hp. reflexivity.
  - rewrite Hq. reflexivity.
  - unfold resumeWorkout, bind, dbGetWorkout, Store.getWorkout, throw.
    rewrite Hq. reflexivity.
  - rewrite (finishWorkout_spec w2 wid q t3 Hq Hid). cbn [fst snd].
    eexists. split; [reflexivity|]. split; [apply lookup_stored|]. done.
Qed.

Lemma pause_does_not_stop_the_clock_witness :
  let w1 := (pauseWorkout "w1" 2000 started).1 in
  let w2 := (resumeWorkout "w1" 62000 w1).1 in
  ∃ s, workouts (db started) !! "w1" = Some s ∧
  workouts (db w1) !! "w1" = Some (stamp_updated (set_paused s paused (Some 2000)) 2000) ∧
  pauseWorkout "w1" 62000 w1 = (w1, Throw WorkoutNotFoundOrNotActive) ∧
  (∀ sd, completeSet "w1" sd 62000 w1 = (w1, Throw WorkoutNotFoundOrNotActive)) ∧
  workouts (db w2) !! "w1" = Some (stamp_updated (set_paused s active None) 62000) ∧
  resumeWorkout "w1" 63000 w2 = (w2, Throw WorkoutNotFoundOrNotPaused) ∧
  ∃ f, (finishWorkout "w1" 63000 w2).2 = Ok f ∧
       workouts (db (finishWorkout "w1" 63000 w2).1) !! "w1" = Some f ∧
       status f = completed ∧ duration f = (63000 - startTime s) / 1000.
Proof.
  intros w1 w2.
  assert (H : ∃ s, workouts (db started) !! "w1" = Some s ∧ id s = "w1"
                   ∧ status s = active) by (vm_compute; eauto).
  destruct H as (s & Hs & Hid & Hst). exists s. split; [done|].
  apply (pause_does_not_stop_the_clock started "w1" s 2000 62000 63000 Hs Hid Hst).
Defined.

(** *** Changing a target weight *)

(** X6.  [updateExerciseWeight] on a stored session.  An index outside the
    exercises of the session rejects and changes nothing.  An index inside
    replaces the target weight of that exercise by the new weight, whatever
    it is and whatever the status of the session, and nothing else: the
    other exercises, the sets recorded so far, the position, the status, the
    times and the duration are as before, in the session returned, which is
    the one stored. *)
Theorem updateExerciseWeight_changes_one_weight (w : World) (wid : string)
    (s : Workout) (i x now : Z) :
  workouts (db w) !! wid = Some s → id s = wid →
  ((i < 0 ∨ Z.of_nat (length (exercises s)) ≤ i) →
   updateExerciseWeight wid i x now w = (w, Throw WorkoutOrExerciseNotFound)) ∧
  (0 ≤ i < Z.of_nat (length (exercises s)) →
   ∃ e s', Js.index (exercises s) i = Some e ∧
     (updateExerciseWeight wid i x now w).2 = Ok s' ∧
     workouts (db (updateExerciseWeight wid i x now w).1) !! wid = Some s' ∧
     Js.index (exercises s') i = Some (set_targetWeight e x) ∧
     (∀ j, j ≠ i → Js.index (exercises s') j = Js.index (exercises s) j) ∧
     length (exercises s') = length (exercises s) ∧
     status s' = status s ∧ currentExerciseIndex s' = currentExerciseIndex s ∧
     currentSet s' = currentSet s ∧ startTime s' = startTime s ∧
     endTime s' = endTime s ∧ duration s' = duration s ∧
     pausedAt s' = pausedAt s).
Proof.
  intros Hs Hid. split.
  - intros Hout. call_m. rewrite Hs. simpl.
    assert (Js.index (exercises s) i = None) as ->; [|done].
    unfold Js.index. destruct (Z.ltb_spec i 0); [done|].
    apply lookup_ge_None. lia.
  - intros Hin.
    assert (He : ∃ e, Js.index (exercises s) i = Some e).
    { unfold Js.index. destruct (Z.ltb_spec i 0); [lia|].
      apply lookup_lt_is_Some. lia. }
    destruct He as [e He]. exists e. call_m. rewrite Hs. simpl. rewrite He. simpl.
    eexists. split; [done|]. split; [reflexivity|].
    rewrite Hid. split; [apply lookup_insert_eq|]. simpl.
    split; [|split; [|split; [apply JsFacts.length_set_index|done]]].
    + rewrite JsFacts.index_set_index, He. by case_decide.
    + intros j Hj. rewrite JsFacts.index_set_index. by case_decide.
Qed.

Lemma updateExerciseWeight_changes_one_weight_witness :
  updateExerciseWeight "w1" 2 75 2000 started
    = (started, Throw WorkoutOrExerciseNotFound) ∧
  ∃ s', (updateExerciseWeight "w1" 1 75 2000 started).2 = Ok s' ∧
        (targetWeight <$> Js.index (exercises s') 1) = Some 75 ∧
        (targetWeight <$> Js.index (exercises s') 0) = Some 50.
Proof.
  assert (H : ∃ s, workouts (db started) !! "w1" = Some s ∧ id s = "w1"
                   ∧ length (exercises s) = 2%nat
                   ∧ (targetWeight <$> Js.index (exercises s) 0) = Some 50)
    by (vm_compute; eauto).
  destruct H as (s & Hs & Hid & Hlen & H0).
  split.
  - apply (updateExerciseWeight_changes_one_weight started "w1" s 2 75 2000 Hs Hid).
    rewrite Hlen. lia.
  - destruct (updateExerciseWeight_changes_one_weight started "w1" s 1 75 2000 Hs Hid)
      as [_ Hin].
    destruct Hin as (e & s' & He & Hret & _ & Hi & Hj & _); [rewrite Hlen; lia|].
    exists s'. split; [done|]. rewrite Hi, (Hj 0) by lia. done.
Defined.


(** *** Events *)

(** X7.  A call that resolves emits exactly one event, after the events
    emitted before.  [startWorkout], [pauseWorkout], [resumeWorkout] and
    [finishWorkout] emit their event with the session they return;
    [updateExerciseWeight] emits the id, the index and the weight it was
    given.  [completeSet] emits [setCompleted] with the index of the
    exercise the set was recorded for, also when the set completed that
    exercise, and with the set it recorded; but when the session it returns
    has run past its last exercise it emits [workoutFinished] instead, with
    a completed session that has the exercises as they were stored before
    the call, and no [setCompleted]. *)
Theorem one_event_per_resolved_call (c : Call) (w : World) (s : Workout) :
  (run c w).2 = Ok s →
  ∃ e, emitted (run c w).1 = emitted w ++ [e] ∧
    match c with
    | CallStart _ _ _ => e = workoutStarted s
    | CallPause _ _ => e = workoutPaused s
    | CallResume _ _ => e = workoutResumed s
    | CallFinish _ _ => e = workoutFinished s
    | CallUpdateWeight k i x _ => e = exerciseWeightUpdated k i x
    | CallCompleteSet k _ _ =>
        ∃ old ex c',
          workouts (db w) !! k = Some old ∧
          Js.index (exercises s) (currentExerciseIndex old) = Some ex ∧
          last (sets ex) = Some c' ∧
          if Z.of_nat (length (exercises s)) <=? currentExerciseIndex s
          then ∃ f, e = workoutFinished f ∧ status f = completed ∧
                    exercises f = exercises old
          else e = setCompleted k (currentExerciseIndex old) c'
    end.
Proof.
  destruct c as [rid newId now|workoutId sd now|workoutId now|workoutId now
                |workoutId now|workoutId exerciseIndex newWeight now]; call_m.
  - destruct (routines (db w) !! rid) as [r|]; simpl; [|done].
    destruct (workouts (db w) !! newId); simpl; [done|].
    intros [= <-]. by eexists.
  - destruct (workouts (db w) !! workoutId) as [old|] eqn:Hs; simpl; [|done].
    case_bool_decide as Hst; simpl; [|done].
    destruct (Js.index (exercises old) (currentExerciseIndex old)) as [e|] eqn:He;
      simpl; [|done].
    pose proof (JsFacts.index_Some _ _ _ He) as Hb.
    set (c' := {| setNumber := completedSets e + 1;
                  reps := Js.or_else (sd_reps sd) (targetReps e);
                  weight := Js.or_else (sd_weight sd) (targetWeight e);
                  completedAt := now |}).
    assert (Hidx : Js.index (Js.set_index (exercises old) (currentExerciseIndex old)
                               (push_set e c')) (currentExerciseIndex old)
                   = Some (push_set e c')).
    { rewrite JsFacts.index_set_index, He. by case_decide. }
    destruct (targetSets e <=? completedSets e + 1); simpl.
    + rewrite JsFacts.length_set_index.
      destruct (Z.leb_spec (Z.of_nat (length (exercises old)))
                  (currentExerciseIndex old + 1)) as [Hl|Hl]; simpl.
      * rewrite Hs. simpl. intros [= <-]. simpl. eexists. split; [done|].
        exists old, (push_set e c'), c'. split; [done|]. split; [done|].
        split; [apply last_snoc|]. rewrite JsFacts.length_set_index.
        destruct (Z.leb_spec (Z.of_nat (length (exercises old)))
                    (currentExerciseIndex old + 1)); [|lia].
        by eexists.
      * intros [= <-]. simpl. eexists. split; [done|].
        exists old, (push_set e c'), c'. split; [done|]. split; [done|].
        split; [apply last_snoc|]. rewrite JsFacts.length_set_index.
        destruct (Z.leb_spec (Z.of_nat (length (exercises old)))
                    (currentExerciseIndex old + 1)); [lia|].
        f_equal. lia.
    + intros [= <-]. simpl. eexists. split; [done|].
      exists old, (push_set e c'), c'. split; [done|]. split; [done|].
      split; [apply last_snoc|]. rewrite JsFacts.length_set_index.
      destruct (Z.leb_spec (Z.of_nat (length (exercises old)))
                  (currentExerciseIndex old)); [lia|].
      f_equal. lia.
  - destruct (workouts (db w) !! workoutId) as [old|]; simpl; [|done].
    case_bool_decide; simpl; [|done]. intros [= <-]. by eexists.
  - destruct (workouts (db w) !! workoutId) as [old|]; simpl; [|done].
    case_bool_decide; simpl; [|done]. intros [= <-]. by eexists.
  - destruct (workouts (db w) !! workoutId) as [old|]; simpl; [|done].
    intros [= <-]. by eexists.
  - destruct (workouts (db w) !! workoutId) as [old|]; simpl; [|done].
    destruct (Js.index (exercises old) exerciseIndex); simpl; [|done].
    intros [= <-]. by eexists.
Qed.

Lemma one_event_per_resolved_call_witness :
  ∃ e old ex c',
    emitted (run (CallCompleteSet "w1" as_target 2000) started).1
      = emitted started ++ [e] ∧
    workouts (db started) !! "w1" = Some old ∧
    last (sets ex) = Some c' ∧
    e = setCompleted "w1" (currentExerciseIndex old) c'.
Proof.
  assert (H : ∃ s, (run (CallCompleteSet "w1" as_target 2000) started).2 = Ok s ∧
                   (Z.of_nat (length (exercises s)) <=? currentExerciseIndex s) = false)
    by (vm_compute; eauto).
  destruct H as (s & Hs & Hnot).
  destruct (one_event_per_resolved_call _ _ s Hs)
    as (e & He & old & ex & c' & Hold & _ & Hlast & Hev).
  rewrite Hnot in Hev. by exists e, old, ex, c'.
Defined.

End SessionFacts.

(** ** What the validators accept *)

Module ValidatorFacts.
Import Js JsString WorkoutService.

(** *** Blank names *)

Lemma length_string_of_list_ascii (l : list ascii) :
  String.length (string_of_list_ascii l) = length l.
Proof. induction l as [|c l IH]; simpl; [done|]. by rewrite IH. Qed.

Lemma length_reverse (s : string) :
  String.length (reverse s) = String.length s.
Proof.
  unfold reverse. rewrite length_string_of_list_ascii, length_rev.
  induction s as [|c s IH]; simpl; [done|]. by rewrite IH.
Qed.

Lemma trimStart_blank (s : string) :
  forallb is_space (list_ascii_of_string s) = true → trimStart s = "".
Proof.
  induction s as [|c s IH]; simpl; [done|].
  intros [Hc Hs]%andb_true_iff. rewrite Hc. by apply IH.
Qed.

Lemma trimStart_visible (s : string) :
  forallb is_space (list_ascii_of_string s) = false →
  trimStart s ≠ "" ∧ forallb is_space (list_ascii_of_string (trimStart s)) = false.
Proof.
  induction s as [|c s IH]; simpl; [done|].
  destruct (is_space c) eqn:Hc; simpl; [done|].
  intros _. split; [done|]. simpl. by rewrite Hc.
Qed.

Lemma forallb_reverse (s : string) :
  forallb is_space (list_ascii_of_string (reverse s))
  = forallb is_space (list_ascii_of_string s).
Proof.
  unfold reverse. rewrite list_ascii_of_string_of_list_ascii.
  induction (list_ascii_of_string s) as [|c l IH]; simpl; [done|].
  rewrite forallb_app, IH. simpl. rewrite andb_true_r. apply andb_comm.
Qed.

(** A name counts as missing exactly when it is absent or consists of white
    space only (the empty string included). *)
Lemma name_missing_blank (n : string) :
  name_missing (Some n) = forallb is_space (list_ascii_of_string n).
Proof.
  unfold name_missing, trim.
  destruct (forallb is_space (list_ascii_of_string n)) eqn:Hn.
  - rewrite (trimStart_blank n Hn). simpl. apply orb_true_r.
  - destruct (trimStart_visible n Hn) as [_ H1].
    rewrite <- forallb_reverse in H1.
    destruct (trimStart_visible _ H1) as [H2 _].
    rewrite length_reverse.
    destruct (trimStart (reverse (trimStart n))); [done|].
    destruct n; [done|]. reflexivity.
Qed.

(** *** What the validators accept *)

(** A guard [v && (isNaN(v) || v < k)] with [k] 0 or 1 lets through
    everything but the negative numbers. *)
Lemma guard_negative (v : value) (k : Z) :
  k = 0 ∨ k = 1 →
  truthy v && (isNaN v || lt v k) = false ↔ ∀ z, v = Some (Num z) → 0 ≤ z.
Proof.
  intros Hk. destruct v as [[|z]|]; simpl; [done..| |done].
  destruct (Z.eqb_spec z 0), (Z.ltb_spec z k); simpl; split;
    try done; try (intros _ ? [= <-]; lia).
  intros Hz. specialize (Hz z eq_refl). lia.
Qed.

(** X8.  [validateExerciseData] on data whose name, if there is one, is
    written in ASCII, and whose numbers are whole.  It accepts exactly the
    data whose name has a character that is not white space and none of
    whose numbers (sets, repetitions, weight, rest time) is negative.  A
    number that is missing, [NaN] or zero is accepted; the context only
    appears in the message. *)
Theorem validateExerciseData_accepts (e : ExerciseData) (context : string) :
  (∀ n, ed_name e = Some n → is_ascii n = true) →
  validateExerciseData e context = passes ↔
  (∃ n, ed_name e = Some n ∧ forallb is_space (list_ascii_of_string n) = false) ∧
  (∀ z, ed_sets e = Some (Num z) → 0 ≤ z) ∧
  (∀ z, ed_reps e = Some (Num z) → 0 ≤ z) ∧
  (∀ z, ed_weight e = Some (Num z) → 0 ≤ z) ∧
  (∀ z, ed_restTime e = Some (Num z) → 0 ≤ z).
Proof.
  intros _. unfold validateExerciseData.
  rewrite <- (guard_negative (ed_sets e) 1), <- (guard_negative (ed_reps e) 1),
    <- (guard_negative (ed_weight e) 0), <- (guard_negative (ed_restTime e) 0)
    by auto.
  assert (Hname : name_missing (ed_name e) = false ↔
            ∃ n, ed_name e = Some n ∧ forallb is_space (list_ascii_of_string n) = false).
  { destruct (ed_name e) as [n|].
    - rewrite name_missing_blank. split; [by exists n|]. by intros (? & [= <-] & ?).
    - split; [done|]. by intros (? & ? & _). }
  rewrite <- Hname.
  destruct (name_missing (ed_name e)); [by split; [|intros [? _]]|].
  destruct (truthy (ed_sets e) && _); [by split; [|intros (_ & ? & _)]|].
  destruct (truthy (ed_reps e) && _); [by split; [|intros (_ & _ & ? & _)]|].
  destruct (truthy (ed_weight e) && _); [by split; [|intros (_ & _ & _ & ? & _)]|].
  destruct (truthy (ed_restTime e) && _); [by split; [|intros (_ & _ & _ & _ & ?)]|].
  done.
Qed.

Lemma validateExerciseData_accepts_witness :
  let e := {| ed_name := Some " Squat"; ed_sets := Some (Num 0); ed_reps := None;
              ed_weight := Some NaN; ed_restTime := Some (Num 90) |} in
  let blank := {| ed_name := Some "  "; ed_sets := Some (Num 3); ed_reps := None;
                  ed_weight := None; ed_restTime := None |} in
  validateExerciseData e "Exercise" = passes ∧
  validateExerciseData blank "Exercise" ≠ passes.
Proof.
  intros e blank. split.
  - apply (validateExerciseData_accepts e "Exercise").
    + intros n [= <-]. reflexivity.
    + split; [exists " Squat"; split; reflexivity|].
      repeat split; intros z Hz; inversion Hz; lia.
  - intros Hp. apply (validateExerciseData_accepts blank "Exercise") in Hp.
    + destruct Hp as [(n & [= <-] & Hn) _]. discriminate Hn.
    + intros n [= <-]. reflexivity.
Defined.

Lemma validateExerciseData_context (e : ExerciseData) (c1 c2 : string) :
  validateExerciseData e c1 = passes → validateExerciseData e c2 = passes.
Proof.
  unfold validateExerciseData. destruct (name_missing (ed_name e)); [done|].
  destruct (truthy (ed_sets e) && _); [done|].
  destruct (truthy (ed_reps e) && _); [done|].
  destruct (truthy (ed_weight e) && _); [done|].
  destruct (truthy (ed_restTime e) && _); done.
Qed.

(** What is known of data that the validator of exercises let through. *)
Lemma passes_guards (e : ExerciseData) (context : string) :
  validateExerciseData e context = passes →
  name_missing (ed_name e) = false ∧
  (∀ z, ed_sets e = Some (Num z) → 0 ≤ z) ∧
  (∀ z, ed_reps e = Some (Num z) → 0 ≤ z) ∧
  (∀ z, ed_weight e = Some (Num z) → 0 ≤ z) ∧
  (∀ z, ed_restTime e = Some (Num z) → 0 ≤ z).
Proof.
  unfold validateExerciseData.
  rewrite <- (guard_negative (ed_sets e) 1), <- (guard_negative (ed_reps e) 1),
    <- (guard_negative (ed_weight e) 0), <- (guard_negative (ed_restTime e) 0)
    by auto.
  destruct (name_missing (ed_name e)); [done|].
  destruct (truthy (ed_sets e) && _); [done|].
  destruct (truthy (ed_reps e) && _); [done|].
  destruct (truthy (ed_weight e) && _); [done|].
  destruct (truthy (ed_restTime e) && _); done.
Qed.

Lemma validate_each_passes (l : list ExerciseData) (index : Z) :
  validate_each l index = passes ↔
  Forall (λ e, validateExerciseData e "Exercise" = passes) l.
Proof.
  revert index. induction l as [|e l IH]; intros index; simpl; [done|].
  rewrite Forall_cons, <- (IH (index + 1)).
  destruct (validateExerciseData e ("Exercise " +:+ toString (index + 1))) eqn:He.
  - split; [|by intros [_ ?]]. intros Hl. split; [|done].
    by apply (validateExerciseData_context e _ _ He).
  - split; [done|]. intros [Hc _].
    apply (validateExerciseData_context e _ ("Exercise " +:+ toString (index + 1)))
      in Hc. congruence.
Qed.

(** X9.  [validateRoutineData] accepts exactly the routines whose name is
    not blank and whose exercises, if there are any, are all accepted by
    [validateExerciseData]. *)
Theorem validateRoutineData_accepts (r : RoutineData) :
  validateRoutineData r = passes ↔
  name_missing (rd_name r) = false ∧
  ∀ l, rd_exercises r = Some l →
       Forall (λ e, validateExerciseData e "Exercise" = passes) l.
Proof.
  unfold validateRoutineData. destruct (name_missing (rd_name r)).
  - split; [done|]. by intros [? _].
  - destruct (rd_exercises r) as [l|].
    + rewrite validate_each_passes. split.
      * intros Hl. split; [done|]. by intros ? [= <-].
      * intros [_ Hl]. by apply Hl.
    + split; [|done]. intros _. split; [done|]. done.
Qed.

Lemma validate_each_first (l1 l2 : list ExerciseData) (e : ExerciseData) (index : Z) :
  Forall (λ x, validateExerciseData x "Exercise" = passes) l1 →
  validateExerciseData e "Exercise" ≠ passes →
  validate_each (l1 ++ e :: l2) index
  = validateExerciseData e
      ("Exercise " +:+ toString (index + Z.of_nat (length l1) + 1)).
Proof.
  intros Hl1 He. revert index. induction Hl1 as [|x l1 Hx _ IH]; intros index.
  - simpl. rewrite Z.add_0_r.
    destruct (validateExerciseData e ("Exercise " +:+ toString (index + 1))) eqn:Hv;
      [|done].
    destruct He. by apply (validateExerciseData_context e _ _ Hv).
  - simpl app. simpl validate_each.
    rewrite (validateExerciseData_context x _
               ("Exercise " +:+ toString (index + 1)) Hx).
    rewrite IH. do 3 f_equal. simpl length. lia.
Qed.

(** X10.  When a routine with a name has an exercise that
    [validateExerciseData] refuses, [validateRoutineData] throws what
    [validateExerciseData] throws for the first such exercise, with the
    context ["Exercise i"], [i] being the position of that exercise counted
    from 1.  Exercises after the first refused one are not looked at. *)
Theorem validateRoutineData_reports_first (r : RoutineData)
    (l1 l2 : list ExerciseData) (e : ExerciseData) :
  name_missing (rd_name r) = false →
  rd_exercises r = Some (l1 ++ e :: l2) →
  Forall (λ x, validateExerciseData x "Exercise" = passes) l1 →
  validateExerciseData e "Exercise" ≠ passes →
  validateRoutineData r
  = validateExerciseData e ("Exercise " +:+ toString (Z.of_nat (length l1) + 1)) ∧
  validateRoutineData r ≠ passes.
Proof.
  intros Hn Hr Hl1 He. unfold validateRoutineData. rewrite Hn, Hr.
  rewrite (validate_each_first l1 l2 e 0 Hl1 He). simpl (0 + _).
  split; [done|]. intros Hp. apply He.
  by apply (validateExerciseData_context e _ _ Hp).
Qed.

Lemma validateRoutineData_reports_first_witness :
  let ok := {| ed_name := Some "Squat"; ed_sets := Some (Num 3);
               ed_reps := Some (Num 10); ed_weight := None;
               ed_restTime := Some NaN |} in
  let bad := {| ed_name := Some "Lunge"; ed_sets := Some (Num 3);
                ed_reps := Some (Num (-2)); ed_weight := Some (Num (-5));
                ed_restTime := None |} in
  let r := {| rd_name := Some "Legs"; rd_exercises := Some [ok; bad; bad] |} in
  validateRoutineData r = throws "Exercise 2: reps must be a positive number".
Proof.
  intros ok bad r.
  destruct (validateRoutineData_reports_first r [ok] [bad] bad) as [-> _];
    [reflexivity|reflexivity|by repeat constructor|done|reflexivity].
Defined.

End ValidatorFacts.

(** ** Pausing and resuming timers *)

Module SchedulerFacts.
Import TimerService TimerScenario TimerShape.

Local Arguments run : simpl never.

(** The listeners of the service react to [tick] and [complete] only. *)
Lemma react_silent (cv : bool) (ls : list Listener) (e : Event) :
  match e with tick _ _ _ | complete _ => False | _ => True end →
  flat_map (λ l, react cv l e) ls = [].
Proof.
  intros He. induction ls as [|l ls IH]; simpl; [done|]. rewrite IH.
  by destruct l, e.
Qed.

Lemma trace_emit (e : Event) (s : Service) :
  trace (emit e s) = trace s ++ emitted (canVibrate s) (listeners s) e.
Proof. done. Qed.

Lemma lookup_timer_Some (k : string) (s : Service) (r : nat) (t : Timer) :
  lookup_timer k s = Some (r, t) ↔
  JsMap.get k (activeTimers s) = Some r ∧ heap s !! r = Some t.
Proof.
  unfold lookup_timer. destruct (JsMap.get k (activeTimers s)) as [r'|].
  - destruct (heap s !! r') as [t'|] eqn:E.
    + split; [by intros [= <- <-]|]. intros [[= <-] Ht]. congruence.
    + split; [done|]. intros [[= <-] Ht]. congruence.
  - split; [done|]. by intros [? _].
Qed.

(** What [pause] does to a running timer. *)
Lemma pause_running (k : string) (p : Z) (s : Service) (r : nat) (t : Timer) :
  lookup_timer k s = Some (r, t) → status t = running →
  let s1 := (pause k p s).1 in
  (pause k p s).2 = true ∧
  (∃ i, lookup_timer k s1
        = Some (r, set_intervalId (set_status t paused (startTime t) (Some p)) i)) ∧
  activeTimers s1 = activeTimers s ∧ length (heap s1) = length (heap s) ∧
  (∀ r', r' ≠ r → heap s1 !! r' = heap s !! r') ∧
  listeners s1 = listeners s ∧ canVibrate s1 = canVibrate s ∧
  isWorkerSupported s1 = isWorkerSupported s ∧ nextTimerId s1 = nextTimerId s ∧
  trace s1 = trace s ++ [Emitted (paused_event k)].
Proof.
  intros Hl Hst. pose proof Hl as [Hget Hr]%lookup_timer_Some.
  assert (Hlt : (r < length (heap s))%nat) by (by eapply lookup_lt_Some).
  unfold pause. rewrite Hl, Hst. cbn [negb bool_decide decide_rel].
  rewrite bool_decide_eq_true_2 by done. cbn [negb].
  unfold delegated, store. cbn [isWorkerSupported worker set_heap].
  destruct (if isWorkerSupported s then worker s else None) as [w|] eqn:Hd.
  - unfold postMessage. cbn [worker set_heap].
    assert (Hw : worker s = Some w ∨ worker s ≠ None).
    { destruct (isWorkerSupported s); [by left|done]. }
    destruct (worker s) as [w'|] eqn:Hw'; [|by destruct (isWorkerSupported s)].
    unfold emit. rewrite react_silent by done. unfold lookup_timer. cbn.
    rewrite Hget, list_lookup_insert_eq by done.
    split; [done|]. split.
    + exists (intervalId t). done.
    + rewrite length_insert. repeat split; try done.
      intros r' Hr'. by rewrite list_lookup_insert_ne.
  - cbn [intervalId set_status].
    destruct (intervalId t) as [[|i]|] eqn:Hi; unfold emit; rewrite react_silent by done;
      unfold lookup_timer; cbn; rewrite Hget.
    + rewrite list_lookup_insert_eq by done. split; [done|]. split.
      * exists (Some 0%nat). unfold set_intervalId, set_status. cbn. by rewrite Hi.
      * rewrite length_insert. repeat split; try done.
        intros r' Hr'. by rewrite list_lookup_insert_ne.
    + rewrite list_lookup_insert_eq by (by rewrite length_insert).
      split; [done|]. split.
      * exists None. done.
      * rewrite !length_insert. repeat split; try done.
        intros r' Hr'. by rewrite !list_lookup_insert_ne.
    + rewrite list_lookup_insert_eq by done. split; [done|]. split.
      * exists None. unfold set_intervalId, set_status. cbn. by rewrite Hi.
      * rewrite length_insert. repeat split; try done.
        intros r' Hr'. by rewrite list_lookup_insert_ne.
Qed.


Lemma run_S_idle (m : nat) (s : Service) : idle s → run (S m) s = s.
Proof. unfold idle. intros H. change (run (S m) s) with
  (match step s with Some s' => run m s' | None => s end). by rewrite H. Qed.

(** What [resume] does to a paused timer. *)
Lemma resume_paused (k : string) (q : Z) (s : Service) (r : nat) (t : Timer) :
  lookup_timer k s = Some (r, t) → status t = paused →
  let s2 := (resume k q s).1 in
  (resume k q s).2 = true ∧
  (∃ i, lookup_timer k s2 = Some (r, set_intervalId (resumed_timer t q) i)) ∧
  activeTimers s2 = activeTimers s ∧ length (heap s2) = length (heap s) ∧
  trace s2 = trace s ++ [Emitted (resumed k)].
Proof.
  intros Hl Hst. pose proof Hl as [Hget Hr]%lookup_timer_Some.
  assert (Hlt : (r < length (heap s))%nat) by (by eapply lookup_lt_Some).
  unfold resume. rewrite Hl, Hst. rewrite bool_decide_eq_true_2 by done.
  cbn [negb]. fold (resumed_timer t q).
  unfold delegated, store. cbn [isWorkerSupported worker set_heap].
  destruct (if isWorkerSupported s then worker s else None) as [w|] eqn:Hd.
  - unfold postMessage. cbn [worker set_heap].
    destruct (worker s) as [w'|] eqn:Hw'; [|by destruct (isWorkerSupported s)].
    unfold emit. rewrite react_silent by done. unfold lookup_timer. cbn.
    rewrite Hget, list_lookup_insert_eq by done.
    split; [done|]. split.
    + exists (intervalId (resumed_timer t q)). by destruct (resumed_timer t q).
    + by rewrite length_insert.
  - unfold startMainThreadTimer, schedule, store. cbn [heap set_heap].
    rewrite list_lookup_insert_eq by done.
    unfold emit. rewrite react_silent by done. unfold lookup_timer. cbn.
    rewrite Hget, list_lookup_insert_eq by (by rewrite length_insert).
    split; [done|]. split.
    + by eexists.
    + by rewrite !length_insert.
Qed.

(** X11.  Pausing and resuming a running timer, under either strategy.
    [pause] returns [true], marks the timer paused and records the instant;
    until it is resumed, another [pause] returns [false] and changes nothing.
    [resume] returns [true] and marks it running again with [startTime]
    moved forward by the length of the pause, and the counts untouched;
    another [resume] then returns [false] and changes nothing.  The two
    calls emit [paused] and [resumed], in this order, and nothing else. *)
Theorem pause_then_resume (k : string) (p q : Z) (s : Service) (r : nat) (t : Timer) :
  lookup_timer k s = Some (r, t) → status t = running → p ≠ 0 →
  let s1 := (pause k p s).1 in
  let s2 := (resume k q s1).1 in
  (pause k p s).2 = true ∧
  (∃ t1, getTimer k s1 = Some t1 ∧ status t1 = paused ∧ pausedTime t1 = Some p ∧
         remaining t1 = remaining t ∧ elapsed t1 = elapsed t) ∧
  (∀ p', pause k p' s1 = (s1, false)) ∧
  (resume k q s1).2 = true ∧
  (∃ t2, getTimer k s2 = Some t2 ∧ status t2 = running ∧ pausedTime t2 = None ∧
         startTime t2 = startTime t + (q - p) ∧
         remaining t2 = remaining t ∧ elapsed t2 = elapsed t ∧
         duration t2 = duration t ∧ type t2 = type t ∧ id t2 = id t) ∧
  (∀ q', resume k q' s2 = (s2, false)) ∧
  trace s2 = trace s ++ [Emitted (paused_event k); Emitted (resumed k)].
Proof.
  intros Hl Hst Hp s1 s2.
  destruct (pause_running k p s r t Hl Hst)
    as (Hret1 & [i1 Hl1] & _ & _ & _ & _ & _ & _ & _ & Htr1).
  fold s1 in Hl1, Htr1.
  destruct (resume_paused k q s1 r _ Hl1 eq_refl) as (Hret2 & [i2 Hl2] & _ & _ & Htr2).
  fold s2 in Hl2, Htr2.
  assert (Hres : resumed_timer
                   (set_intervalId (set_status t paused (startTime t) (Some p)) i1) q
                 = set_intervalId
                     (set_status t running (startTime t + (q - p)) None) i1).
  { unfold resumed_timer. cbn. by destruct (Z.eqb_spec p 0). }
  rewrite Hres in Hl2.
  split; [done|]. split; [|split; [|split; [done|split; [|split]]]].
  - unfold getTimer. rewrite Hl1. eexists. split; [done|]. done.
  - intros p'. unfold pause. rewrite Hl1. done.
  - unfold getTimer. rewrite Hl2. eexists. split; [done|]. done.
  - intros q'. unfold resume. rewrite Hl2. done.
  - rewrite Htr2, Htr1, <- app_assoc. done.
Qed.

Lemma pause_then_resume_witness :
  let s := (first_tick true).1 in
  let k := (first_tick true).2 in
  let s1 := (pause k 1700000001500 s).1 in
  let s2 := (resume k 1700000004500 s1).1 in
  (pause k 1700000001500 s).2 = true ∧
  (∀ p', pause k p' s1 = (s1, false)) ∧
  (resume k 1700000004500 s1).2 = true ∧
  (∀ q', resume k q' s2 = (s2, false)) ∧
  (startTime <$> getTimer k s2) = Some 1700000003000 ∧
  trace s2 = trace s ++ [Emitted (paused_event k); Emitted (resumed k)].
Proof.
  intros s k s1 s2.
  assert (H : ∃ r t, lookup_timer k s = Some (r, t) ∧ status t = running ∧
                     startTime t = 1700000000000) by (vm_compute; eauto).
  destruct H as (r & t & Hl & Hst & Hstart).
  destruct (pause_then_resume k 1700000001500 1700000004500 s r t Hl Hst)
    as (H1 & _ & H3 & H4 & (t2 & Ht2 & _ & _ & Hs2 & _) & H6 & H7); [done|].
  fold s1 in H3, H4, Ht2, H6, H7. fold s2 in Ht2, H6, H7.
  split; [exact H1|]. split; [exact H3|]. split; [exact H4|].
  split; [exact H6|]. split; [|exact H7].
  rewrite Ht2. simpl. rewrite Hs2, Hstart. done.
Defined.


(** X12.  Pausing and resuming under the cooperative strategy.  A running
    countdown with [n + 1] seconds left whose callback is the only one
    scheduled is paused and later resumed.  While it is paused nothing is
    due, however long the event loop turns.  After [resume] it goes on from
    where it stood: the [n + 1] ticks that were left, then [complete], and
    the timer is gone. *)
Theorem cooperative_pause_holds_the_countdown (n : nat) (k : string) (p q : Z)
    (s : Service) (r i : nat) (t : Timer) :
  worker s = None →
  lookup_timer k s = Some (r, t) → id t = k →
  type t = countdown → status t = running →
  remaining t = Z.of_nat (S n) →
  intervalId t = Some (S i) → timeouts s = [(S i, r)] →
  let s1 := (pause k p s).1 in
  let s2 := (resume k q s1).1 in
  idle s1 ∧ (∀ m, run m s1 = s1) ∧
  idle (run (S n) s2) ∧
  trace (run (S n) s2)
    = trace s ++ [Emitted (paused_event k); Emitted (resumed k)]
      ++ countdown_outputs (canVibrate s) (listeners s) k (duration t) (S n) ∧
  activeTimers (run (S n) s2) = JsMap.delete k (activeTimers s).
Proof.
  intros Hw Hl Hid Hty Hst Hrem Hi Hto s1 s2.
  pose proof Hl as [Hget Hr]%lookup_timer_Some.
  assert (Hlt : (r < length (heap s))%nat) by (by eapply lookup_lt_Some).
  assert (Hs1 : s1 = emit (paused_event k)
                  (store r (set_intervalId
                              (set_status t paused (startTime t) (Some p)) None)
                     (clearTimeout (S i)
                        (store r (set_status t paused (startTime t) (Some p)) s)))).
  { subst s1. unfold pause. rewrite Hl, Hst. rewrite bool_decide_eq_true_2 by done.
    cbn [negb]. unfold delegated. cbn [store set_heap isWorkerSupported worker].
    rewrite Hw. cbn [intervalId set_status]. rewrite Hi.
    by destruct (isWorkerSupported s). }
  assert (Hto1 : timeouts s1 = []).
  { rewrite Hs1. cbn. rewrite Hto. rewrite filter_cons. cbn.
    by destruct (decide (S i ≠ S i)). }
  assert (Hw1 : worker s1 = None) by (by rewrite Hs1).
  assert (Hidle : idle s1).
  { unfold idle, step, main_step. by rewrite Hw1, Hto1. }
  assert (Hl1 : lookup_timer k s1
                = Some (r, set_intervalId
                             (set_status t paused (startTime t) (Some p)) None)).
  { rewrite Hs1. unfold lookup_timer. cbn. rewrite Hget.
    by rewrite list_lookup_insert_eq by (by rewrite length_insert). }
  set (t2 := set_intervalId
               (resumed_timer
                  (set_intervalId (set_status t paused (startTime t) (Some p)) None) q)
               (Some (nextTimeout s1))).
  assert (Hlen1 : length (heap s1) = length (heap s)).
  { rewrite Hs1. cbn. by rewrite !length_insert. }
  assert (Hs2 : s2 = emit (resumed k)
                  (store r t2
                     (set_timeouts
                        (store r (resumed_timer
                                    (set_intervalId
                                       (set_status t paused (startTime t) (Some p))
                                       None) q) s1)
                        [(nextTimeout s1, r)] (S (nextTimeout s1))))).
  { subst s2. unfold resume. rewrite Hl1. cbn [status set_intervalId set_status].
    rewrite bool_decide_eq_true_2 by done. cbn [negb].
    fold (resumed_timer
            (set_intervalId (set_status t paused (startTime t) (Some p)) None) q).
    unfold delegated. cbn [store set_heap isWorkerSupported worker]. rewrite Hw1.
    assert ((if isWorkerSupported s1 then @None Worker else None) = None) as ->
      by (by destruct (isWorkerSupported s1)).
    unfold startMainThreadTimer, schedule.
    match goal with
    | |- context [heap (store r ?x s1) !! r] =>
        assert (Hh : heap (store r x s1) !! r = Some x)
          by (cbn; rewrite list_lookup_insert_eq; [done|lia]);
        rewrite Hh
    end.
    unfold store at 2 3 4. cbn [timeouts nextTimeout set_heap]. rewrite Hto1. done. }
  split; [done|]. split.
  { intros m. destruct m as [|m]; [done|]. rewrite run_S_idle; done. }
  assert (Hrun := TimerFacts.main_countdown_run n s2 r (nextTimeout s1) t2).
  destruct Hrun as (H1 & H2 & H3 & H4).
  - by rewrite Hs2.
  - rewrite Hs2. cbn. rewrite list_lookup_insert_eq; [done|].
    rewrite length_insert. lia.
  - subst t2. unfold resumed_timer. cbn. by destruct (p =? 0).
  - subst t2. unfold resumed_timer. cbn. by destruct (p =? 0).
  - subst t2. unfold resumed_timer. cbn. by destruct (p =? 0).
  - assert (id t2 = k) as ->.
    { subst t2. unfold resumed_timer. cbn. by destruct (p =? 0). }
    rewrite Hs2, Hs1. cbn. done.
  - by rewrite Hs2.
  - split; [done|].
    assert (Hid2 : id t2 = k).
    { subst t2. unfold resumed_timer. cbn. by destruct (p =? 0). }
    assert (Hd2 : duration t2 = duration t).
    { subst t2. unfold resumed_timer. cbn. by destruct (p =? 0). }
    rewrite H2, H3, Hid2, Hd2. split.
    + rewrite Hs2. unfold emit at 1 2 3. rewrite react_silent by done.
      cbn [trace set_trace store set_heap set_timeouts canVibrate listeners].
      rewrite Hs1. unfold emit. rewrite react_silent by done. cbn.
      rewrite <- !app_assoc. done.
    + rewrite Hs2, Hs1. done.
Qed.

Lemma cooperative_pause_holds_the_countdown_witness :
  let s := (first_tick false).1 in
  let k := (first_tick false).2 in
  let s1 := (pause k 1700000001500 s).1 in
  let s2 := (resume k 1700000004500 s1).1 in
  idle s1 ∧ (∀ m, run m s1 = s1) ∧ idle (run 2 s2) ∧
  trace (run 2 s2)
    = trace s ++ [Emitted (paused_event k); Emitted (resumed k)]
      ++ countdown_outputs false [] k 3 2.
Proof.
  intros s k s1 s2.
  assert (H : ∃ t, lookup_timer k s = Some (0%nat, t) ∧ id t = k ∧
                   type t = countdown ∧ status t = running ∧ remaining t = 2 ∧
                   intervalId t = Some 2%nat ∧ duration t = 3 ∧
                   timeouts s = [(2%nat, 0%nat)] ∧ canVibrate s = false ∧
                   listeners s = [] ∧ worker s = None)
    by (vm_compute; eexists; repeat split).
  destruct H as (t & Hl & Hid & Hty & Hst & Hrem & Hi & Hd & Hto & Hcv & Hls & Hw).
  pose proof (cooperative_pause_holds_the_countdown 1 k 1700000001500 1700000004500
                s 0 1 t Hw Hl Hid Hty Hst Hrem Hi Hto) as (H1 & H2 & H3 & H4 & _).
  fold s1 in H1, H2, H3, H4. fold s2 in H3, H4.
  rewrite Hcv, Hls, Hd in H4.
  split; [exact H1|]. split; [exact H2|]. split; [exact H3|exact H4].
Defined.

Lemma countdown_ticks_both_strategies_witness :
  let s := (startCountdown (Z.of_nat 3) no_options 1700000000000 (create false true)).1 in
  let k := (startCountdown (Z.of_nat 3) no_options 1700000000000 (create false true)).2 in
  ∃ m, idle (run m s) ∧
       events (trace (run m s))
         = map (λ j, tick k (Z.of_nat j) (Z.of_nat 3 - Z.of_nat j)) (rev (seq 0 3))
           ++ [complete k] ∧
       activeTimers (run m s) = [].
Proof.
  apply (TimerFacts.countdown_ticks_both_strategies false true 2 no_options
           1700000000000).
  by repeat split.
Defined.

End SchedulerFacts.

(** ** Stopwatches *)

Module StopwatchFacts.
Import TimerService TimerScenario TimerShape.

Local Arguments run : simpl never.

Lemma run_add (a b : nat) (s : Service) : run (a + b) s = run b (run a s).
Proof.
  revert s. induction a as [|a IH]; intros s; [done|].
  change (S a + b)%nat with (S (a + b)). rewrite !TimerFacts.run_S.
  destruct (step s) as [s'|] eqn:Hs; [apply IH|].
  destruct b as [|b]; [done|]. by rewrite TimerFacts.run_S, Hs.
Qed.








End StopwatchFacts.

(** ** Rest timers of any length *)

Module RestTimerFacts.
Import TimerService TimerScenario.

Local Arguments run : simpl never.



Section RestEvents.
Variables (cv vib snd : bool) (k : string) (d h : Z).





End RestEvents.



End RestTimerFacts.

(** ** Ids, stopping and restoring *)

Module TimerIdFacts.
Import Js JsString TimerService TimerShape.

(** *** Ids *)

Lemma digits_prefix_inj (x y a b : string) (c c' : ascii) :
  all_digits x = true → all_digits y = true →
  digit_value c = None → digit_value c' = None →
  x +:+ String c a = y +:+ String c' b → x = y.
Proof.
  revert y. induction x as [|d x IH]; intros y Hx Hy Hc Hc' Heq.
  - destruct y as [|e y]; [done|].
    rewrite TimeFormatFacts.append_nil_l, TimeFormatFacts.append_cons in Heq.
    injection Heq as -> _. simpl in Hy. by rewrite Hc in Hy.
  - destruct y as [|e y].
    + rewrite TimeFormatFacts.append_nil_l, TimeFormatFacts.append_cons in Heq.
      injection Heq as -> _. simpl in Hx. by rewrite Hc' in Hx.
    + rewrite !TimeFormatFacts.append_cons in Heq. injection Heq as -> Heq.
      f_equal. simpl in Hx, Hy. destruct (digit_value e); [|done].
      by apply (IH y).
Qed.

Lemma append_inj_l (p a b : string) : p +:+ a = p +:+ b → a = b.
Proof.
  induction p as [|c p IH]; [by rewrite !TimeFormatFacts.append_nil_l|].
  rewrite !TimeFormatFacts.append_cons. intros [= Heq]. by apply IH.
Qed.

Lemma timer_id_inj (n n' t t' : Z) :
  0 ≤ n → 0 ≤ n' →
  "timer_" +:+ toString n +:+ "_" +:+ toString t
  = "timer_" +:+ toString n' +:+ "_" +:+ toString t' →
  n = n'.
Proof.
  intros Hn Hn' Heq. apply append_inj_l in Heq.
  rewrite !(TimeFormatFacts.append_cons "_" ""), !TimeFormatFacts.append_nil_l in Heq.
  unfold toString in Heq at 1 3.
  destruct (Z.ltb_spec n 0); [lia|]. destruct (Z.ltb_spec n' 0); [lia|].
  destruct (TimeFormatFacts.digits_spec n Hn) as (Ha & _ & Hv).
  destruct (TimeFormatFacts.digits_spec n' Hn') as (Ha' & _ & Hv').
  apply digits_prefix_inj in Heq; [|done..]. congruence.
Qed.


(** *** The map of active timers *)

Lemma get_set_ne {V : Type} (k k' : string) (v : V) (m : list (string * V)) :
  k' ≠ k → JsMap.get k' (JsMap.set k v m) = JsMap.get k' m.
Proof.
  intros Hne. induction m as [|[k0 v0] m IH]; simpl.
  - destruct (String.eqb_spec k k'); [congruence|done].
  - destruct (String.eqb_spec k0 k) as [->|?]; simpl.
    + destruct (String.eqb_spec k k'); [congruence|done].
    + by rewrite IH.
Qed.

Lemma get_delete_ne {V : Type} (k k' : string) (m : list (string * V)) :
  k' ≠ k → JsMap.get k' (JsMap.delete k m) = JsMap.get k' m.
Proof.
  intros Hne. induction m as [|[k0 v0] m IH]; simpl; [done|].
  destruct (String.eqb_spec k0 k) as [->|?]; simpl.
  - destruct (String.eqb_spec k k'); [congruence|done].
  - by rewrite IH.
Qed.

Lemma get_None {V : Type} (k : string) (m : list (string * V)) :
  JsMap.get k m = None ↔ k ∉ map fst m.
Proof.
  induction m as [|[k0 v0] m IH]; simpl.
  - split; [|done]. intros _. apply not_elem_of_nil.
  - rewrite not_elem_of_cons. destruct (String.eqb_spec k0 k) as [->|?].
    + split; [done|]. by intros [? _].
    + rewrite IH. split; [|by intros [_ ?]]. intros ?. split; [congruence|done].
Qed.

Lemma get_Some {V : Type} (k : string) (v : V) (m : list (string * V)) :
  JsMap.get k m = Some v → (k, v) ∈ m.
Proof.
  induction m as [|[k0 v0] m IH]; simpl; [done|].
  destruct (String.eqb_spec k0 k) as [->|?].
  - intros [= ->]. apply elem_of_cons. by left.
  - intros ?. apply elem_of_cons. right. by apply IH.
Qed.

Lemma keys_delete {V : Type} (k x : string) (m : list (string * V)) :
  x ∈ map fst (JsMap.delete k m) → x ∈ map fst m.
Proof.
  induction m as [|[k0 v0] m IH]; simpl; [done|].
  destruct (String.eqb_spec k0 k) as [->|?]; simpl.
  - intros ?. apply elem_of_cons. by right.
  - rewrite !elem_of_cons. intros [?|?]; [by left|right; by apply IH].
Qed.

Lemma NoDup_delete {V : Type} (k : string) (m : list (string * V)) :
  NoDup (map fst m) → NoDup (map fst (JsMap.delete k m)).
Proof.
  induction m as [|[k0 v0] m IH]; simpl; [done|].
  rewrite NoDup_cons. intros [Hk0 Hm].
  destruct (String.eqb_spec k0 k) as [->|?]; simpl; [done|].
  rewrite NoDup_cons. split; [|by apply IH].
  intros Hin. by apply Hk0, (keys_delete k).
Qed.

Lemma get_delete_eq {V : Type} (k : string) (m : list (string * V)) :
  NoDup (map fst m) → JsMap.get k (JsMap.delete k m) = None.
Proof.
  induction m as [|[k0 v0] m IH]; simpl; [done|].
  rewrite NoDup_cons. intros [Hk0 Hm].
  destruct (String.eqb_spec k0 k) as [->|Hne]; simpl.
  - by apply get_None.
  - destruct (String.eqb_spec k0 k); [done|]. by apply IH.
Qed.

Lemma Forall_delete {V : Type} (P : string * V → Prop) (k : string)
    (m : list (string * V)) :
  Forall P m → Forall P (JsMap.delete k m).
Proof.
  induction 1 as [|[k0 v0] m H0 Hm IH]; simpl; [done|].
  destruct (String.eqb k0 k); [done|]. by constructor.
Qed.

Lemma Forall_set {V : Type} (P : string * V → Prop) (k : string) (v : V)
    (m : list (string * V)) :
  Forall P m → P (k, v) → Forall P (JsMap.set k v m).
Proof.
  intros Hm Hkv. induction Hm as [|[k0 v0] m H0 Hm IH]; simpl.
  - by constructor.
  - destruct (String.eqb_spec k0 k) as [->|?]; by constructor.
Qed.

Lemma keys_set_fresh {V : Type} (k : string) (v : V) (m : list (string * V)) :
  k ∉ map fst m → JsMap.set k v m = m ++ [(k, v)].
Proof.
  induction m as [|[k0 v0] m IH]; simpl; [done|].
  rewrite not_elem_of_cons. intros [Hne Hm].
  destruct (String.eqb_spec k0 k); [congruence|]. by rewrite IH.
Qed.


(** *** What the operations do to the active timers *)

Ltac same_keys :=
  unfold shrinks, emit, store, postMessage, clearTimeout, schedule;
  repeat match goal with
         | |- context [match ?x with _ => _ end] => destruct x
         end;
  simpl; rewrite ?length_insert; repeat split; eauto.

Lemma shrinks_refl (s : Service) : shrinks s s.
Proof. by repeat split; [..|left]. Qed.

Lemma shrinks_trans (s1 s2 s3 : Service) :
  well_kept s1 → shrinks s1 s2 → shrinks s2 s3 → well_kept s3.
Proof.
  intros (Hn & Hd & Hf) (Hl2 & Hn2 & Ha2) (Hl3 & Hn3 & Ha3).
  assert (Hk2 : NoDup (map fst (activeTimers s2)) ∧
                Forall (λ p, issued_below (nextTimerId s1) p.1
                             ∧ (p.2 < length (heap s1))%nat) (activeTimers s2)).
  { destruct Ha2 as [->|[k ->]]; [done|]. split; [by apply NoDup_delete|].
    by apply Forall_delete. }
  destruct Hk2 as [Hd2 Hf2]. unfold well_kept.
  rewrite Hn3, Hn2, Hl3, Hl2. split; [done|].
  destruct Ha3 as [->|[k ->]]; [done|]. split; [by apply NoDup_delete|].
  by apply Forall_delete.
Qed.

Lemma well_kept_shrinks (s s' : Service) : well_kept s → shrinks s s' → well_kept s'.
Proof. intros Hs Hsh. eapply shrinks_trans; [done|done|apply shrinks_refl]. Qed.

Lemma pause_shrinks (k : string) (now : Z) (s : Service) : shrinks s (pause k now s).1.
Proof.
  unfold pause. destruct (lookup_timer k s) as [[r t]|]; [|apply shrinks_refl].
  destruct (negb _); [apply shrinks_refl|]. unfold delegated. same_keys.
Qed.

Lemma resume_shrinks (k : string) (now : Z) (s : Service) :
  shrinks s (resume k now s).1.
Proof.
  unfold resume. destruct (lookup_timer k s) as [[r t]|]; [|apply shrinks_refl].
  destruct (negb _); [apply shrinks_refl|].
  unfold delegated, startMainThreadTimer. same_keys.
Qed.

Lemma stop_shrinks (k : string) (s : Service) : shrinks s (stop k s).1.
Proof.
  unfold stop. destruct (lookup_timer k s) as [[r t]|]; [|apply shrinks_refl].
  unfold delegated. same_keys.
Qed.

Lemma updateTimer_shrinks (r : nat) (s : Service) : shrinks s (updateTimer r s).
Proof.
  unfold updateTimer. destruct (heap s !! r) as [t|]; [|apply shrinks_refl].
  destruct (_ || _); [apply shrinks_refl|]. same_keys.
Qed.

Lemma handleWorkerMessage_shrinks (m : WorkerMessage) (s : Service) :
  shrinks s (handleWorkerMessage m s).
Proof.
  unfold handleWorkerMessage. destruct m as [k rem el|k];
    (destruct (lookup_timer k s) as [[r t]|]; [|apply shrinks_refl]); same_keys.
Qed.

Lemma step_shrinks (s s' : Service) : step s = Some s' → shrinks s s'.
Proof.
  unfold step, main_step.
  destruct (worker s) as [w|].
  - destruct (inbox w) as [|a ?].
    + destruct (outbox w) as [|m ?].
      * destruct (scheduled w) as [|k ?].
        -- destruct (timeouts s) as [|[i r] rest]; [done|]. intros [= <-].
           destruct (updateTimer_shrinks r (set_timeouts s rest (nextTimeout s)))
             as (? & ? & ?). by repeat split.
        -- intros [= <-]. by repeat split; [..|left].
      * intros [= <-].
        match goal with
        | |- shrinks s (handleWorkerMessage m ?s1) =>
            destruct (handleWorkerMessage_shrinks m s1) as (? & ? & ?)
        end. by repeat split.
    + intros [= <-]. by repeat split; [..|left].
  - destruct (timeouts s) as [|[i r] rest]; [done|]. intros [= <-].
    destruct (updateTimer_shrinks r (set_timeouts s rest (nextTimeout s)))
      as (? & ? & ?). by repeat split.
Qed.


Lemma launch_grows (k : string) (t : Timer) (ty : TimerType) (d : Z) (s : Service) :
  length (heap (launch k t ty d s)) = S (length (heap s)) ∧
  nextTimerId (launch k t ty d s) = nextTimerId s ∧
  activeTimers (launch k t ty d s) = JsMap.set k (length (heap s)) (activeTimers s).
Proof.
  unfold launch, delegated, startMainThreadTimer. simpl.
  destruct (if isWorkerSupported s then worker s else None).
  - unfold postMessage. simpl. destruct (worker s); simpl;
      rewrite length_app; simpl; repeat split; lia.
  - unfold schedule. simpl. rewrite list_lookup_middle by done. simpl.
    rewrite length_insert, length_app. simpl. repeat split; lia.
Qed.

Lemma startCountdown_grows (d : Z) (o : Options) (now : Z) (s : Service) :
  grows s (startCountdown d o now s).1.
Proof.
  unfold startCountdown, generateTimerId. simpl.
  match goal with
  | |- grows s (launch ?k ?t ?ty ?d' ?s1) =>
      destruct (launch_grows k t ty d' s1) as (H1 & H2 & H3)
  end.
  simpl in *. repeat split; [done..|]. by exists now.
Qed.

Lemma startStopwatch_grows (o : Options) (now : Z) (s : Service) :
  grows s (startStopwatch o now s).1.
Proof.
  unfold startStopwatch, generateTimerId. simpl.
  match goal with
  | |- grows s (launch ?k ?t ?ty ?d' ?s1) =>
      destruct (launch_grows k t ty d' s1) as (H1 & H2 & H3)
  end.
  simpl in *. repeat split; [done..|]. by exists now.
Qed.

Lemma issued_below_mono (a b : Z) (k : string) :
  a ≤ b → issued_below a k → issued_below b k.
Proof. intros Hab (n & t & Hn & ->). exists n, t. split; [lia|done]. Qed.

(** The id made from the counter is not among the ids made before. *)
Lemma issued_below_fresh (next t : Z) :
  ¬ issued_below next
      ("timer_" +:+ toString next +:+ "_" +:+ toString t).
Proof.
  intros (n & t' & Hn & Heq). apply timer_id_inj in Heq; lia.
Qed.

Lemma well_kept_fresh (s : Service) (t : Z) :
  well_kept s →
  "timer_" +:+ toString (nextTimerId s) +:+ "_" +:+ toString t
  ∉ map fst (activeTimers s).
Proof.
  intros (Hn & Hd & Hf) Hin. apply list_elem_of_fmap in Hin as ([k r] & Hk & Hin).
  rewrite Forall_forall in Hf. destruct (Hf _ Hin) as [Hi _]. simpl in Hk, Hi.
  rewrite <- Hk in Hi. by apply issued_below_fresh in Hi.
Qed.

Lemma well_kept_grows (s s' : Service) : well_kept s → grows s s' → well_kept s'.
Proof.
  intros Hs (Hl & Hn' & t & Ha). pose proof (well_kept_fresh s t Hs) as Hfresh.
  destruct Hs as (Hn & Hd & Hf). unfold well_kept. rewrite Hn', Hl, Ha.
  rewrite keys_set_fresh by done. split; [lia|]. split.
  - rewrite map_app. simpl. apply NoDup_app. split; [done|]. split.
    + intros x Hx ->%list_elem_of_singleton. done.
    + apply NoDup_singleton.
  - apply Forall_app. split.
    + eapply Forall_impl; [exact Hf|]. intros [k r] [Hi Hr]. simpl in *. split; [|lia].
      eapply issued_below_mono; [|exact Hi]. lia.
    + constructor; [|done]. simpl. split; [|lia].
      exists (nextTimerId s), t. split; [lia|done].
Qed.


Lemma stops_well_kept (ks : list string) (s : Service) :
  well_kept s → well_kept (fold_left (λ s k, (stop k s).1) ks s).
Proof.
  revert s. induction ks as [|k ks IH]; intros s Hs; [done|]. simpl.
  apply IH. eapply well_kept_shrinks; [done|apply stop_shrinks].
Qed.

Lemma restore_entry_well_kept (lapsed now : Z) (s : Service)
    (entry : string * (Timer * Z)) :
  well_kept s → well_kept (restore_entry lapsed now s entry).
Proof.
  intros Hs. destruct entry as [k [t real]]. unfold restore_entry.
  destruct (bool_decide (status t = running)); [|done].
  destruct (type t).
  - destruct (0 <? _).
    + eapply well_kept_grows; [done|apply startCountdown_grows].
    + eapply well_kept_shrinks; [done|]. by repeat split; [..|left].
  - match goal with
    | |- context [startStopwatch ?o now s] =>
        pose proof (startStopwatch_grows o now s) as Hg;
        destruct (startStopwatch o now s) as [s1 k1]
    end.
    simpl in Hg. pose proof (well_kept_grows _ _ Hs Hg) as Hs1.
    destruct (lookup_timer k1 s1) as [[r t1]|]; [|done].
    eapply well_kept_shrinks; [exact Hs1|].
    unfold shrinks, store. simpl. rewrite length_insert. by repeat split; [..|left].
Qed.

Lemma restores_well_kept (lapsed now : Z) (entries : list (string * (Timer * Z)))
    (s : Service) :
  well_kept s → well_kept (fold_left (restore_entry lapsed now) entries s).
Proof.
  revert s. induction entries as [|e entries IH]; intros s Hs; [done|]. simpl.
  by apply IH, restore_entry_well_kept.
Qed.

Lemma perform_well_kept (q : Request) (s : Service) :
  well_kept s → well_kept (perform q s).
Proof.
  intros Hs. destruct q as [d o now|o now|d o now|k now|k now|k| |state now| |]; simpl.
  - eapply well_kept_grows; [done|apply startCountdown_grows].
  - eapply well_kept_grows; [done|apply startStopwatch_grows].
  - unfold startRestTimer.
    pose proof (startCountdown_grows d (rest_options o) now s) as Hg.
    destruct (startCountdown d (rest_options o) now s) as [s1 k1]. simpl in Hg.
    pose proof (well_kept_grows _ _ Hs Hg) as Hs1.
    by destruct (or_default _ _).
  - eapply well_kept_shrinks; [done|apply pause_shrinks].
  - eapply well_kept_shrinks; [done|apply resume_shrinks].
  - eapply well_kept_shrinks; [done|apply stop_shrinks].
  - by apply stops_well_kept.
  - unfold restoreState. destruct state as [state|]; [|done].
    by apply restores_well_kept.
  - done.
  - destruct (step s) as [s'|] eqn:Hstep; [|done]. simpl.
    eapply well_kept_shrinks; [done|by apply step_shrinks].
Qed.

Lemma reaches_well_kept (workerAvailable cv : bool) (s : Service) :
  reaches (create workerAvailable cv) s → well_kept s.
Proof.
  induction 1 as [|s q _ IH]; [|by apply perform_well_kept].
  split; [done|]. split; [apply NoDup_nil_2|]. simpl. constructor.
Qed.

(** In a scheduler that is in order, the active timers are the ids of the
    map. *)
Lemma getTimer_None (k : string) (s : Service) :
  well_kept s → getTimer k s = None ↔ JsMap.get k (activeTimers s) = None.
Proof.
  intros (_ & _ & Hf). unfold getTimer, lookup_timer.
  destruct (JsMap.get k (activeTimers s)) as [r|] eqn:Hget; [|done].
  apply get_Some in Hget. rewrite Forall_forall in Hf.
  destruct (Hf _ Hget) as [_ Hr]. simpl in Hr.
  apply lookup_lt_is_Some in Hr as [t Ht]. rewrite Ht. done.
Qed.


Lemma launch_heap (k : string) (t : Timer) (ty : TimerType) (d : Z) (s : Service)
    (r : nat) :
  (r < length (heap s))%nat → heap (launch k t ty d s) !! r = heap s !! r.
Proof.
  intros Hr. unfold launch, delegated, startMainThreadTimer. simpl.
  destruct (if isWorkerSupported s then worker s else None).
  - unfold postMessage. simpl. destruct (worker s); simpl; by rewrite lookup_app_l.
  - unfold schedule. simpl. rewrite list_lookup_middle by done. simpl.
    rewrite list_lookup_insert_ne by lia. by rewrite lookup_app_l.
Qed.

(** A timer that is active stays as it is when another one is launched under
    a new id. *)
Lemma launch_keeps (k k' : string) (t t' : Timer) (ty : TimerType) (d : Z)
    (s : Service) :
  Forall (λ p, (p.2 < length (heap s))%nat) (activeTimers s) →
  JsMap.get k (activeTimers s) = None →
  getTimer k' s = Some t' → getTimer k' (launch k t ty d s) = Some t'.
Proof.
  intros Hf Hk. unfold getTimer, lookup_timer.
  destruct (JsMap.get k' (activeTimers s)) as [r|] eqn:Hget; [|done].
  destruct (launch_grows k t ty d s) as (_ & _ & ->).
  assert (k' ≠ k) by congruence. rewrite get_set_ne, Hget by done.
  apply get_Some in Hget. rewrite Forall_forall in Hf.
  pose proof (Hf _ Hget) as Hr. simpl in Hr.
  by rewrite launch_heap.
Qed.

(** X15.  Ids are never reused.  In any scheduler reached from a new one
    through its interface, worker errors and turns of the event loop, the id
    [startCountdown] or [startStopwatch] returns is not the id of an active
    timer, and the timers that were active are active afterwards, each under
    its id with its object untouched. *)
Theorem new_timers_get_fresh_ids (workerAvailable cv : bool) (s : Service) (d : Z)
    (o : Options) (now : Z) :
  reaches (create workerAvailable cv) s →
  let s1 := (startCountdown d o now s).1 in
  let k1 := (startCountdown d o now s).2 in
  let s2 := (startStopwatch o now s).1 in
  let k2 := (startStopwatch o now s).2 in
  getTimer k1 s = None ∧ getTimer k2 s = None ∧
  ∀ k t, getTimer k s = Some t →
         k ≠ k1 ∧ k ≠ k2 ∧ getTimer k s1 = Some t ∧ getTimer k s2 = Some t.
Proof.
  intros Hreach%reaches_well_kept s1 k1 s2 k2.
  assert (Hfresh : JsMap.get k1 (activeTimers s) = None).
  { apply get_None. subst k1. unfold startCountdown, generateTimerId. simpl.
    by apply well_kept_fresh. }
  assert (Hk : k2 = k1) by done.
  split; [by apply getTimer_None|]. split; [rewrite Hk; by apply getTimer_None|].
  intros k t Ht.
  assert (Hne : k ≠ k1).
  { intros ->. apply (getTimer_None k1 s Hreach) in Hfresh. congruence. }
  assert (Hrefs : Forall (λ p, (p.2 < length (heap s))%nat) (activeTimers s)).
  { destruct Hreach as (_ & _ & Hf). eapply Forall_impl; [exact Hf|].
    by intros ? [_ ?]. }
  split; [done|]. split; [by rewrite Hk|]. split.
  - subst s1. unfold startCountdown, generateTimerId. simpl. by apply launch_keeps.
  - subst s2. unfold startStopwatch, generateTimerId. simpl. by apply launch_keeps.
Qed.

Lemma new_timers_get_fresh_ids_witness :
  let s := perform (StartCountdown 30 no_options 1000) (create true false) in
  let s1 := (startCountdown 5 no_options 2000 s).1 in
  let k1 := (startCountdown 5 no_options 2000 s).2 in
  getTimer k1 s = None ∧
  ∀ k t, getTimer k s = Some t → k ≠ k1 ∧ getTimer k s1 = Some t.
Proof.
  intros s s1 k1.
  destruct (new_timers_get_fresh_ids true false s 5 no_options 2000)
    as (H1 & _ & H3); [apply reaches_perform, reaches_refl|].
  split; [done|]. intros k t Ht. by destruct (H3 k t Ht) as (? & _ & ? & _).
Defined.

(** X16.  [stop] in any scheduler reached from a new one.  For an id that is
    not active it returns [false] and changes nothing.  For an active timer
    it returns [true], emits [stopped] and nothing else, and the timer is no
    longer active.  Either way every other timer is as it was. *)
Theorem stop_removes_one_timer (workerAvailable cv : bool) (s : Service)
    (k : string) :
  reaches (create workerAvailable cv) s →
  (getTimer k s = None → stop k s = (s, false)) ∧
  (is_Some (getTimer k s) →
   (stop k s).2 = true ∧ getTimer k (stop k s).1 = None ∧
   trace (stop k s).1 = trace s ++ [Emitted (stopped k)]) ∧
  (∀ k', k' ≠ k → getTimer k' (stop k s).1 = getTimer k' s).
Proof.
  intros Hreach%reaches_well_kept. pose proof Hreach as (_ & Hd & _).
  unfold getTimer at 1 2. unfold stop.
  destruct (lookup_timer k s) as [[r t]|] eqn:Hl; simpl.
  - split; [done|].
    assert (Hafter : ∀ s1, activeTimers s1 = activeTimers s → heap s1 = heap s →
              ∀ k', getTimer k'
                      (emit (stopped k)
                         (set_activeTimers s1 (JsMap.delete k (activeTimers s1))))
                    = snd <$> match JsMap.get k' (JsMap.delete k (activeTimers s)) with
                              | Some r => match heap s !! r with
                                          | Some t => Some (r, t)
                                          | None => None
                                          end
                              | None => None
                              end).
    { intros s1 Ha Hh k'. unfold getTimer, lookup_timer. simpl. by rewrite Ha, Hh. }
    assert (Hs1 : ∃ s1, activeTimers s1 = activeTimers s ∧ heap s1 = heap s ∧
                        trace s1 = trace s ∧ listeners s1 = listeners s ∧
                        match delegated s with
                        | Some _ => postMessage (stop_action k) s
                        | None => match intervalId t with
                                  | Some (S i) => clearTimeout (S i) s
                                  | _ => s
                                  end
                        end = s1).
    { eexists. split; [|split; [|split; [|split; [|reflexivity]]]];
        unfold postMessage, clearTimeout;
        destruct (delegated s), (worker s), (intervalId t) as [[|?]|]; done. }
    destruct Hs1 as (s1 & Ha & Hh & Htr & Hls & ->).
    split; [|intros k' Hne; rewrite (Hafter s1 Ha Hh), get_delete_ne by done; done].
    intros _. split; [done|]. split.
    + rewrite (Hafter s1 Ha Hh), get_delete_eq by done. done.
    + unfold emit. simpl. rewrite SchedulerFacts.react_silent by done. by rewrite Htr.
  - split; [done|]. split; [by intros [? ?]|done].
Qed.

Lemma stop_removes_one_timer_witness :
  let s := perform (StartStopwatch no_options 2000)
             (perform (StartCountdown 30 no_options 1000) (create false false)) in
  stop "timer_9_9" s = (s, false) ∧
  getTimer "timer_1_1000" (stop "timer_1_1000" s).1 = None ∧
  getTimer "timer_2_2000" (stop "timer_1_1000" s).1 = getTimer "timer_2_2000" s.
Proof.
  intros s.
  assert (Hreach : reaches (create false false) s)
    by (do 2 apply reaches_perform; apply reaches_refl).
  split; [|split].
  - apply (stop_removes_one_timer false false s "timer_9_9" Hreach). reflexivity.
  - destruct (stop_removes_one_timer false false s "timer_1_1000" Hreach)
      as (_ & H2 & _). destruct H2 as (_ & H2 & _); [|done].
    vm_compute. by eexists.
  - by apply (stop_removes_one_timer false false s "timer_1_1000" Hreach).
Defined.

Lemma stops_all (n : nat) (s : Service) :
  well_kept s → length (activeTimers s) = n →
  activeTimers (stopAll s) = [] ∧
  trace (stopAll s) = trace s ++ map (λ p, Emitted (stopped p.1)) (activeTimers s).
Proof.
  revert s. induction n as [|n IH]; intros s Hs Hlen; unfold stopAll.
  - destruct (activeTimers s) eqn:Ha; [|done]. simpl. by rewrite Ha, app_nil_r.
  - destruct (activeTimers s) as [|[k r] rest] eqn:Ha; [done|]. simpl.
    pose proof Hs as (_ & _ & Hf). rewrite Ha in Hf.
    apply Forall_cons in Hf as [[_ Hr] _]. simpl in Hr.
    apply lookup_lt_is_Some in Hr as [t Ht].
    assert (Hl : lookup_timer k s = Some (r, t)).
    { unfold lookup_timer. rewrite Ha. simpl. by rewrite String.eqb_refl, Ht. }
    pose proof (stop_shrinks k s) as Hsh.
    pose proof (well_kept_shrinks _ _ Hs Hsh) as Hs1.
    assert (Hstop : activeTimers (stop k s).1 = rest ∧
                    trace (stop k s).1 = trace s ++ [Emitted (stopped k)]).
    { unfold stop. rewrite Hl. unfold emit. simpl. rewrite SchedulerFacts.react_silent by done.
      unfold postMessage, clearTimeout.
      destruct (delegated s), (worker s), (intervalId t) as [[|?]|]; simpl;
        rewrite Ha; simpl; rewrite String.eqb_refl; done. }
    destruct Hstop as [Hrest Htr].
    destruct (IH (stop k s).1 Hs1) as [H1 H2].
    { rewrite Hrest. simpl in Hlen. lia. }
    unfold stopAll in H1, H2. rewrite Hrest in H1, H2.
    rewrite H1, H2, Htr, <- app_assoc. done.
Qed.

(** X17.  [stopAll] in any scheduler reached from a new one: afterwards no
    timer is active, and [stopped] has been emitted once for every timer
    that was, in the order in which the timers became active, and nothing
    else. *)
Theorem stopAll_stops_every_timer (workerAvailable cv : bool) (s : Service) :
  reaches (create workerAvailable cv) s →
  activeTimers (stopAll s) = [] ∧
  trace (stopAll s) = trace s ++ map (λ p, Emitted (stopped p.1)) (activeTimers s) ∧
  ∀ k, getTimer k (stopAll s) = None.
Proof.
  intros Hreach%reaches_well_kept.
  destruct (stops_all (length (activeTimers s)) s Hreach eq_refl) as [H1 H2].
  split; [done|]. split; [done|]. intros k. unfold getTimer, lookup_timer.
  by rewrite H1.
Qed.

Lemma stopAll_stops_every_timer_witness :
  let s := perform (StartStopwatch no_options 2000)
             (perform (StartCountdown 30 no_options 1000) (create true false)) in
  activeTimers (stopAll s) = [] ∧
  trace (stopAll s)
    = trace s ++ map (λ p, Emitted (stopped p.1)) (activeTimers s) ∧
  ∀ k, getTimer k (stopAll s) = None.
Proof.
  intros s. apply (stopAll_stops_every_timer true false s).
  do 2 apply reaches_perform. apply reaches_refl.
Defined.

(** *** Timers that are not active *)

Lemma get_delete_None {V : Type} (k k' : string) (m : list (string * V)) :
  JsMap.get k m = None → JsMap.get k (JsMap.delete k' m) = None.
Proof.
  rewrite !get_None. intros Hk Hin. by apply Hk, (keys_delete k').
Qed.

(** What one [emit] puts out is about the timer of the event. *)
Lemma emitted_about (cv : bool) (ls : list Listener) (e : Event) (k : string) :
  timer_of e ≠ k → Forall (λ o, ¬ about k o) (emitted cv ls e).
Proof.
  intros Hne. unfold emitted. constructor; [exact Hne|].
  assert (Hbuzz : ∀ vib p, Forall (λ o, ¬ about k o) (buzz vib cv p)).
  { intros vib p. unfold buzz. destruct (_ && _); [|done].
    constructor; [|done]. by intros []. }
  induction ls as [|l ls IH]; simpl; [done|]. apply Forall_app. split; [|done].
  destruct l as [timerId h vib|timerId vib snd], e as [k' rem el|k'| | | | | | ];
    simpl in *; try done.
  - destruct (String.eqb_spec k' timerId) as [<-|?]; simpl; [|done].
    apply Forall_app. split.
    + destruct (_ && _); [|done]. constructor; [exact Hne|]. apply Hbuzz.
    + destruct (_ && _); [|done]. constructor; [exact Hne|]. apply Hbuzz.
  - destruct (String.eqb_spec k' timerId) as [<-|?]; simpl; [|done].
    constructor; [exact Hne|]. apply Forall_app. split; [apply Hbuzz|].
    destruct snd; [|done]. constructor; [|done]. by intros [].
Qed.

Lemma quiet_about_refl (k : string) (s : Service) :
  JsMap.get k (activeTimers s) = None → quiet_about k s s.
Proof. intros Hk. split; [done|]. exists []. by rewrite app_nil_r. Qed.

Lemma quiet_about_trans (k : string) (s1 s2 s3 : Service) :
  quiet_about k s1 s2 → quiet_about k s2 s3 → quiet_about k s1 s3.
Proof.
  intros (_ & tr1 & H1 & F1) (Hk & tr2 & H2 & F2). split; [done|].
  exists (tr1 ++ tr2). rewrite H2, H1, app_assoc. split; [done|].
  by apply Forall_app.
Qed.

Lemma updateTimer_quiet (k : string) (r : nat) (s : Service) :
  JsMap.get k (activeTimers s) = None → quiet_about k s (updateTimer r s).
Proof.
  intros Hk. unfold updateTimer.
  destruct (heap s !! r) as [t|]; [|by apply quiet_about_refl].
  unfold JsMap.has.
  destruct (JsMap.get (id t) (activeTimers s)) as [r'|] eqn:Hid; simpl;
    [|by apply quiet_about_refl].
  destruct (negb (bool_decide (status t = running))); [by apply quiet_about_refl|].
  assert (Hne : id t ≠ k) by congruence.
  destruct (type t).
  - destruct (_ <=? 0).
    + split; [simpl; by apply get_delete_None|]. simpl.
      eexists. rewrite <- app_assoc. split; [done|].
      apply Forall_app. split; by apply emitted_about.
    + unfold schedule. simpl. destruct (<[r:=_]> (heap s) !! r); simpl;
        (split; [done|]; eexists; split; [done|]; by apply emitted_about).
  - unfold schedule. simpl. destruct (<[r:=_]> (heap s) !! r); simpl;
      (split; [done|]; eexists; split; [done|]; by apply emitted_about).
Qed.

Lemma handleWorkerMessage_quiet (k : string) (m : WorkerMessage) (s : Service) :
  JsMap.get k (activeTimers s) = None → quiet_about k s (handleWorkerMessage m s).
Proof.
  intros Hk. unfold handleWorkerMessage, lookup_timer.
  destruct m as [k' rem el|k'];
    (destruct (JsMap.get k' (activeTimers s)) as [r|] eqn:Hk';
       [|by apply quiet_about_refl]);
    (destruct (heap s !! r) as [t|]; [|by apply quiet_about_refl]);
    assert (Hne : k' ≠ k) by congruence.
  - split; [done|]. simpl. eexists. split; [done|]. by apply emitted_about.
  - split; [simpl; by apply get_delete_None|]. simpl.
    eexists. split; [done|]. by apply emitted_about.
Qed.

Lemma step_quiet (k : string) (s s' : Service) :
  JsMap.get k (activeTimers s) = None → step s = Some s' → quiet_about k s s'.
Proof.
  intros Hk. unfold step, main_step.
  destruct (worker s) as [w|].
  - destruct (inbox w) as [|a ?].
    + destruct (outbox w) as [|m ?].
      * destruct (scheduled w) as [|k' ?].
        -- destruct (timeouts s) as [|[i r] rest]; [done|]. intros [= <-].
           by apply (updateTimer_quiet k r (set_timeouts s rest (nextTimeout s))).
        -- intros [= <-]. split; [done|]. exists []. simpl. by rewrite app_nil_r.
      * intros [= <-].
        match goal with
        | |- quiet_about k s (handleWorkerMessage m ?s1) =>
            by apply (handleWorkerMessage_quiet k m s1)
        end.
    + intros [= <-]. split; [done|]. exists []. simpl. by rewrite app_nil_r.
  - destruct (timeouts s) as [|[i r] rest]; [done|]. intros [= <-].
    by apply (updateTimer_quiet k r (set_timeouts s rest (nextTimeout s))).
Qed.

Lemma run_quiet (k : string) (m : nat) (s : Service) :
  JsMap.get k (activeTimers s) = None → quiet_about k s (run m s).
Proof.
  revert s. induction m as [|m IH]; intros s Hk; [by apply quiet_about_refl|].
  rewrite TimerFacts.run_S. destruct (step s) as [s'|] eqn:Hstep;
    [|by apply quiet_about_refl].
  pose proof (step_quiet k s s' Hk Hstep) as Hq.
  eapply quiet_about_trans; [exact Hq|]. apply IH. by destruct Hq.
Qed.

(** X25.  The event loop emits nothing about a timer that is not active.
    Whatever the scheduler and however many turns the event loop takes, if
    [k] is not the id of an active timer then no event about [k] (no tick,
    no completion, no rest notification) is put out and [k] does not become
    active.  In a scheduler reached from a new one this holds in particular
    after [stop k], under either strategy: messages the worker had already
    posted and callbacks that were already scheduled are dropped. *)
Theorem inactive_timers_are_silent (k : string) (m : nat) (s : Service) :
  JsMap.get k (activeTimers s) = None →
  getTimer k (run m s) = None ∧
  ∃ tr, trace (run m s) = trace s ++ tr ∧ Forall (λ o, ¬ about k o) tr.
Proof.
  intros Hk. destruct (run_quiet k m s Hk) as [Hk' Htr]. split; [|done].
  unfold getTimer, lookup_timer. by rewrite Hk'.
Qed.

Lemma inactive_timers_are_silent_witness :
  let s := perform (Stop "timer_1_1000")
             (perform Turn (perform Turn
                (perform (StartCountdown 30 no_options 1000) (create true false)))) in
  getTimer "timer_1_1000" (run 10 s) = None ∧
  ∃ tr, trace (run 10 s) = trace s ++ tr ∧
        Forall (λ o, ¬ about "timer_1_1000" o) tr.
Proof.
  intros s. apply (inactive_timers_are_silent "timer_1_1000" 10 s).
  vm_compute. reflexivity.
Defined.

(** *** Suspension *)

Lemma restore_entry_paused (lapsed now : Z) (s : Service)
    (entry : string * (Timer * Z)) :
  bool_decide (status entry.2.1 = running) = false →
  restore_entry lapsed now s entry = s.
Proof. destruct entry as [k [t real]]. simpl. unfold restore_entry. by intros ->. Qed.

Lemma restores_running_only (lapsed now : Z) (entries : list (string * (Timer * Z)))
    (s : Service) :
  fold_left (restore_entry lapsed now) entries s
  = fold_left (restore_entry lapsed now)
      (List.filter (λ e, bool_decide (status e.2.1 = running)) entries) s.
Proof.
  revert s. induction entries as [|e entries IH]; intros s; [done|]. simpl.
  destruct (bool_decide (status e.2.1 = running)) eqn:He; simpl; [apply IH|].
  by rewrite restore_entry_paused.
Qed.

(** X18.  [restoreState] forgets the timers that were paused when the state
    was saved: restoring a state is restoring the state without its paused
    timers.  So a state in which every timer was paused, like no state at
    all, leaves the scheduler as it is, with nothing emitted. *)
Theorem restoreState_forgets_paused_timers (state : State) (now : Z) (s : Service) :
  restoreState (Some state) now s
  = restoreState
      (Some {| saved := List.filter (λ e, bool_decide (status e.2.1 = running))
                          (saved state);
               timestamp := timestamp state |}) now s ∧
  (Forall (λ e, status e.2.1 = paused) (saved state) →
   restoreState (Some state) now s = s) ∧
  restoreState None now s = s.
Proof.
  unfold restoreState. simpl. split; [apply restores_running_only|].
  split; [|done]. intros Hall. rewrite restores_running_only.
  assert (List.filter (λ e, bool_decide (status e.2.1 = running)) (saved state) = [])
    as ->; [|done].
  induction Hall as [|e l He _ IH]; [done|]. simpl. rewrite He. done.
Qed.

End TimerIdFacts.

(** ** Reading times and writing durations *)

Module DurationFacts.
Import Js JsString TimerService WorkoutFormat.

Lemma number_toString_spec (n : Z) :
  0 ≤ n ≤ 2 ^ 53 →
  all_digits (number_toString n) = true ∧ number_toString n ≠ "" ∧
  dvalue (number_toString n) 0 = n.
Proof.
  intros Hn. rewrite TimeFormatFacts.number_toString_exact by done.
  apply TimeFormatFacts.digits_spec. lia.
Qed.

Lemma parseInt_number_toString (n : Z) :
  0 ≤ n ≤ 2 ^ 53 → parseInt (number_toString n) = Num n.
Proof.
  intros Hn. destruct (number_toString_spec n Hn) as (H1 & H2 & H3).
  rewrite TimeFormatFacts.parseInt_digits, H3 by done.
  rewrite TimeFormatFacts.to_double_exact; [done|lia].
Qed.

Lemma digit_value_nonneg (c : ascii) : 0 ≤ default 0 (digit_value c).
Proof.
  unfold digit_value.
  destruct (Z.leb_spec 48 (Z.of_nat (nat_of_ascii c))); simpl; [|done].
  destruct (Z.of_nat (nat_of_ascii c) <=? 57); simpl; lia.
Qed.

Lemma dvalue_nonneg (s : string) (acc : Z) : 0 ≤ acc → 0 ≤ dvalue s acc.
Proof.
  revert acc. induction s as [|c r IH]; intros acc Hacc; [done|].
  cbn [dvalue]. apply IH. pose proof (digit_value_nonneg c). lia.
Qed.

Lemma length_split (c : ascii) (s : string) :
  length (split c s)
  = S (length (List.filter (λ x, Ascii.eqb x c) (list_ascii_of_string s))).
Proof.
  induction s as [|x r IH]; [done|]. cbn [split list_ascii_of_string List.filter].
  destruct (Ascii.eqb x c); simpl; [by rewrite IH|].
  destruct (split c r); [done|]. done.
Qed.

(** X19.  [parseTime] reads two or three parts separated by colons.  A string
    without a colon, such as a bare number of seconds, and a string with
    three colons or more give 0, whatever they contain. *)
Theorem parseTime_other_shapes (s : string) :
  colons s = 0%nat ∨ (3 ≤ colons s)%nat → parseTime s = Num 0.
Proof.
  intros Hc. unfold parseTime.
  pose proof (length_split ":" s) as Hl. fold (colons s) in Hl.
  destruct (split ":" s) as [|a [|b [|c [|d l]]]]; simpl in *; try done; lia.
Qed.

Lemma parseTime_other_shapes_witness :
  parseTime "90" = Num 0 ∧ parseTime "1:02:03:04" = Num 0.
Proof.
  split; apply parseTime_other_shapes; [left|right]; vm_compute; lia.
Defined.

(** X20.  [parseTime] on two parts of digits: the first counts minutes, the
    second seconds, whatever their lengths, as long as the seconds they add
    up to do not exceed [Number.MAX_SAFE_INTEGER].  Neither part has to be
    padded, zeros in front do not matter, and the seconds are not required
    to stay below 60. *)
Theorem parseTime_minutes_seconds (a b : string) :
  all_digits a = true → a ≠ "" → all_digits b = true → b ≠ "" →
  dvalue a 0 * 60 + dvalue b 0 ≤ MAX_SAFE_INTEGER →
  parseTime (a +:+ ":" +:+ b) = Num (dvalue a 0 * 60 + dvalue b 0).
Proof.
  unfold MAX_SAFE_INTEGER. intros Ha Hane Hb Hbne Hle.
  pose proof (dvalue_nonneg a 0 ltac:(done)). pose proof (dvalue_nonneg b 0 ltac:(done)).
  unfold parseTime.
  rewrite (TimeFormatFacts.append_cons ":" ""), TimeFormatFacts.append_nil_l.
  rewrite TimeFormatFacts.split_digits_colon, TimeFormatFacts.split_digits by done.
  cbn [map]. rewrite !TimeFormatFacts.parseInt_digits by done.
  rewrite !TimeFormatFacts.to_double_exact by lia.
  apply TimeFormatFacts.ms_exact; lia.
Qed.

Lemma parseTime_minutes_seconds_witness :
  parseTime "5:3" = Num 303 ∧ parseTime "1:75" = Num 135 ∧
  parseTime "007:5" = Num 425.
Proof.
  split; [|split].
  - apply (parseTime_minutes_seconds "5" "3"); first [done|by vm_compute].
  - apply (parseTime_minutes_seconds "1" "75"); first [done|by vm_compute].
  - apply (parseTime_minutes_seconds "007" "5"); first [done|by vm_compute].
Defined.

(** X21.  [formatWorkoutDuration] writes a duration of [s] seconds, from 0
    to [Number.MAX_SAFE_INTEGER], as [M:SS] below one hour and as [H:MM:SS]
    from one hour on, and [parseTime] of the timer service reads the number
    of seconds back from either.  So two different durations in this range
    are never written alike. *)
Theorem parseTime_formatWorkoutDuration (s : Z) :
  0 ≤ s ≤ MAX_SAFE_INTEGER →
  parseTime (formatWorkoutDuration s) = Num s ∧
  ∀ s', 0 ≤ s' ≤ MAX_SAFE_INTEGER →
        formatWorkoutDuration s' = formatWorkoutDuration s → s' = s.
Proof.
  unfold MAX_SAFE_INTEGER.
  assert (Hparse : ∀ s, 0 ≤ s ≤ 2 ^ 53 - 1 →
                        parseTime (formatWorkoutDuration s) = Num s).
  { clear s. intros s Hs.
    assert (Hfd : floor_div s 3600 = s / 3600)
      by (apply TimeFormatFacts.floor_div_exact; lia).
    pose proof (Z.div_mod s 3600). pose proof (Z.div_mod (s mod 3600) 60).
    pose proof (Z.mod_pos_bound s 3600). pose proof (Z.mod_pos_bound s 60).
    pose proof (Z.mod_pos_bound (s mod 3600) 60).
    assert (s mod 60 = (s mod 3600) mod 60).
    { symmetry. apply Z.mod_mod_divide. by exists 60. }
    assert (Hh : 0 ≤ s / 3600 ≤ 2 ^ 53).
    { split; [apply Z.div_pos; lia|]. apply Z.div_le_upper_bound; lia. }
    assert (Hr1 : Z.rem s 3600 = s mod 3600) by (apply Z.rem_mod_nonneg; lia).
    assert (Hr2 : Z.rem s 60 = s mod 60) by (apply Z.rem_mod_nonneg; lia).
    assert (Hm : 0 ≤ s mod 3600 / 60 ≤ 2 ^ 53).
    { split; [apply Z.div_pos; lia|]. apply Z.div_le_upper_bound; lia. }
    assert (Hsec : 0 ≤ s mod 60 ≤ 2 ^ 53) by lia.
    unfold formatWorkoutDuration, parseTime. rewrite Hfd, Hr1, Hr2.
    fold (pad2 (s mod 3600 / 60)). fold (pad2 (s mod 60)).
    destruct (number_toString_spec _ Hh) as (A1 & _),
      (number_toString_spec _ Hm) as (B1 & _),
      (TimeFormatFacts.pad2_spec _ Hm) as (B2 & _),
      (TimeFormatFacts.pad2_spec _ Hsec) as (C1 & _).
    rewrite !(TimeFormatFacts.append_cons ":" ""), !TimeFormatFacts.append_nil_l.
    destruct (Z.ltb_spec 0 (s / 3600)).
    - rewrite !TimeFormatFacts.split_digits_colon, TimeFormatFacts.split_digits
        by done.
      cbn [map].
      rewrite parseInt_number_toString, !TimeFormatFacts.parseInt_pad2 by done.
      rewrite TimeFormatFacts.hms_exact by lia. f_equal. lia.
    - rewrite !TimeFormatFacts.split_digits_colon, TimeFormatFacts.split_digits
        by done.
      cbn [map].
      rewrite parseInt_number_toString, !TimeFormatFacts.parseInt_pad2 by done.
      rewrite TimeFormatFacts.ms_exact by lia. f_equal. lia. }
  intros Hs. split; [by apply Hparse|].
  intros s' Hs' Heq. pose proof (Hparse s' Hs') as H1. rewrite Heq, Hparse in H1 by done.
  congruence.
Qed.

Lemma parseTime_formatWorkoutDuration_witness :
  formatWorkoutDuration 3725 = "1:02:05" ∧
  parseTime (formatWorkoutDuration 3725) = Num 3725 ∧
  formatWorkoutDuration 754 = "12:34" ∧
  parseTime (formatWorkoutDuration 754) = Num 754.
Proof.
  split; [reflexivity|].
  split; [apply parseTime_formatWorkoutDuration; unfold MAX_SAFE_INTEGER; lia|].
  split; [reflexivity|].
  apply parseTime_formatWorkoutDuration. unfold MAX_SAFE_INTEGER. lia.
Defined.

End DurationFacts.

(** ** Routines and exercise definitions *)

Module RoutineFacts.
Import Store WorkoutService Routines SessionShape.

(** *** The exercises store *)

Lemma elem_of_index_insert (e x : Exercise) (l : list Exercise) :
  x ∈ index_insert e l ↔ x = e ∨ x ∈ l.
Proof.
  induction l as [|y l IH]; simpl.
  - rewrite list_elem_of_singleton. split; [by left|]. by intros [?|?%elem_of_nil].
  - destruct (index_before e y).
    + by rewrite elem_of_cons.
    + rewrite !elem_of_cons, IH. tauto.
Qed.

Lemma Forall_index_insert (P : Exercise → Prop) (e : Exercise) (l : list Exercise) :
  P e → Forall P l → Forall P (index_insert e l).
Proof.
  intros He Hl. apply Forall_forall. intros x [->|Hx]%elem_of_index_insert; [done|].
  rewrite Forall_forall in Hl. by apply Hl.
Qed.

Lemma filter_index_insert_other (rid : string) (e : Exercise) (l : list Exercise) :
  ex_routineId e ≠ rid →
  filter (λ x, ex_routineId x = rid) (index_insert e l)
  = filter (λ x, ex_routineId x = rid) l.
Proof.
  intros Hne. induction l as [|y l IH]; simpl.
  - by rewrite filter_cons_False.
  - destruct (index_before e y).
    + by rewrite (filter_cons_False _ e).
    + rewrite !(filter_cons _ y), IH. done.
Qed.

Lemma existsb_id_false (k : string) (l : list Exercise) :
  Forall (λ x, ex_id x ≠ k) l →
  existsb (λ x, String.eqb (ex_id x) k) l = false.
Proof.
  induction 1 as [|x l Hx _ IH]; simpl; [done|].
  rewrite IH. by destruct (String.eqb_spec (ex_id x) k).
Qed.

(** The default that [a || b] puts in the place of a number that the
    validator let through is used for a number that is missing, [NaN] or
    zero only, and what comes out is at least [min b 1]. *)
Lemma or_else_validated (v : Js.value) (b : Z) :
  (∀ z, v = Some (Js.Num z) → 0 ≤ z) →
  (Js.truthy v = false → Js.or_else v b = b) ∧
  (∀ z, v = Some (Js.Num z) → z ≠ 0 → Js.or_else v b = z ∧ 1 ≤ z).
Proof.
  intros Hv. destruct v as [[|z]|]; simpl; [by split..| |by split].
  destruct (Z.eqb_spec z 0); simpl; split; try done.
  - intros ? [= <-]. done.
  - intros ? [= <-] _. specialize (Hv z eq_refl). split; [done|lia].
Qed.

Lemma or_else_bound (v : Js.value) (b lo : Z) :
  (∀ z, v = Some (Js.Num z) → 0 ≤ z) → lo ≤ b → lo ≤ 1 → lo ≤ Js.or_else v b.
Proof.
  intros Hv Hb Hlo. destruct v as [[|z]|]; simpl; [done| |done].
  destruct (Z.eqb_spec z 0); [done|]. specialize (Hv z eq_refl). lia.
Qed.

(** X22.  [createExercise] on data that [validateExerciseData] has let
    through, the numbers being whole, with an id that is not in use.  It
    resolves with a record that asks for at least one set and one
    repetition, a weight of at least zero and a rest of at least one second:
    of the sets, the repetitions, the weight and the rest time, a number
    that is missing, [NaN] or zero is replaced by the default (1 set, 1
    repetition, weight 0, 60 seconds), and any other is kept; the name, the
    routine and the notes are those of the data, missing notes being empty.
    The record is among the exercises of its routine, the exercises of every
    other routine, the routines and the sessions are as before, and
    [exerciseCreated] is emitted with the record. *)
Theorem createExercise_applies_defaults (i : ExerciseInput) (newId context : string)
    (c : Catalog) :
  validateExerciseData (as_data i) context = passes →
  Forall (λ x, ex_id x ≠ newId) (exerciseStore (c_db c)) →
  ∃ e c', createExercise i newId c = (c', Ok e) ∧
    ex_id e = newId ∧ ex_routineId e = ei_routineId i ∧ ex_name e = ei_name i ∧
    1 ≤ ex_sets e ∧ 1 ≤ ex_reps e ∧ 0 ≤ ex_weight e ∧ 1 ≤ ex_restTime e ∧
    (Js.truthy (ei_sets i) = false → ex_sets e = 1) ∧
    (Js.truthy (ei_reps i) = false → ex_reps e = 1) ∧
    (Js.truthy (ei_weight i) = false → ex_weight e = 0) ∧
    (Js.truthy (ei_restTime i) = false → ex_restTime e = 60) ∧
    (∀ z, ei_sets i = Some (Js.Num z) → z ≠ 0 → ex_sets e = z) ∧
    (∀ z, ei_reps i = Some (Js.Num z) → z ≠ 0 → ex_reps e = z) ∧
    (∀ z, ei_weight i = Some (Js.Num z) → ex_weight e = z) ∧
    (∀ z, ei_restTime i = Some (Js.Num z) → z ≠ 0 → ex_restTime e = z) ∧
    (ei_notes i = None → ex_notes e = "") ∧
    (∀ n, ei_notes i = Some n → ex_notes e = n) ∧
    e ∈ getExercisesByRoutine (c_db c') (ei_routineId i) ∧
    (∀ rid, rid ≠ ei_routineId i →
            getExercisesByRoutine (c_db c') rid = getExercisesByRoutine (c_db c) rid) ∧
    routines (c_db c') = routines (c_db c) ∧
    workouts (c_db c') = workouts (c_db c) ∧
    c_emitted c' = c_emitted c ++ [exerciseCreated e].
Proof.
  intros Hv Hfresh.
  destruct (ValidatorFacts.passes_guards _ _ Hv) as (_ & Hs & Hr & Hw & Ht).
  simpl in Hs, Hr, Hw, Ht.
  unfold createExercise, dbCreateExercise. simpl.
  rewrite existsb_id_false by done.
  eexists _, _. split; [reflexivity|]. simpl.
  split; [done|]. split; [done|]. split; [done|].
  split; [by apply or_else_bound|]. split; [by apply or_else_bound|].
  split; [by apply or_else_bound|]. split; [by apply or_else_bound|].
  split; [by apply or_else_validated|]. split; [by apply or_else_validated|].
  split; [by apply or_else_validated|]. split; [by apply or_else_validated|].
  split; [intros z Hz Hz0; by apply (or_else_validated _ 1 Hs)|].
  split; [intros z Hz Hz0; by apply (or_else_validated _ 1 Hr)|].
  split.
  { intros z Hz. destruct (Z.eq_dec z 0) as [->|Hz0].
    - by rewrite Hz.
    - by apply (or_else_validated _ 0 Hw). }
  split; [intros z Hz Hz0; by apply (or_else_validated _ 60 Ht)|].
  split; [by intros ->|]. split; [by intros n ->|].
  split; [|split; [|done]].
  - unfold getExercisesByRoutine. simpl. apply list_elem_of_filter. split; [done|].
    apply elem_of_index_insert. by left.
  - intros rid Hne. unfold getExercisesByRoutine. simpl.
    apply filter_index_insert_other. simpl. congruence.
Qed.

Lemma createExercise_applies_defaults_witness :
  let i := {| ei_name := "Squat"; ei_routineId := "r1"; ei_sets := Some (Js.Num 0);
              ei_reps := None; ei_weight := Some Js.NaN;
              ei_restTime := Some (Js.Num 90); ei_notes := None |} in
  let c := {| c_db := Scenario.legs_day; c_emitted := [] |} in
  ∃ e c', createExercise i "e3" c = (c', Ok e) ∧
          ex_sets e = 1 ∧ ex_reps e = 1 ∧ ex_weight e = 0 ∧ ex_restTime e = 90 ∧
          ex_notes e = "" ∧ e ∈ getExercisesByRoutine (c_db c') "r1".
Proof.
  intros i c.
  destruct (createExercise_applies_defaults i "e3" "Exercise" c)
    as (e & c' & H1 & _ & _ & _ & _ & _ & _ & _ & H9 & H10 & H11 & _ & _ & _ & _
        & H16 & H17 & _ & H19 & _).
  - reflexivity.
  - by repeat constructor.
  - exists e, c'. split; [done|]. rewrite H9, H10, H11, (H16 90), H17 by done.
    by repeat split.
Defined.

(** *** Deleting a routine *)

Lemma fold_delete_exercise (ids : list string) (l : list Exercise) :
  fold_left delete_exercise ids l
  = List.filter (λ x, negb (existsb (String.eqb (ex_id x)) ids)) l.
Proof.
  revert l. induction ids as [|k ids IH]; intros l; simpl.
  - induction l as [|x l IHl]; simpl; [done|]. by rewrite <- IHl.
  - rewrite IH. unfold delete_exercise. induction l as [|x l IHl]; simpl; [done|].
    destruct (String.eqb (ex_id x) k); simpl; [done|].
    destruct (negb (existsb (String.eqb (ex_id x)) ids)); simpl; by rewrite IHl.
Qed.

Lemma existsb_id (k : string) (ids : list string) :
  existsb (String.eqb k) ids = true ↔ k ∈ ids.
Proof.
  rewrite existsb_exists. split.
  - intros (x & Hx & ->%String.eqb_eq). by apply list_elem_of_In.
  - intros Hk. exists k. split; [by apply list_elem_of_In|apply String.eqb_refl].
Qed.

Lemma filter_bool_decide {A : Type} (f : A → bool) (P : A → Prop)
    `{∀ x, Decision (P x)} (l : list A) :
  (∀ x, x ∈ l → f x = bool_decide (P x)) → List.filter f l = filter P l.
Proof.
  induction l as [|x l IH]; intros Hf; [done|]. simpl.
  rewrite Hf by (apply elem_of_cons; by left).
  rewrite IH by (intros y Hy; apply Hf, elem_of_cons; by right).
  rewrite (filter_cons _ x). destruct (decide (P x)).
  - by rewrite bool_decide_eq_true_2.
  - by rewrite bool_decide_eq_false_2.
Qed.

(** The exercises that are left when those of routine [rid] are deleted by
    id. *)
Lemma deleted_exercises (rid : string) (l : list Exercise) :
  NoDup (map ex_id l) →
  fold_left delete_exercise (map ex_id (filter (λ x, ex_routineId x = rid) l)) l
  = filter (λ x, ex_routineId x ≠ rid) l.
Proof.
  intros Hnd. rewrite fold_delete_exercise.
  assert (Hin : ∀ x, x ∈ l →
            negb (existsb (String.eqb (ex_id x))
                    (map ex_id (filter (λ x, ex_routineId x = rid) l)))
            = bool_decide (ex_routineId x ≠ rid)).
  { intros x Hx. case_bool_decide as Hr.
    - apply negb_true_iff, not_true_iff_false. rewrite existsb_id.
      intros (y & Hy & [Hyr Hyl]%list_elem_of_filter)%list_elem_of_fmap.
      assert (x = y); [|congruence].
      apply list_elem_of_lookup in Hx as [a Ha], Hyl as [b Hb].
      assert (a = b); [|congruence].
      eapply NoDup_lookup; [exact Hnd|..]; rewrite list_lookup_fmap.
      + by rewrite Ha.
      + rewrite Hb. simpl. by rewrite Hy.
    - apply negb_false_iff, existsb_id, list_elem_of_fmap. exists x. split; [done|].
      apply list_elem_of_filter. split; [|done]. by destruct (decide (ex_routineId x = rid)). }
  by apply filter_bool_decide.
Qed.

Lemma filter_routine_after (rid rid' : string) (l : list Exercise) :
  filter (λ x, ex_routineId x = rid') (filter (λ x, ex_routineId x ≠ rid) l)
  = if decide (rid' = rid) then [] else filter (λ x, ex_routineId x = rid') l.
Proof.
  induction l as [|x l IH]; [by case_decide|].
  rewrite (filter_cons (λ x, ex_routineId x ≠ rid) x).
  rewrite (filter_cons (λ x, ex_routineId x = rid') x).
  destruct (decide (ex_routineId x ≠ rid)) as [Hq|Hq].
  - rewrite (filter_cons (λ x, ex_routineId x = rid') x), IH.
    destruct (decide (ex_routineId x = rid')) as [Hp|Hp];
      destruct (decide (rid' = rid)); try done. congruence.
  - rewrite IH. destruct (decide (ex_routineId x = rid')) as [Hp|Hp];
      destruct (decide (rid' = rid)); try done.
    destruct Hq. congruence.
Qed.

(** A call other than [startWorkout] looks at the sessions only. *)
Lemma run_reads_sessions (call : Call) (d d' : Database) (log : list WorkoutService.Event) :
  workouts d' = workouts d →
  match call with CallStart _ _ _ => False | _ => True end →
  (run call {| db := d'; emitted := log |}).2
    = (run call {| db := d; emitted := log |}).2 ∧
  workouts (db (run call {| db := d'; emitted := log |}).1)
    = workouts (db (run call {| db := d; emitted := log |}).1) ∧
  emitted (run call {| db := d'; emitted := log |}).1
    = emitted (run call {| db := d; emitted := log |}).1.
Proof.
  intros Hw Hcall.
  destruct call as [rid newId now|workoutId sd now|workoutId now|workoutId now
                   |workoutId now|workoutId exerciseIndex newWeight now];
    [done|..]; SessionFacts.call_m; rewrite Hw.
  - destruct (workouts d !! workoutId) as [s|] eqn:Hs; simpl; [|done].
    case_bool_decide; simpl; [|done].
    destruct (Js.index (exercises s) (currentExerciseIndex s)); simpl; [|done].
    destruct (targetSets _ <=? _); simpl; [|by rewrite Hw].
    destruct (_ <=? _); simpl; [|by rewrite Hw].
    rewrite Hw, Hs. simpl. by rewrite Hw.
  - destruct (workouts d !! workoutId) as [s|]; simpl; [|done].
    case_bool_decide; simpl; [|done]. by rewrite Hw.
  - destruct (workouts d !! workoutId) as [s|]; simpl; [|done].
    case_bool_decide; simpl; [|done]. by rewrite Hw.
  - destruct (workouts d !! workoutId) as [s|]; simpl; [|done]. by rewrite Hw.
  - destruct (workouts d !! workoutId) as [s|]; simpl; [|done].
    destruct (Js.index (exercises s) exerciseIndex); simpl; [|done]. by rewrite Hw.
Qed.

(** X23.  [deleteRoutine] on a store whose exercises have an id each.  The
    routine is gone and so are all its exercises, while every other routine
    keeps its record and its exercises, in their order; [routineDeleted] is
    emitted.  The sessions are not touched: [startWorkout] on the deleted
    routine rejects, but every other call of the engine, on a session
    started from the deleted routine as on any other, does what it would
    have done without the deletion. *)
Theorem deleteRoutine_cascades (rid : string) (c : Catalog) :
  NoDup (map ex_id (exerciseStore (c_db c))) →
  let c' := deleteRoutine rid c in
  Store.getRoutine (c_db c') rid = None ∧
  getExercisesByRoutine (c_db c') rid = [] ∧
  (∀ rid', rid' ≠ rid →
     Store.getRoutine (c_db c') rid' = Store.getRoutine (c_db c) rid' ∧
     getExercisesByRoutine (c_db c') rid' = getExercisesByRoutine (c_db c) rid') ∧
  NoDup (map ex_id (exerciseStore (c_db c'))) ∧
  workouts (c_db c') = workouts (c_db c) ∧
  c_emitted c' = c_emitted c ++ [routineDeleted rid] ∧
  (∀ newId now log,
     startWorkout rid newId now {| db := c_db c'; emitted := log |}
     = ({| db := c_db c'; emitted := log |}, Throw RoutineNotFound)) ∧
  (∀ call log,
     match call with CallStart _ _ _ => False | _ => True end →
     (run call {| db := c_db c'; emitted := log |}).2
       = (run call {| db := c_db c; emitted := log |}).2 ∧
     workouts (db (run call {| db := c_db c'; emitted := log |}).1)
       = workouts (db (run call {| db := c_db c; emitted := log |}).1)).
Proof.
  intros Hnd c'.
  assert (Hex : exerciseStore (c_db c')
                = filter (λ x, ex_routineId x ≠ rid) (exerciseStore (c_db c))).
  { subst c'. simpl. unfold getExercisesByRoutine. by apply deleted_exercises. }
  split; [apply lookup_delete_eq|]. split; [|split; [|split; [|split; [done|split; [done|split]]]]].
  - unfold getExercisesByRoutine. rewrite Hex, filter_routine_after.
    by case_decide.
  - intros rid' Hne. split; [by apply lookup_delete_ne|].
    unfold getExercisesByRoutine. rewrite Hex, filter_routine_after.
    by case_decide.
  - rewrite Hex. clear Hex. revert Hnd.
    induction (exerciseStore (c_db c)) as [|x l IH]; [done|].
    simpl. rewrite NoDup_cons. intros [Hx Hl]. rewrite (filter_cons _ x).
    case_decide; [|by apply IH]. simpl. apply NoDup_cons. split; [|by apply IH].
    intros (y & Hy & [_ Hyl]%list_elem_of_filter)%list_elem_of_fmap.
    apply Hx, list_elem_of_fmap. by exists y.
  - intros newId now log. SessionFacts.call_m. by rewrite lookup_delete_eq.
  - intros call log Hcall.
    destruct (run_reads_sessions call (c_db c) (c_db c') log eq_refl Hcall)
      as (H1 & H2 & _). done.
Qed.

Lemma deleteRoutine_cascades_witness :
  let c' := deleteRoutine "r1" {| c_db := db Scenario.started; c_emitted := [] |} in
  Store.getRoutine (c_db c') "r1" = None ∧
  getExercisesByRoutine (c_db c') "r1" = [] ∧
  (∀ newId now log,
     startWorkout "r1" newId now {| db := c_db c'; emitted := log |}
     = ({| db := c_db c'; emitted := log |}, Throw RoutineNotFound)) ∧
  (resolved (completeSet "w1" Scenario.as_target 2000
               {| db := c_db c'; emitted := [] |}).2)
  = resolved (completeSet "w1" Scenario.as_target 2000
                {| db := db Scenario.started; emitted := [] |}).2.
Proof.
  intros c'.
  destruct (deleteRoutine_cascades "r1"
              {| c_db := db Scenario.started; c_emitted := [] |})
    as (H1 & H2 & _ & _ & _ & _ & H7 & H8).
  - apply (bool_decide_unpack _). by vm_compute.
  - split; [exact H1|]. split; [exact H2|]. split; [exact H7|].
    destruct (H8 (CallCompleteSet "w1" Scenario.as_target 2000) [] I) as [Hr _].
    unfold run in Hr. subst c'. by rewrite Hr.
Defined.

(** *** From the forms to the sessions *)

Lemma createExercise_keeps (i : ExerciseInput) (newId context : string) (c : Catalog) :
  validateExerciseData (as_data i) context = passes →
  Forall (λ e, 1 ≤ ex_sets e) (exerciseStore (c_db c)) →
  Forall (λ e, 1 ≤ ex_sets e) (exerciseStore (c_db (createExercise i newId c).1)) ∧
  workouts (c_db (createExercise i newId c).1) = workouts (c_db c).
Proof.
  intros Hv Hall.
  destruct (ValidatorFacts.passes_guards _ _ Hv) as (_ & Hs & _). simpl in Hs.
  unfold createExercise, dbCreateExercise.
  destruct (existsb _ _); simpl; [done|]. split; [|done].
  apply Forall_index_insert; [|done]. simpl. by apply or_else_bound.
Qed.

Lemma create_each_keeps (l : list ExerciseInput) (rid : string) (ids : nat → string)
    (created : list Exercise) (c : Catalog) :
  Forall (λ i, validateExerciseData (as_data i) "Exercise" = passes) l →
  Forall (λ e, 1 ≤ ex_sets e) (exerciseStore (c_db c)) →
  Forall (λ e, 1 ≤ ex_sets e)
    (exerciseStore (c_db (create_each l rid ids created c).1)) ∧
  workouts (c_db (create_each l rid ids created c).1) = workouts (c_db c).
Proof.
  intros Hl. revert ids created c.
  induction Hl as [|i l Hi _ IH]; intros ids created c Hall; [done|]. simpl.
  destruct (createExercise_keeps (with_routine i rid) (ids 0%nat) "Exercise" c)
    as [H1 H2]; [done|done|].
  destruct (createExercise (with_routine i rid) (ids 0%nat) c) as [c1 [e|err]];
    simpl in *; [|done].
  destruct (IH (λ n, ids (S n)) (created ++ [e]) c1 H1) as [H3 H4].
  split; [done|]. by rewrite H4.
Qed.

Lemma createRoutine_keeps (i : RoutineInput) (newId : string) (ids : nat → string)
    (c : Catalog) :
  validateRoutineData (as_routine_data i) = passes →
  Forall (λ e, 1 ≤ ex_sets e) (exerciseStore (c_db c)) →
  Forall (λ e, 1 ≤ ex_sets e)
    (exerciseStore (c_db (createRoutine i newId ids c).1)) ∧
  workouts (c_db (createRoutine i newId ids c).1) = workouts (c_db c).
Proof.
  intros Hv Hall.
  assert (Hl : Forall (λ i, validateExerciseData (as_data i) "Exercise" = passes)
                 (default [] (ri_exercises i))).
  { unfold validateRoutineData, as_routine_data in Hv.
    cbn [rd_name rd_exercises] in Hv.
    destruct (name_missing (Some (ri_name i))); [done|].
    destruct (ri_exercises i) as [l|]; cbn [option_map default] in *;
      [|by constructor].
    apply ValidatorFacts.validate_each_passes in Hv.
    by apply Forall_fmap in Hv. }
  unfold createRoutine, dbCreateRoutine. cbn [r_id].
  destruct (routines (c_db c) !! newId); simpl; [done|].
  match goal with
  | |- context [create_each ?l newId ids [] ?c1] =>
      destruct (create_each_keeps l newId ids [] c1 Hl Hall) as [H1 H2];
      destruct (create_each l newId ids [] c1) as [c2 [es|err]]
  end; simpl in *; done.
Qed.

Lemma deleteRoutine_keeps (rid : string) (c : Catalog) :
  Forall (λ e, 1 ≤ ex_sets e) (exerciseStore (c_db c)) →
  Forall (λ e, 1 ≤ ex_sets e) (exerciseStore (c_db (deleteRoutine rid c))).
Proof.
  intros Hall. simpl. rewrite fold_delete_exercise.
  apply Forall_forall. intros x [Hx _]%list_elem_of_In%filter_In.
  rewrite Forall_forall in Hall. by apply Hall, list_elem_of_In.
Qed.

Lemma grown_store_ok (d : Database) :
  grown d → store_ok d ∧ map_Forall (λ _ s, in_order s) (workouts d).
Proof.
  induction 1 as [|d i newId ids log _ [[IH1 IH2] IH3] Hv
                  |d i newId context log _ [[IH1 IH2] IH3] Hv
                  |d rid log _ [[IH1 IH2] IH3]
                  |d c log _ [IH1 IH2]].
  - split; [split; [done|]|]; apply map_Forall_empty.
  - destruct (createRoutine_keeps i newId ids {| c_db := d; c_emitted := log |} Hv IH1)
      as [H1 H2].
    split; [split; [done|]|]; by rewrite H2.
  - destruct (createExercise_keeps i newId context {| c_db := d; c_emitted := log |}
                Hv IH1) as [H1 H2].
    split; [split; [done|]|]; by rewrite H2.
  - split; [split; [|done]|done].
    by apply (deleteRoutine_keeps rid {| c_db := d; c_emitted := log |}).
  - split.
    + by apply (EngineFacts.run_store_ok c {| db := d; emitted := log |}).
    + by apply (SessionFacts.run_in_order c {| db := d; emitted := log |}).
Qed.

(** X24.  From the forms to the sessions, for data whose numbers are whole.
    Take any database that came about from an empty one by creating routines
    and exercises the way the forms do, with [createRoutine] and
    [createExercise] called on data that [validateRoutineData] or
    [validateExerciseData] has let through, by deleting routines, and by
    calls of the session engine, in any order.  Every exercise definition in
    it asks for at least one set, and every stored session keeps
    [completedSets ≤ targetSets] and [len(sets) = completedSets] for each
    exercise, has its index between 0 and the number of exercises, and has
    advanced through its exercises in order. *)
Theorem validated_stores_keep_sessions_in_shape (d : Database) (k : string)
    (s : Workout) :
  grown d →
  Forall (λ e, 1 ≤ ex_sets e) (exerciseStore d) ∧
  (workouts d !! k = Some s → session_ok s ∧ in_order s).
Proof.
  intros [[H1 H2] H3]%grown_store_ok. split; [done|].
  intros Hs. split; [by destruct (H2 _ _ Hs)|by apply (H3 _ _ Hs)].
Qed.

Lemma validated_stores_keep_sessions_in_shape_witness :
  let squat := {| ei_name := "Squat"; ei_routineId := ""; ei_sets := Some (Js.Num 0);
                  ei_reps := Some (Js.Num 10); ei_weight := Some (Js.Num 50);
                  ei_restTime := None; ei_notes := None |} in
  let legs := {| ri_name := "Legs"; ri_description := None;
                 ri_exercises := Some [squat] |} in
  let empty := {| routines := ∅; exerciseStore := []; workouts := ∅ |} in
  let c := (createRoutine legs "r1" (λ _, "e1") {| c_db := empty; c_emitted := [] |}).1 in
  let w := (run (CallStart "r1" "w1" 1000) {| db := c_db c; emitted := [] |}).1 in
  let w' := (run (CallCompleteSet "w1" Scenario.as_target 2000)
               {| db := db w; emitted := [] |}).1 in
  map ex_sets (exerciseStore (db w')) = [1] ∧
  ∃ s, workouts (db w') !! "w1" = Some s ∧ status s = completed ∧
       session_ok s ∧ in_order s.
Proof.
  intros squat legs empty c w w'.
  assert (Hs : ∃ s, workouts (db w') !! "w1" = Some s ∧ status s = completed)
    by (vm_compute; eauto).
  destruct Hs as (s & Hs & Hst).
  split; [reflexivity|]. exists s. split; [done|]. split; [done|].
  apply (validated_stores_keep_sessions_in_shape (db w') "w1" s); [|done].
  apply grown_call, grown_call, (grown_createRoutine empty legs "r1" (λ _, "e1") []);
    [apply grown_empty|reflexivity].
Defined.

(** *** Creating a routine *)

Lemma index_insert_perm (e : Exercise) (l : list Exercise) :
  index_insert e l ≡ₚ e :: l.
Proof.
  induction l as [|x l IH]; simpl; [done|].
  destruct (index_before e x); [done|]. rewrite IH. apply Permutation_swap.
Qed.

(** What the loop of [createRoutine] does when the ids are new. *)
Lemma create_each_fresh (l : list ExerciseInput) (rid : string) (ids : nat → string)
    (created : list Exercise) (c : Catalog) :
  (∀ j, (j < length l)%nat →
        Forall (λ x, ex_id x ≠ ids j) (exerciseStore (c_db c))) →
  (∀ j j', (j < length l)%nat → (j' < length l)%nat → ids j = ids j' → j = j') →
  ∃ es c',
    create_each l rid ids created c = (c', Ok (created ++ es)) ∧
    es = imap (λ j i, new_exercise (with_routine i rid) (ids j)) l ∧
    filter (λ x, ex_routineId x = rid) (exerciseStore (c_db c'))
      ≡ₚ filter (λ x, ex_routineId x = rid) (exerciseStore (c_db c)) ++ es ∧
    (∀ rid', rid' ≠ rid →
       filter (λ x, ex_routineId x = rid') (exerciseStore (c_db c'))
       = filter (λ x, ex_routineId x = rid') (exerciseStore (c_db c))) ∧
    routines (c_db c') = routines (c_db c) ∧
    workouts (c_db c') = workouts (c_db c) ∧
    c_emitted c' = c_emitted c ++ map exerciseCreated es.
Proof.
  revert ids created c. induction l as [|i l IH]; intros ids created c Hfresh Hinj.
  - exists [], c. simpl. rewrite !app_nil_r. done.
  - simpl. unfold createExercise, dbCreateExercise. cbn [ex_id new_exercise].
    rewrite existsb_id_false by (apply Hfresh; simpl; lia).
    set (e := new_exercise (with_routine i rid) (ids 0%nat)).
    set (c1 := {| c_db := with_exercises (c_db c) (index_insert e (exerciseStore (c_db c)));
                  c_emitted := c_emitted c ++ [exerciseCreated e] |}).
    destruct (IH (λ n, ids (S n)) (created ++ [e]) c1) as
      (es & c' & Hrun & Hes & Hperm & Hother & Hr & Hw & Hem).
    { intros j Hj. subst c1. simpl. apply Forall_index_insert.
      - simpl. intros Heq. assert (0%nat = S j); [|done].
        apply Hinj; simpl; [lia|lia|done].
      - apply Hfresh. simpl. lia. }
    { intros j j' Hj Hj' Heq. assert (S j = S j'); [|lia].
      apply Hinj; simpl; [lia|lia|done]. }
    exists (e :: es), c'. rewrite Hrun, <- app_assoc. split; [done|].
    split; [simpl; by rewrite Hes|]. split; [|split; [|split; [done|split; [done|]]]].
    + rewrite Hperm. subst c1. simpl. rewrite index_insert_perm.
      rewrite filter_cons_True by done. simpl. apply Permutation_middle.
    + intros rid' Hne. rewrite Hother by done. subst c1. simpl.
      apply filter_index_insert_other. simpl. congruence.
    + rewrite Hem. subst c1. simpl. by rewrite <- app_assoc.
Qed.

(** X26.  [createRoutine] with ids that are new: the id of the routine is
    not in use, no exercise refers to it, and the ids of the exercises are
    different from each other and from those in the store.  It resolves with
    the routine and the records of its exercises, in the order of the
    form, each made as [createExercise] makes it, with the id of the
    routine.  The routine can be read back; its exercises read back are
    these records, though the index returns them in the order of their ids
    and not necessarily in that of the form; a session started from the routine
    has one entry for each.  Other routines and the sessions are as before.  One
    [exerciseCreated] per exercise is emitted and then [routineCreated]. *)
Theorem createRoutine_stores_the_routine (i : RoutineInput) (newId : string)
    (ids : nat → string) (c : Catalog) :
  let inputs := default [] (ri_exercises i) in
  routines (c_db c) !! newId = None →
  getExercisesByRoutine (c_db c) newId = [] →
  (∀ j, (j < length inputs)%nat →
        Forall (λ x, ex_id x ≠ ids j) (exerciseStore (c_db c))) →
  (∀ j j', (j < length inputs)%nat → (j' < length inputs)%nat →
           ids j = ids j' → j = j') →
  ∃ r es c',
    createRoutine i newId ids c = (c', Ok (r, es)) ∧
    r = {| r_id := newId; r_name := ri_name i;
           r_description := or_empty (ri_description i) |} ∧
    es = imap (λ j x, new_exercise (with_routine x newId) (ids j)) inputs ∧
    Store.getRoutine (c_db c') newId = Some r ∧
    getExercisesByRoutine (c_db c') newId ≡ₚ es ∧
    (∀ rid, rid ≠ newId →
       Store.getRoutine (c_db c') rid = Store.getRoutine (c_db c) rid ∧
       getExercisesByRoutine (c_db c') rid = getExercisesByRoutine (c_db c) rid) ∧
    workouts (c_db c') = workouts (c_db c) ∧
    c_emitted c' = c_emitted c ++ map exerciseCreated es ++ [routineCreated r es] ∧
    (∀ wid now log, workouts (c_db c) !! wid = None →
       ∃ ret, (startWorkout newId wid now {| db := c_db c'; emitted := log |}).2
              = Ok ret ∧
              routineName ret = ri_name i ∧
              map exerciseId (exercises ret) ≡ₚ map ex_id es).
Proof.
  intros inputs Hnew Horphan Hfresh Hinj.
  unfold createRoutine, dbCreateRoutine. cbn [r_id]. rewrite Hnew.
  set (r := {| r_id := newId; r_name := ri_name i;
               r_description := or_empty (ri_description i) |}).
  set (c1 := {| c_db := with_routines (c_db c) (<[newId:=r]> (routines (c_db c)));
                c_emitted := c_emitted c |}).
  destruct (create_each_fresh inputs newId ids [] c1 Hfresh Hinj)
    as (es & c' & Hrun & Hes & Hperm & Hother & Hr & Hw & Hem).
  fold inputs. rewrite Hrun. simpl app.
  eexists r, es, _. split; [reflexivity|]. split; [done|]. split; [done|].
  cbn [c_db c_emitted].
  assert (Hget : Store.getRoutine (c_db c') newId = Some r).
  { unfold Store.getRoutine. rewrite Hr. subst c1. simpl. apply lookup_insert_eq. }
  assert (Hex : getExercisesByRoutine (c_db c') newId ≡ₚ es).
  { unfold getExercisesByRoutine in *. rewrite Hperm. subst c1. simpl.
    by rewrite Horphan. }
  split; [done|]. split; [done|]. split; [|split; [done|split]].
  - intros rid Hne. split.
    + unfold Store.getRoutine. rewrite Hr. subst c1. simpl.
      by apply lookup_insert_ne.
    + unfold getExercisesByRoutine. by rewrite Hother.
  - rewrite Hem. subst c1. simpl. by rewrite <- app_assoc.
  - intros wid now log Hwid. SessionFacts.call_m.
    unfold Store.getRoutine in Hget. rewrite Hget. simpl.
    rewrite Hw. subst c1. simpl. rewrite Hwid. simpl.
    eexists. split; [reflexivity|]. simpl. split; [done|].
    rewrite <- Hex, map_map. done.
Qed.

Lemma createRoutine_stores_the_routine_witness :
  let squat := {| ei_name := "Squat"; ei_routineId := ""; ei_sets := Some (Js.Num 3);
                  ei_reps := Some (Js.Num 10); ei_weight := Some (Js.Num 50);
                  ei_restTime := None; ei_notes := None |} in
  let lunge := {| ei_name := "Lunge"; ei_routineId := ""; ei_sets := None;
                  ei_reps := Some (Js.Num 8); ei_weight := None;
                  ei_restTime := Some (Js.Num 45); ei_notes := Some "slow" |} in
  let legs := {| ri_name := "Legs"; ri_description := None;
                 ri_exercises := Some [squat; lunge] |} in
  let ids := λ n : nat, match n with O => "k9" | _ => "k1" end in
  let c := {| c_db := {| routines := ∅; exerciseStore := []; workouts := ∅ |};
              c_emitted := [] |} in
  ∃ r es c',
    createRoutine legs "r1" ids c = (c', Ok (r, es)) ∧
    map ex_name es = ["Squat"; "Lunge"] ∧
    map ex_name (getExercisesByRoutine (c_db c') "r1") = ["Lunge"; "Squat"] ∧
    getExercisesByRoutine (c_db c') "r1" ≡ₚ es.
Proof.
  intros squat lunge legs ids c.
  destruct (createRoutine_stores_the_routine legs "r1" ids c)
    as (r & es & c' & H1 & _ & H3 & _ & H5 & _).
  - reflexivity.
  - reflexivity.
  - intros j _. constructor.
  - intros [|[|j]] [|[|j']]; simpl; intros; try done; lia.
  - exists r, es, c'. split; [exact H1|]. split; [by rewrite H3|].
    split; [|exact H5].
    assert (Hc : c' = (createRoutine legs "r1" ids c).1) by (by rewrite H1).
    rewrite Hc. reflexivity.
Defined.

End RoutineFacts.

(** ** Subscriptions *)

Module EventBusFacts.
Import EventBus.

Lemma emit_on (event event' : string) (callback : Callback) (ls : Listeners) :
  emit event' (on event callback ls)
  = if decide (event' = event) then emit event ls ++ [callback] else emit event' ls.
Proof.
  unfold emit, on, JsMap.has. case_decide as He.
  - subst event'. destruct (JsMap.get event ls) as [l|] eqn:Hl.
    + by rewrite Hl, TimerFacts.get_set_eq.
    + by rewrite !TimerFacts.get_set_eq.
  - destruct (JsMap.get event ls) as [l|] eqn:Hl.
    + by rewrite Hl, TimerIdFacts.get_set_ne.
    + by rewrite TimerFacts.get_set_eq, !TimerIdFacts.get_set_ne.
Qed.

Lemma emit_off (event event' : string) (callback : Callback) (ls : Listeners) :
  emit event' (off event callback ls)
  = if decide (event' = event) then remove_first callback (emit event ls)
    else emit event' ls.
Proof.
  unfold emit, off. case_decide as He.
  - subst event'. destruct (JsMap.get event ls) as [l|] eqn:Hl.
    + by rewrite TimerFacts.get_set_eq.
    + by rewrite Hl.
  - destruct (JsMap.get event ls) as [l|] eqn:Hl; [|done].
    by rewrite TimerIdFacts.get_set_ne.
Qed.

Lemma remove_first_snoc (callback : Callback) (l : list Callback) :
  remove_first callback (l ++ [callback])
  = if decide (callback ∈ l) then remove_first callback l ++ [callback] else l.
Proof.
  induction l as [|x l IH]; cbn [remove_first app].
  - rewrite Nat.eqb_refl. case_decide as Hin; [by apply elem_of_nil in Hin|done].
  - destruct (Nat.eqb_spec x callback) as [->|Hne].
    + clear IH. case_decide as Hin; [done|]. destruct Hin. apply elem_of_cons. by left.
    + rewrite IH. case_decide as Hin; case_decide as Hin'; try done.
      * destruct Hin'. apply elem_of_cons. by right.
      * apply elem_of_cons in Hin' as [?|?]; [congruence|done].
Qed.

Lemma remove_first_count (callback x : Callback) (l : list Callback) :
  count_occ Nat.eq_dec (remove_first callback l) x
  = if decide (x = callback) then pred (count_occ Nat.eq_dec l x)
    else count_occ Nat.eq_dec l x.
Proof.
  induction l as [|y l IH]; simpl; [by case_decide|].
  destruct (Nat.eqb_spec y callback) as [->|Hne].
  - destruct (Nat.eq_dec callback x) as [->|?]; case_decide; simpl; congruence.
  - simpl. rewrite IH. destruct (Nat.eq_dec y x) as [->|?]; case_decide; simpl;
      congruence.
Qed.

(** X27.  Subscriptions, in the workout service and in the timer service
    alike.  [emit] calls the callbacks of the event in the order in which
    they subscribed, as often as they subscribed, and no callback of another
    event.  [on] adds the callback at the end.  [off] takes one subscription
    of the callback away, the oldest, and nothing when the callback is not
    subscribed; so for a callback that was not subscribed, [on] followed by
    [off] changes nothing for any event, while for one that was, the pair
    moves it to the end. *)
Theorem subscriptions (event : string) (callback : Callback) (ls : Listeners) :
  emit event (on event callback ls) = emit event ls ++ [callback] ∧
  emit event (off event callback ls) = remove_first callback (emit event ls) ∧
  (∀ x, count_occ Nat.eq_dec (emit event (off event callback ls)) x
        = if decide (x = callback)
          then pred (count_occ Nat.eq_dec (emit event ls) x)
          else count_occ Nat.eq_dec (emit event ls) x) ∧
  (callback ∉ emit event ls → emit event (off event callback ls) = emit event ls) ∧
  emit event (off event callback (on event callback ls))
  = (if decide (callback ∈ emit event ls)
     then remove_first callback (emit event ls) ++ [callback]
     else emit event ls) ∧
  (∀ event', event' ≠ event →
     emit event' (on event callback ls) = emit event' ls ∧
     emit event' (off event callback ls) = emit event' ls).
Proof.
  split; [by rewrite emit_on, decide_True|].
  split; [by rewrite emit_off, decide_True|].
  split; [intros x; rewrite emit_off, decide_True by done; apply remove_first_count|].
  split; [|split].
  - intros Hnot. rewrite emit_off, decide_True by done.
    induction (emit event ls) as [|x l IH]; simpl; [done|].
    apply not_elem_of_cons in Hnot as [Hne Hl].
    destruct (Nat.eqb_spec x callback); [congruence|]. by rewrite IH.
  - rewrite emit_off, decide_True, emit_on, decide_True by done.
    apply remove_first_snoc.
  - intros event' Hne. by rewrite emit_on, emit_off, !decide_False.
Qed.

End EventBusFacts.
